(** * TasitAction: the dynamic binder and the transaction subscription

    A shallow embedding of [packages/tasit-action/src/TasitAction.js]
    (classes [Utils], [TransactionSubscription], [Contract]) and of the
    earlier generation of the same file (classes [Utils], [Subscription],
    [Contract], testing the [constant] flag of an ABI entry).

    JavaScript values are a small inductive type, exceptions are explicit
    ([completion]), an [async] function returns a [promise] and never throws
    to its caller, and every [await] is a suspension point: the rest of the
    function is a [task] that a later step of the event loop resumes.

    The state is one subscription, the provider object it shares, the
    ledger behind the provider and the JavaScript runtime (clock, timers,
    suspended functions, unhandled rejections).  Caller-supplied functions
    are functions from their argument to how they end; the calls made to
    them are recorded in a [trace].  ethers.js is outside the repository:
    the provider is an event emitter and a receipt lookup; a contract call
    is a promise, and a sent transaction a promise or a synchronous throw,
    both given by section variables. *)

From Stdlib Require Import ZArith Ascii String.
From stdpp Require Import base strings list gmap.

Local Open Scope string_scope.
Local Open Scope list_scope.
Local Open Scope Z_scope.

(** ** JavaScript values, exceptions and promises *)

(** What user code can [throw] (or reject a promise with). *)
Inductive exn :=
| Error (message : string)       (* new Error(message), or any object carrying .message *)
| TypeError (message : string)   (* raised by the engine, e.g. reading a property of null *)
| ThrownNullish                  (* throw null, throw undefined, Promise.reject() *)
| ThrownPrimitive.               (* throw 5, throw "text": a value without .message *)

(** [message.data.confirmations]; [None] is [undefined]. *)
Record message_data := { confirmations_of : option Z }.
Record message := { data : message_data }.

(** A caller-supplied function is applied either to a confirmation message
    or to an error; it returns, or it fails (a synchronous [throw] or, for a
    function that is awaited, a rejected promise).  The functions taken here
    do not call methods of the subscription while they run. *)
Inductive cb_arg := Msg (m : message) | Err (e : exn).
Inductive cb_outcome := CbReturned | CbThrew (v : exn).
Definition callback := cb_arg -> cb_outcome.

(** One entry of an ABI array.  [constant] and [stateMutability] are
    independent properties of the JSON object; [None] is an absent
    property. *)
Record abi_entry := {
  type : string;
  name : string;
  constant : option bool;
  stateMutability : option string
}.

Inductive js_value :=
| JsUndefined
| JsNull
| JsBoolean (b : bool)
| JsNumber (n : Z)
| JsString (s : string)
| JsArray (items : list abi_entry)
| JsObject (_ethersType : option string)
| JsFunction (f : callback).

(** ToBoolean. *)
Definition truthy (v : js_value) : bool :=
  match v with
  | JsUndefined | JsNull => false
  | JsBoolean b => b
  | JsNumber n => negb (n =? 0)
  | JsString s => negb (String.eqb s "")
  | JsArray _ | JsObject _ | JsFunction _ => true
  end.

(** How an expression statement ends, and the state of a promise. *)
Inductive completion (A : Type) := Normal (a : A) | Abrupt (e : exn).
Inductive promise (A : Type) := Pending | Fulfilled (a : A) | Rejected (e : exn).
Arguments Normal {A} a.
Arguments Abrupt {A} e.
Arguments Pending {A}.
Arguments Fulfilled {A} a.
Arguments Rejected {A} e.

(** Calling an [async] function whose body runs to its end without
    suspending: the caller always gets a promise back. *)
Definition async {S A : Type} (r : S * completion A) : S * completion (promise A) :=
  (r.1, Normal (match r.2 with Normal a => Fulfilled a | Abrupt e => Rejected e end)).

(** ** The error kinds of the specification, as the messages the code throws *)

Definition InvalidTrigger : exn := Error "Invalid listener trigger, use: [confirmation,failed]".
Definition NotAFunction : exn := Error "Cannot listening without a function".
Definition AlreadyListening : exn := Error "Subscription already listening".
Definition CallbackFailure (m : string) : exn :=
  Error (String.append "Callback function with error: " m).
Definition Timeout : exn := Error "Listener removed after reached timeout".
Definition InvalidAddressOrABI : exn := Error "Cannot create a Contract without a address and ABI".
Definition InvalidWallet : exn := Error "Cannot set an invalid wallet to a Contract".
Definition MissingSigner : exn := Error "Cannot write data to a Contract without a wallet".

(** The specification's [InvalidArgument] covers a malformed address,
    descriptor or signer: both construction-time messages. *)
Definition is_InvalidArgument (e : exn) : bool :=
  match e with
  | Error m => String.eqb m "Cannot create a Contract without a address and ABI"
               || String.eqb m "Cannot set an invalid wallet to a Contract"
  | _ => false
  end.

(** ** Utils *)

Module Utils.

(** [0-9A-Fa-f] *)
Definition is_hex_digit (c : ascii) : bool :=
  let n := nat_of_ascii c in
  (Nat.leb 48 n && Nat.leb n 57) || (Nat.leb 65 n && Nat.leb n 70)
  || (Nat.leb 97 n && Nat.leb n 102).

(** [/^0x[0-9A-Fa-f]{40}$/]; without the [m] flag [$] is the end of input. *)
Definition matches_address (s : string) : bool :=
  match s with
  | String "0" (String "x" digits) =>
      Nat.eqb (String.length digits) 40
      && forallb is_hex_digit (list_ascii_of_string digits)
  | _ => false
  end.

(** [typeof address === "string" && address.match(...)], as a truth value. *)
Definition isAddress (address : js_value) : bool :=
  match address with
  | JsString s => matches_address s
  | _ => false
  end.

(** [abi && Array.isArray(abi)] *)
Definition isABI (abi : js_value) : bool :=
  truthy abi && match abi with JsArray _ => true | _ => false end.

(** [signer && signer._ethersType === "Signer"]; only an object can carry
    the marker. *)
Definition isEthersJsSigner (signer : js_value) : bool :=
  truthy signer
  && match signer with
     | JsObject (Some t) => String.eqb t "Signer"
     | _ => false
     end.

End Utils.

(** ** Data of the transport and of a subscription *)

(** The resolved transaction of a write call, and a receipt of the ledger. *)
Record tx_record := { hash : string; nonce : Z }.
Record receipt := { confirmations : Z }.

(** The two closures [#addListener] can hand to the provider.  JavaScript
    compares functions by identity: each closure carries the number it was
    created with. *)
Inductive listener_kind :=
| BlockPoll    (* async () => { receipt = await getTransactionReceipt(this.#tx.hash);
                                emitterFunction(receipt) } *)
| Emitter.     (* emitterFunction *)

Record listener_function := {
  fn_id : nat;
  fn_kind : listener_kind;
  fn_callback : callback
}.

Record listener := { eventName : string; listenerFunction : listener_function }.

(** The private fields of [TransactionSubscription].  [#provider] is a
    reference to the shared provider object, whose state lives in the
    [world] below. *)
Record TransactionSubscription := {
  txPromise : promise tx_record;
  tx : option tx_record;
  timeout : Z;
  listeners : list listener;
  errorListener : option callback
}.

(** [new TransactionSubscription(txPromise, provider)] *)
Definition new_TransactionSubscription (txPromise : promise tx_record) : TransactionSubscription :=
  {| txPromise := txPromise; tx := None; timeout := 2000;
     listeners := []; errorListener := None |}.

(** The provider object: [ethers.providers.JsonRpcProvider]. *)
Record Provider := {
  pollingInterval : Z;
  events : list (string * listener_function)
}.

(** ** The binder: class [Contract] *)

(** [new ethers.Contract(address, abi, signerOrProvider)]: [signer] is
    [JsNull] when the contract was connected to a bare provider. *)
Record EthersContract := {
  address : string;
  interface_abi : list abi_entry;
  signer : js_value
}.

(** The arrow functions the class defines as public instance fields:
    [setWallet], [removeWallet], [getAddress], [getProvider], [subscribe]. *)
Inductive field := SetWallet | RemoveWallet | GetAddress | GetProvider | Subscribe.

(** What a property of an instance holds: one of the class's own fields, or
    the closure [#attachReadFunction] or [#attachWriteFunction] stored under
    [this[f.name]]. *)
Inductive method :=
| ReadFunction (f : abi_entry)
| WriteFunction (f : abi_entry)
| OwnField (k : field).

(** An instance of [Contract]: its two private fields and what the class
    stores on the instance, by name: the public fields and what
    [#addFunctionsToContract] assigns.  Private ([#]) members are not
    properties and cannot be overwritten by [this[f.name] = ...]; the public
    fields can.  A name the class stores nothing under resolves through the
    prototype chain, which is not described here. *)
Record Contract := {
  provider : Provider;
  contract : EthersContract;
  methods : gmap string method
}.

(** The properties of an instance when the constructor body starts: field
    initialisers run first. *)
Definition own_fields : gmap string method :=
  <["setWallet" := OwnField SetWallet]>
    (<["removeWallet" := OwnField RemoveWallet]>
       (<["getAddress" := OwnField GetAddress]>
          (<["getProvider" := OwnField GetProvider]>
             (<["subscribe" := OwnField Subscribe]> ∅)))).

(** The private field [#eventNames] of [EventSubscription]; the class never
    uses its [#provider]. *)
Record EventSubscription := { eventNames : list string }.

Definition EventNotFound (eventName : string) : exn :=
  Error (String.append "Event '" (String.append eventName "' not found.")).

(** What the constructor does to the outside world, in order. *)
Inductive effect :=
| CreateProvider        (* new ethers.providers.JsonRpcProvider() *)
| WalletConnect         (* wallet.connect(provider) *)
| CreateEthersContract. (* new ethers.Contract(...) *)

(** Using the transport, as opposed to creating the provider object. *)
Definition is_interaction (e : effect) : bool :=
  match e with CreateProvider => false | _ => true end.

(** What calling a property of an instance hands back. *)
Inductive returned :=
| RValue (p : promise js_value)
| RSubscription (s : TransactionSubscription)
| RUndefined
| RString (s : string)
| RProvider (p : Provider)
| REventSubscription (s : EventSubscription).

Definition is_function (json : abi_entry) : bool := String.eqb (type json) "function".

(** [f.stateMutability !== "view"] *)
Definition isWrite (f : abi_entry) : bool :=
  match stateMutability f with
  | Some m => negb (String.eqb m "view")
  | None => true
  end.

Definition attachReadFunction (f : abi_entry) (this : gmap string method) : gmap string method :=
  <[name f := ReadFunction f]> this.

Definition attachWriteFunction (f : abi_entry) (this : gmap string method) : gmap string method :=
  <[name f := WriteFunction f]> this.

(** [abi.filter(json => json.type === "function").forEach(f => ...)] *)
Definition addFunctionsToContract (abi : list abi_entry) (this : gmap string method)
  : gmap string method :=
  foldl (fun this f => if isWrite f then attachWriteFunction f this
                       else attachReadFunction f this)
        this (List.filter is_function abi).

(** [#getDefaultProvider] *)
Definition getDefaultProvider : Provider := {| pollingInterval := 50; events := [] |}.

(** [#initializeContract(address, abi, wallet)] on an instance whose
    provider and dynamic properties are [prov] and [this].  Of ethers.js:
    [wallet.connect(provider)] is the wallet bound to the provider, a signer
    again, and the ethers contract keeps it as its [signer]; connected to a
    bare provider its [signer] is [null]. *)
Definition initializeContract (address abi wallet : js_value)
    (prov : Provider) (this : gmap string method) : list effect * completion Contract :=
  if negb (Utils.isAddress address) || negb (Utils.isABI abi) then
    ([], Abrupt InvalidAddressOrABI)
  else if truthy wallet && negb (Utils.isEthersJsSigner wallet) then
    ([], Abrupt InvalidWallet)
  else
    match address, abi with
    | JsString a, JsArray items =>
        let c := {| address := a; interface_abi := items;
                    signer := if truthy wallet then wallet else JsNull |} in
        ((if truthy wallet then [WalletConnect] else []) ++ [CreateEthersContract],
         Normal {| provider := prov; contract := c;
                   methods := addFunctionsToContract items this |})
    | _, _ => ([], Abrupt InvalidAddressOrABI)
    end.

(** [new Contract(address, abi, wallet)] *)
Definition new_Contract (address abi wallet : js_value) : list effect * completion Contract :=
  let prov := getDefaultProvider in
  let r := initializeContract address abi wallet prov own_fields in
  (CreateProvider :: r.1, r.2).

Definition setWallet (wallet : js_value) (c : Contract) : list effect * completion Contract :=
  if negb (Utils.isEthersJsSigner wallet) then ([], Abrupt InvalidWallet)
  else initializeContract (JsString (address (contract c)))
                          (JsArray (interface_abi (contract c))) wallet
                          (provider c) (methods c).

Definition removeWallet (c : Contract) : list effect * completion Contract :=
  initializeContract (JsString (address (contract c)))
                     (JsArray (interface_abi (contract c))) JsUndefined
                     (provider c) (methods c).

Definition getAddress (c : Contract) : string := address (contract c).

Definition getProvider (c : Contract) : Provider := provider c.

(** [subscribe(eventNames)] called with one of the values of [js_value]:
    only an array has [forEach]; an element of an array of entry objects is
    no event name ([interface.events] holds nothing under the string such an
    object converts to), so the first element already throws.  The call with
    an array of names is [subscribe] below. *)
Definition subscribe_value (eventNames : js_value) : completion EventSubscription :=
  match eventNames with
  | JsArray [] => Normal {| eventNames := [] |}
  | JsArray (_ :: _) => Abrupt (EventNotFound "[object Object]")
  | _ => Abrupt (TypeError "eventNames.forEach is not a function")
  end.

Section Invoke.

(** ethers.js, reached through [this.#contract[f.name].apply(null, args)]:
    the promise of a call (the decoded value), and what sending a
    transaction for the signer the ethers contract holds comes to: ethers.js
    checks the arguments against the descriptor before it sends and throws
    when they do not fit; otherwise it returns the promise of the
    transaction. *)
Variable ethers_call : js_value -> string -> list js_value -> promise js_value.
Variable ethers_send : js_value -> string -> list js_value -> completion (promise tx_record).

(** [this[n](...args)]: the instance afterwards and how the call ends.  The
    read closure is [async], whatever ethers.js throws is a rejection of
    the promise it returns; the write closure is not, and a throw of
    ethers.js is the caller's.  A name shadowed by a function of the
    descriptor calls the bound closure, not the class's field. *)
Definition call_property (c : Contract) (n : string) (args : list js_value)
  : Contract * completion returned :=
  match methods c !! n with
  | None =>
      (* nothing stored, and no method of that name inherited *)
      (c, Abrupt (TypeError (String.append n " is not a function")))
  | Some (ReadFunction f) =>
      (* async: value = await this.#contract[f.name].apply(null, args); return value *)
      (c, Normal (RValue (ethers_call (signer (contract c)) (name f) args)))
  | Some (WriteFunction f) =>
      if negb (Utils.isEthersJsSigner (signer (contract c))) then (c, Abrupt MissingSigner)
      else
        match ethers_send (signer (contract c)) (name f) args with
        | Normal tx => (c, Normal (RSubscription (new_TransactionSubscription tx)))
        | Abrupt e => (c, Abrupt e)
        end
  | Some (OwnField SetWallet) =>
      match (setWallet (hd JsUndefined args) c).2 with
      | Normal c' => (c', Normal RUndefined)
      | Abrupt e => (c, Abrupt e)
      end
  | Some (OwnField RemoveWallet) =>
      match (removeWallet c).2 with
      | Normal c' => (c', Normal RUndefined)
      | Abrupt e => (c, Abrupt e)
      end
  | Some (OwnField GetAddress) => (c, Normal (RString (getAddress c)))
  | Some (OwnField GetProvider) => (c, Normal (RProvider (getProvider c)))
  | Some (OwnField Subscribe) =>
      match subscribe_value (hd JsUndefined args) with
      | Normal s => (c, Normal (REventSubscription s))
      | Abrupt e => (c, Abrupt e)
      end
  end.

(** How the call [this[n](...args)] ends. *)
Definition invoke (c : Contract) (n : string) (args : list js_value) : completion returned :=
  (call_property c n args).2.

End Invoke.

(** ** The earlier generation of the binder *)

Module Legacy.

(** [!f.constant] *)
Definition isWrite (f : abi_entry) : bool :=
  negb (match constant f with Some b => b | None => false end).

Definition addFunctionsToContract (abi : list abi_entry) (this : gmap string method)
  : gmap string method :=
  foldl (fun this f => if isWrite f then attachWriteFunction f this
                       else attachReadFunction f this)
        this (List.filter is_function abi).

End Legacy.

(** ** The event loop around one subscription *)

(** An [async] function suspended at an [await], with what its
    continuation captured. *)
Inductive task :=
| AwaitTx (callback : callback)
    (* #addListener at [await this.#txPromise] *)
| AwaitReceipt (callback : callback) (h : string)
    (* #addListener at [await getTransactionReceipt(h)] *)
| AwaitPoll (callback : callback) (h : string)
    (* the block listener at [await getTransactionReceipt(h)] *)
| WaitTx
    (* waitForMessage at [await this.#txPromise] *)
| WaitInclusion (h : string).
    (* waitForMessage at [await waitForTransaction(h)] *)

(** Calls into caller-supplied functions, in order. *)
Inductive observation :=
| CallbackCalled (m : message)
| ErrorListenerCalled (e : exn).

Record world := {
  sub : TransactionSubscription;
  transport : Provider;   (* the object behind this.#provider *)
  ledger : gmap string receipt;   (* what getTransactionReceipt answers *)
  clock : Z;
  timers : list (nat * Z);   (* pending setTimeout callbacks: timer id, due time *)
  next_timer : nat;   (* the id the next setTimeout returns *)
  suspended : list task;
  unhandled : list exn;   (* rejections of promises nobody holds *)
  uncaught : list exn;   (* exceptions that escaped a timer callback *)
  next_fn : nat;   (* the identity of the next closure *)
  trace : list observation
}.

Definition set_sub (f : TransactionSubscription -> TransactionSubscription) (w : world) : world :=
  {| sub := f (sub w); transport := transport w; ledger := ledger w; clock := clock w;
     timers := timers w; next_timer := next_timer w; suspended := suspended w;
     unhandled := unhandled w; uncaught := uncaught w; next_fn := next_fn w;
     trace := trace w |}.

Definition set_transport (f : Provider -> Provider) (w : world) : world :=
  {| sub := sub w; transport := f (transport w); ledger := ledger w; clock := clock w;
     timers := timers w; next_timer := next_timer w; suspended := suspended w;
     unhandled := unhandled w; uncaught := uncaught w; next_fn := next_fn w;
     trace := trace w |}.

Definition set_ledger (f : gmap string receipt -> gmap string receipt) (w : world) : world :=
  {| sub := sub w; transport := transport w; ledger := f (ledger w); clock := clock w;
     timers := timers w; next_timer := next_timer w; suspended := suspended w;
     unhandled := unhandled w; uncaught := uncaught w; next_fn := next_fn w;
     trace := trace w |}.

Definition set_clock (f : Z -> Z) (w : world) : world :=
  {| sub := sub w; transport := transport w; ledger := ledger w; clock := f (clock w);
     timers := timers w; next_timer := next_timer w; suspended := suspended w;
     unhandled := unhandled w; uncaught := uncaught w; next_fn := next_fn w;
     trace := trace w |}.

Definition set_timers (f : list (nat * Z) -> list (nat * Z)) (w : world) : world :=
  {| sub := sub w; transport := transport w; ledger := ledger w; clock := clock w;
     timers := f (timers w); next_timer := next_timer w; suspended := suspended w;
     unhandled := unhandled w; uncaught := uncaught w; next_fn := next_fn w;
     trace := trace w |}.

Definition set_next_timer (f : nat -> nat) (w : world) : world :=
  {| sub := sub w; transport := transport w; ledger := ledger w; clock := clock w;
     timers := timers w; next_timer := f (next_timer w); suspended := suspended w;
     unhandled := unhandled w; uncaught := uncaught w; next_fn := next_fn w;
     trace := trace w |}.

Definition set_suspended (f : list task -> list task) (w : world) : world :=
  {| sub := sub w; transport := transport w; ledger := ledger w; clock := clock w;
     timers := timers w; next_timer := next_timer w; suspended := f (suspended w);
     unhandled := unhandled w; uncaught := uncaught w; next_fn := next_fn w;
     trace := trace w |}.

Definition set_unhandled (f : list exn -> list exn) (w : world) : world :=
  {| sub := sub w; transport := transport w; ledger := ledger w; clock := clock w;
     timers := timers w; next_timer := next_timer w; suspended := suspended w;
     unhandled := f (unhandled w); uncaught := uncaught w; next_fn := next_fn w;
     trace := trace w |}.

Definition set_uncaught (f : list exn -> list exn) (w : world) : world :=
  {| sub := sub w; transport := transport w; ledger := ledger w; clock := clock w;
     timers := timers w; next_timer := next_timer w; suspended := suspended w;
     unhandled := unhandled w; uncaught := f (uncaught w); next_fn := next_fn w;
     trace := trace w |}.

Definition set_next_fn (f : nat -> nat) (w : world) : world :=
  {| sub := sub w; transport := transport w; ledger := ledger w; clock := clock w;
     timers := timers w; next_timer := next_timer w; suspended := suspended w;
     unhandled := unhandled w; uncaught := uncaught w; next_fn := f (next_fn w);
     trace := trace w |}.

Definition set_trace (f : list observation -> list observation) (w : world) : world :=
  {| sub := sub w; transport := transport w; ledger := ledger w; clock := clock w;
     timers := timers w; next_timer := next_timer w; suspended := suspended w;
     unhandled := unhandled w; uncaught := uncaught w; next_fn := next_fn w;
     trace := f (trace w) |}.

Definition set_tx (t : option tx_record) (s : TransactionSubscription) : TransactionSubscription :=
  {| txPromise := txPromise s; tx := t; timeout := timeout s;
     listeners := listeners s; errorListener := errorListener s |}.

Definition set_txPromise (p : promise tx_record) (s : TransactionSubscription)
  : TransactionSubscription :=
  {| txPromise := p; tx := tx s; timeout := timeout s;
     listeners := listeners s; errorListener := errorListener s |}.

Definition set_listeners (l : list listener) (s : TransactionSubscription)
  : TransactionSubscription :=
  {| txPromise := txPromise s; tx := tx s; timeout := timeout s;
     listeners := l; errorListener := errorListener s |}.

Definition set_errorListener (h : option callback) (s : TransactionSubscription)
  : TransactionSubscription :=
  {| txPromise := txPromise s; tx := tx s; timeout := timeout s;
     listeners := listeners s; errorListener := h |}.

Definition set_events (l : list (string * listener_function)) (p : Provider) : Provider :=
  {| pollingInterval := pollingInterval p; events := l |}.

(** The world in which a subscription just built by a write call lives. *)
Definition spawn (s : TransactionSubscription) (p : Provider)
    (ledger : gmap string receipt) (now : Z) : world :=
  {| sub := s; transport := p; ledger := ledger; clock := now; timers := [];
     next_timer := 0; suspended := []; unhandled := []; uncaught := []; next_fn := 0;
     trace := [] |}.

(** *** The provider's emitter *)

Definition same_listener (eventName : string) (fn : listener_function)
    (e : string * listener_function) : bool :=
  String.eqb e.1 eventName && Nat.eqb (fn_id e.2) (fn_id fn).

(** [provider.removeListener(eventName, listener)] drops the first match. *)
Fixpoint remove_first (eventName : string) (fn : listener_function)
    (l : list (string * listener_function)) : list (string * listener_function) :=
  match l with
  | [] => []
  | e :: l' => if same_listener eventName fn e then l' else e :: remove_first eventName fn l'
  end.

Definition provider_on (eventName : string) (fn : listener_function) (w : world) : world :=
  set_transport (fun p => set_events (events p ++ [(eventName, fn)]) p) w.

Definition provider_removeListener (eventName : string) (fn : listener_function) (w : world)
  : world :=
  set_transport (fun p => set_events (remove_first eventName fn (events p)) p) w.

(** [provider.getTransactionReceipt(h)], once answered; [None] is [null]. *)
Definition getTransactionReceipt (h : string) (w : world) : option receipt := ledger w !! h.

(** *** TransactionSubscription *)

(** [Array.prototype.pop] *)
Fixpoint pop {A : Type} (l : list A) : option (list A * A) :=
  match l with
  | [] => None
  | x :: l' => match pop l' with
               | None => Some ([], x)
               | Some (r, y) => Some (x :: r, y)
               end
  end.

(** A promise that the code drops: its rejection is nobody's to handle. *)
Definition floating {A : Type} (p : promise A) (w : world) : world :=
  match p with
  | Rejected e => set_unhandled (fun u => u ++ [e]) w
  | _ => w
  end.

Definition suspend (t : task) (w : world) : world := set_suspended (fun q => q ++ [t]) w.

Definition hasListener (w : world) : bool := Nat.ltb 0 (length (listeners (sub w))).

Definition removeListener (w : world) : world :=
  if hasListener w then
    match pop (listeners (sub w)) with
    | Some (rest, l) =>
        provider_removeListener (eventName l) (listenerFunction l)
          (set_sub (set_listeners rest) w)
    | None => w
    end
  else w.

Definition removeAllListeners (w : world) : world := removeListener w.
Definition off (w : world) : world := removeListener w.
Definition unsubscribe (w : world) : world := removeListener w.

Definition addErrorListener (callback : callback) (w : world) : world :=
  set_sub (set_errorListener (Some callback)) w.

(** [#emitErrorEvent(error)]: a throwing error listener throws through it. *)
Definition emitErrorEvent (error : exn) (w : world) : world * completion unit :=
  match errorListener (sub w) with
  | Some h =>
      let w' := set_trace (fun t => t ++ [ErrorListenerCalled error]) w in
      match h (Err error) with
      | CbReturned => (w', Normal tt)
      | CbThrew v => (w', Abrupt v)
      end
  | None => (w, Normal tt)
  end.

(** What a listener is called with: the provider passes a receipt for a
    transaction event and a block number for a block event; the block
    listener passes whatever its own receipt query returned. *)
Inductive emitted := ENull | EReceipt (r : receipt) | EBlockNumber (n : Z).

(** [error.message] in the [catch] clause; [None] when reading the property
    itself throws. *)
Definition message_of (error : exn) : option string :=
  match error with
  | Error m | TypeError m => Some m
  | ThrownPrimitive => Some "undefined"
  | ThrownNullish => None
  end.

(** [emitterFunction(receipt)], run to its end: the awaited callback either
    returns or fails. *)
Definition emitterFunction (callback : callback) (receipt : emitted) (w : world)
  : world * promise unit :=
  match receipt with
  | ENull => (w, Rejected (TypeError "Cannot destructure property 'confirmations' of null"))
  | _ =>
      let confirmations :=
        match receipt with EReceipt r => Some (confirmations r) | _ => None end in
      let message := {| data := {| confirmations_of := confirmations |} |} in
      let w1 := set_trace (fun t => t ++ [CallbackCalled message]) w in
      match callback (Msg message) with
      | CbReturned => (w1, Fulfilled tt)
      | CbThrew error =>
          match message_of error with
          | None => (w1, Rejected (TypeError "Cannot read property 'message' of null"))
          | Some m =>
              match emitErrorEvent (CallbackFailure m) w1 with
              | (w2, Normal _) => (w2, Fulfilled tt)
              | (w2, Abrupt e) => (w2, Rejected e)
              end
          end
      end
  end.

(** [#addListener(trigger, callback)] up to its first [await]. *)
Definition addListener (trigger : string) (callback : callback) (w : world)
  : world * promise unit :=
  if hasListener w then (w, Rejected AlreadyListening)
  else (suspend (AwaitTx callback) w, Pending).

Definition triggers : list string := ["confirmation"; "failed"].

(** [on(trigger, callback)]: an [async] function that never awaits; the
    promise of [#addListener] is dropped. *)
Definition on (trigger : string) (callback : js_value) (w : world)
  : world * completion (promise unit) :=
  async (
    if negb (existsb (String.eqb trigger) triggers) then (w, Abrupt InvalidTrigger)
    else
      match callback with
      | JsFunction f =>
          if String.eqb trigger "failed" then (addErrorListener f w, Normal tt)
          else
            let r := addListener trigger f w in
            (floating r.2 r.1, Normal tt)
      | _ => (w, Abrupt NotAFunction)
      end).

(** [setTimeout(() => { ... }, delay)]: the one callback the class ever
    schedules is [onTimeout] below; a timer is its id and its due time. *)
Definition setTimeout (delay : Z) (w : world) : world :=
  set_next_timer S (set_timers (fun ts => ts ++ [(next_timer w, clock w + delay)]) w).

(** The rest of [#addListener] after [await getTransactionReceipt(...)]
    answered [receipt]: push the listener, register the last listener with
    the provider, start the timer.  Its promise was dropped by [on]. *)
Definition finishAddListener (callback : callback) (receipt : option receipt) (w : world)
  : world :=
  let fn kind := {| fn_id := next_fn w; fn_kind := kind; fn_callback := callback |} in
  let w0 := set_next_fn S w in
  let alreadyMined := match receipt with Some _ => true | None => false end in
  let push l := set_sub (fun s => set_listeners (listeners s ++ [l]) s) w0 in
  let pushed : option world :=
    if alreadyMined then
      Some (push {| eventName := "block"; listenerFunction := fn BlockPoll |})
    else
      match tx (sub w0) with
      | Some t => Some (push {| eventName := hash t; listenerFunction := fn Emitter |})
      | None => None
      end in
  match pushed with
  | None =>
      floating (Rejected (A := unit) (TypeError "Cannot read property 'hash' of undefined"))
        w0
  | Some w1 =>
      match last (listeners (sub w1)) with
      | Some l =>
          let w2 := provider_on (eventName l) (listenerFunction l) w1 in
          setTimeout (timeout (sub w2)) w2
      | None => floating (Rejected (A := unit) (TypeError "Cannot destructure undefined")) w1
      end
  end.

(** The continuation of the [i]-th suspended function; [None] while what it
    awaits is not settled (or there is no such task). *)
Definition resume (i : nat) (w : world) : option world :=
  match suspended w !! i with
  | None => None
  | Some t =>
      let w0 := set_suspended (delete i) w in
      match t with
      | AwaitTx callback =>
          match txPromise (sub w0) with
          | Pending => None
          | Rejected e => Some (floating (Rejected (A := unit) e) w0)
          | Fulfilled t =>
              (* this.#tx = ...; then getTransactionReceipt(this.#tx.hash) is called *)
              Some (suspend (AwaitReceipt callback (hash t)) (set_sub (set_tx (Some t)) w0))
          end
      | AwaitReceipt callback h =>
          Some (finishAddListener callback (getTransactionReceipt h w0) w0)
      | AwaitPoll callback h =>
          let receipt := match getTransactionReceipt h w0 with
                         | Some r => EReceipt r
                         | None => ENull
                         end in
          let r := emitterFunction callback receipt w0 in
          Some (floating r.2 r.1)
      | WaitTx =>
          (* the promise of waitForMessage is its caller's: a rejection is theirs *)
          match txPromise (sub w0) with
          | Pending => None
          | Rejected e => Some w0
          | Fulfilled t => Some (suspend (WaitInclusion (hash t)) w0)
          end
      | WaitInclusion h =>
          (* provider.waitForTransaction(h), of ethers.js, is taken to answer once the
             ledger holds a receipt; what it registers on the provider meanwhile is
             not part of this state *)
          match getTransactionReceipt h w0 with
          | Some _ => Some w0
          | None => None
          end
      end
  end.

(** [waitForMessage()] up to its first [await]. *)
Definition waitForMessage (w : world) : world := suspend WaitTx w.

(** The provider calls a registered listener and ignores what it returns. *)
Definition invoke_listener (fn : listener_function) (payload : emitted) (w : world) : world :=
  match fn_kind fn with
  | Emitter =>
      let r := emitterFunction (fn_callback fn) payload w in
      floating r.2 r.1
  | BlockPoll =>
      match tx (sub w) with
      | Some t => suspend (AwaitPoll (fn_callback fn) (hash t)) w
      | None =>
          floating (Rejected (A := unit) (TypeError "Cannot read property 'hash' of undefined"))
            w
      end
  end.

(** [provider.emit(eventName, payload)]: the listeners registered under the
    key when the event fires, in registration order.  Keys are compared as
    they are written; a transaction hash is taken in the one spelling the
    provider reports it in. *)
Definition emit (eventName : string) (payload : emitted) (w : world) : world :=
  foldl (fun w e => if String.eqb e.1 eventName then invoke_listener e.2 payload w else w)
        w (events (transport w)).

(** The callback given to [setTimeout] in [#addListener]. *)
Definition onTimeout (w : world) : world :=
  let r := emitErrorEvent Timeout (removeListener w) in
  match r.2 with
  | Normal _ => r.1
  | Abrupt e => set_uncaught (fun u => u ++ [e]) r.1
  end.

(** *** Steps of the event loop *)

Inductive label :=
| CallOn (trigger : string) (callback : js_value)
| CallRemoveListener
| CallRemoveAllListeners
| CallOff
| CallUnsubscribe
| CallWaitForMessage
| TxSettles (r : completion tx_record)      (* the write's promise settles *)
| Mined (h : string) (r : receipt)          (* the ledger gains a receipt *)
| Emit (eventName : string) (payload : emitted)
| Resume (i : nat)
| Tick (dt : Z)
| FireTimer (id : nat).

Definition step (l : label) (w : world) : option world :=
  match l with
  | CallOn trigger callback => Some (on trigger callback w).1
  | CallRemoveListener => Some (removeListener w)
  | CallRemoveAllListeners => Some (removeAllListeners w)
  | CallOff => Some (off w)
  | CallUnsubscribe => Some (unsubscribe w)
  | CallWaitForMessage => Some (waitForMessage w)
  | TxSettles r =>
      match txPromise (sub w) with
      | Pending =>
          Some (set_sub (set_txPromise
                  (match r with Normal t => Fulfilled t | Abrupt e => Rejected e end)) w)
      | _ => None
      end
  | Mined h r => Some (set_ledger (fun m => <[h := r]> m) w)
  | Emit eventName payload => Some (emit eventName payload w)
  | Resume i => resume i w
  | Tick dt => if 0 <=? dt then Some (set_clock (fun c => c + dt) w) else None
  | FireTimer id =>
      match List.find (fun e => Nat.eqb e.1 id) (timers w) with
      | Some (_, due) =>
          if due <=? clock w
          then Some (onTimeout (set_timers (List.filter (fun e => negb (Nat.eqb e.1 id))) w))
          else None
      | None => None
      end
  end.

Fixpoint run (ls : list label) (w : world) : option world :=
  match ls with
  | [] => Some w
  | l :: ls' => match step l w with
                | Some w' => run ls' w'
                | None => None
                end
  end.

(** The multiplicity-one property of the listener sequence. *)
Definition at_most_one (w : world) : Prop := (length (listeners (sub w)) <= 1)%nat.

(** ** Predicates the properties are stated with *)

(** The containers a program can hold: built by the constructor, then
    rebound with [setWallet] and [removeWallet]. *)
Inductive built : Contract -> Prop :=
| built_new (address abi wallet : js_value) (c : Contract) :
    (new_Contract address abi wallet).2 = Normal c -> built c
| built_setWallet (c : Contract) (wallet : js_value) (c' : Contract) :
    built c -> (setWallet wallet c).2 = Normal c' -> built c'
| built_removeWallet (c c' : Contract) :
    built c -> (removeWallet c).2 = Normal c' -> built c'.

(** The closure [m] is the one the binder attaches for the descriptor entry
    [f] under the name [n]. *)
Definition bound_from (abi : list abi_entry) (n : string) (m : method) : Prop :=
  exists f, In f abi /\ is_function f = true /\ name f = n
            /\ m = (if isWrite f then WriteFunction f else ReadFunction f).

(** Construction fails with one of the specification's [InvalidArgument]
    errors. *)
Definition fails_with_InvalidArgument (address abi wallet : js_value) : Prop :=
  exists e, (new_Contract address abi wallet).2 = Abrupt e /\ is_InvalidArgument e = true.

(** The entry [f], alone in a descriptor, ends up bound as a read (write)
    method by the binder [add], whatever the instance held before. *)
Definition binds_read (add : list abi_entry -> gmap string method -> gmap string method)
    (f : abi_entry) : Prop :=
  forall this, add [f] this !! name f = Some (ReadFunction f).

Definition binds_write (add : list abi_entry -> gmap string method -> gmap string method)
    (f : abi_entry) : Prop :=
  forall this, add [f] this !! name f = Some (WriteFunction f).

(** A block listener waiting for its receipt query. *)
Definition is_poll (t : task) : Prop :=
  match t with AwaitPoll _ _ => True | _ => False end.

(** A suspended function that is not a registration under way. *)
Definition not_registering (t : task) : Prop :=
  match t with AwaitTx _ | AwaitReceipt _ _ => False | _ => True end.

(** [w'] differs from [w] at most by observations, dropped rejections and
    newly suspended block listeners. *)
Definition frame (w w' : world) : Prop :=
  sub w' = sub w /\ transport w' = transport w /\ ledger w' = ledger w
  /\ clock w' = clock w /\ timers w' = timers w /\ uncaught w' = uncaught w
  /\ next_fn w' = next_fn w /\ next_timer w' = next_timer w
  /\ (exists polls, suspended w' = suspended w ++ polls /\ Forall is_poll polls)
  /\ (exists obs, trace w' = trace w ++ obs)
  /\ (exists errs, unhandled w' = unhandled w ++ errs).

(** Timer ids are handed out once. *)
Definition timers_wf (w : world) : Prop :=
  NoDup (map fst (timers w)) /\ Forall (fun e => (e.1 < next_timer w)%nat) (timers w).

(** Each closure is registered with the provider once at most. *)
Definition events_wf (w : world) : Prop :=
  NoDup (map (fun e => fn_id e.2) (events (transport w)))
  /\ Forall (fun e => (fn_id e.2 < next_fn w)%nat) (events (transport w)).

(** [provider.listeners(eventName).includes(fn)] *)
Definition registered (eventName : string) (fn : listener_function) (w : world) : bool :=
  existsb (same_listener eventName fn) (events (transport w)).

(** No listener attached and no registration under way. *)
Definition idle (w : world) : Prop :=
  listeners (sub w) = [] /\ Forall not_registering (suspended w).

Definition not_confirmation (l : label) : Prop :=
  forall callback, l <> CallOn "confirmation" callback.

(** ** Sample inputs *)

Definition sample_address : js_value := JsString "0x88a5C2d9919e46F883EB62F7b8Dd9d0CC45bc290".
Definition sample_signer : js_value := JsObject (Some "Signer").
Definition plain_object : js_value := JsObject None.

Definition value_entry : abi_entry :=
  {| type := "function"; name := "value"; constant := Some true;
     stateMutability := Some "view" |}.
Definition setValue_entry : abi_entry :=
  {| type := "function"; name := "setValue"; constant := Some false;
     stateMutability := Some "nonpayable" |}.
Definition pure_entry : abi_entry :=
  {| type := "function"; name := "version"; constant := Some true;
     stateMutability := Some "pure" |}.
Definition sample_abi : js_value := JsArray [value_entry; setValue_entry].

(** The container the constructor builds from the sample descriptor. *)
Definition sample_contract (wallet : js_value) : Contract :=
  {| provider := getDefaultProvider;
     contract := {| address := "0x88a5C2d9919e46F883EB62F7b8Dd9d0CC45bc290";
                    interface_abi := [value_entry; setValue_entry];
                    signer := if truthy wallet then wallet else JsNull |};
     methods := addFunctionsToContract [value_entry; setValue_entry] own_fields |}.

(** ethers.js standing still: every call and every sent transaction is
    pending. *)
Definition pending_call : js_value -> string -> list js_value -> promise js_value :=
  fun _ _ _ => Pending.
Definition pending_send
  : js_value -> string -> list js_value -> completion (promise tx_record) :=
  fun _ _ _ => Normal Pending.

(** ethers.js for functions of one input, as [setValue]: a call without
    arguments is refused before anything is sent. *)
Definition checking_send
  : js_value -> string -> list js_value -> completion (promise tx_record) :=
  fun _ _ args =>
    match args with
    | [] => Abrupt (Error "incorrect number of arguments")
    | _ => Normal Pending
    end.

Definition sample_tx : tx_record :=
  {| hash := "0x9a3f1c2e5b7d4f6a8c0e1b3d5f7a9c2e4b6d8f0a1c3e5b7d9f2a4c6e8b0d1f3a"; nonce := 0 |}.

Definition returning : callback := fun _ => CbReturned.
Definition throwing_nullish : callback := fun _ => CbThrew ThrownNullish.

(** A subscription just returned by a write call whose transaction is
    already resolved, and one whose transaction is still pending. *)
Definition resolved_world : world :=
  spawn (new_TransactionSubscription (Fulfilled sample_tx)) getDefaultProvider ∅ 0.
Definition pending_world : world :=
  spawn (new_TransactionSubscription Pending) getDefaultProvider ∅ 0.

(** The same subscription when the ledger already holds the receipt. *)
Definition mined_world : world :=
  spawn (new_TransactionSubscription (Fulfilled sample_tx)) getDefaultProvider
        {[ hash sample_tx := {| confirmations := 3 |} ]} 0.

(** A registration suspended at its receipt query. *)
Definition awaiting_receipt_world : world :=
  suspend (AwaitReceipt returning (hash sample_tx))
    (set_sub (set_tx (Some sample_tx)) resolved_world).

(** One confirmation listener attached, keyed on the transaction hash. *)
Definition listening_world : world :=
  finishAddListener returning None (set_sub (set_tx (Some sample_tx)) resolved_world).

(** ** Event subscriptions: class [EventSubscription] and [Contract.subscribe] *)

Definition NotSubscribed (eventName : string) : exn :=
  Error (String.append "This subscription isn't subscribed on '"
           (String.append eventName "' event.")).

Section Subscribe.

(** ethers.js: whether [interface.events[eventName]] is defined on the
    ethers contract built from a descriptor. *)
Variable interface_events : list abi_entry -> string -> bool.

(** [subscribe(eventNames)]: [forEach] throws at the first name without an
    event. *)
Definition subscribe (eventNames : list string) (c : Contract)
  : completion EventSubscription :=
  match List.find (fun eventName =>
                     negb (interface_events (interface_abi (contract c)) eventName))
                  eventNames with
  | Some eventName => Abrupt (EventNotFound eventName)
  | None => Normal {| eventNames := eventNames |}
  end.

End Subscribe.

(** [EventSubscription.on(eventName, callback)]: not [async]; the callback is
    not looked at and nothing is registered. *)
Definition EventSubscription_on (eventName : string) (callback : js_value)
    (s : EventSubscription) : completion unit :=
  if negb (existsb (String.eqb eventName) (eventNames s))
  then Abrupt (NotSubscribed eventName)
  else Normal tt.

(** ** The earlier generation of the subscription: class [Subscription] *)

Module LegacySubscription.

(** ["Invalid subscription trigger, use: [\"confirmation\"]"] *)
Definition InvalidTrigger : exn :=
  Error (String.append "Invalid subscription trigger, use: ["
           (String "034"%char (String.append "confirmation" (String "034"%char "]")))).

Definition NotAFunction : exn := Error "Cannot subscribe without a function".

(** The closure [on] hands to the provider, with its identity. *)
Record listener_fn := { id : nat; wrapped : callback }.

Inductive task :=
| OnAwaitTx (callback : callback)   (* on at [await this.#txPromise] *)
| RemoveAwaitTx.                    (* removeAllListeners at [await this.#txPromise] *)

(** The subscription ([#txPromise]), the provider's table, and the runtime:
    suspended functions, rejections of dropped promises ([unhandled]) and of
    the promises [on] and [removeAllListeners] returned ([rejections]). *)
Record state := {
  txPromise : promise tx_record;
  table : list (string * listener_fn);
  suspended : list task;
  unhandled : list exn;
  rejections : list exn;
  trace : list observation;
  next_id : nat
}.

Definition set_txPromise (p : promise tx_record) (w : state) : state :=
  {| txPromise := p; table := table w; suspended := suspended w;
     unhandled := unhandled w; rejections := rejections w; trace := trace w;
     next_id := next_id w |}.

Definition set_table (l : list (string * listener_fn)) (w : state) : state :=
  {| txPromise := txPromise w; table := l; suspended := suspended w;
     unhandled := unhandled w; rejections := rejections w; trace := trace w;
     next_id := next_id w |}.

Definition set_suspended (q : list task) (w : state) : state :=
  {| txPromise := txPromise w; table := table w; suspended := q;
     unhandled := unhandled w; rejections := rejections w; trace := trace w;
     next_id := next_id w |}.

Definition set_unhandled (u : list exn) (w : state) : state :=
  {| txPromise := txPromise w; table := table w; suspended := suspended w;
     unhandled := u; rejections := rejections w; trace := trace w;
     next_id := next_id w |}.

Definition set_rejections (u : list exn) (w : state) : state :=
  {| txPromise := txPromise w; table := table w; suspended := suspended w;
     unhandled := unhandled w; rejections := u; trace := trace w;
     next_id := next_id w |}.

Definition set_trace (t : list observation) (w : state) : state :=
  {| txPromise := txPromise w; table := table w; suspended := suspended w;
     unhandled := unhandled w; rejections := rejections w; trace := t;
     next_id := next_id w |}.

Definition set_next_id (n : nat) (w : state) : state :=
  {| txPromise := txPromise w; table := table w; suspended := suspended w;
     unhandled := unhandled w; rejections := rejections w; trace := trace w;
     next_id := n |}.

(** [new Subscription(txPromise, provider)] around a provider without
    listeners. *)
Definition new_Subscription (txPromise : promise tx_record) : state :=
  {| txPromise := txPromise; table := []; suspended := []; unhandled := [];
     rejections := []; trace := []; next_id := 0 |}.

(** [on(trigger, callback)] up to [await this.#txPromise]. *)
Definition on (trigger : string) (callback : js_value) (w : state)
  : state * completion (promise unit) :=
  if String.eqb trigger "confirmation" then
    match callback with
    | JsFunction f => (set_suspended (suspended w ++ [OnAwaitTx f]) w, Normal Pending)
    | _ => (w, Normal (Rejected NotAFunction))
    end
  else (w, Normal (Rejected InvalidTrigger)).

(** [removeAllListeners()] up to [await this.#txPromise]. *)
Definition removeAllListeners (w : state) : state * completion (promise unit) :=
  (set_suspended (suspended w ++ [RemoveAwaitTx]) w, Normal Pending).

(** The listener given to [provider.on]: an error of the callback is thrown
    again, wrapped, out of the [async] listener. *)
Definition listener (callback : callback) (receipt : emitted) (w : state)
  : state * promise unit :=
  match receipt with
  | ENull => (w, Rejected (TypeError "Cannot read property 'confirmations' of null"))
  | _ =>
      let confirmations :=
        match receipt with EReceipt r => Some (confirmations r) | _ => None end in
      let message := {| data := {| confirmations_of := confirmations |} |} in
      let w1 := set_trace (trace w ++ [CallbackCalled message]) w in
      match callback (Msg message) with
      | CbReturned => (w1, Fulfilled tt)
      | CbThrew error =>
          match message_of error with
          | None => (w1, Rejected (TypeError "Cannot read property 'message' of null"))
          | Some m => (w1, Rejected (CallbackFailure m))
          end
      end
  end.

(** A promise that is dropped. *)
Definition floating {A : Type} (p : promise A) (w : state) : state :=
  match p with
  | Rejected e => set_unhandled (unhandled w ++ [e]) w
  | _ => w
  end.

(** The continuation of the [i]-th suspended function. *)
Definition resume (i : nat) (w : state) : option state :=
  match suspended w !! i with
  | None => None
  | Some t =>
      let w0 := set_suspended (delete i (suspended w)) w in
      match txPromise w0 with
      | Pending => None
      | Rejected e => Some (set_rejections (rejections w0 ++ [e]) w0)
      | Fulfilled tx =>
          match t with
          | OnAwaitTx callback =>
              (* this.#provider.on(tx.hash, async receipt => ...) *)
              Some (set_next_id (S (next_id w0))
                      (set_table
                         (table w0 ++ [(hash tx, {| id := next_id w0; wrapped := callback |})])
                         w0))
          | RemoveAwaitTx =>
              (* this.#provider.removeAllListeners(tx.hash) *)
              Some (set_table
                      (List.filter (fun e => negb (String.eqb e.1 (hash tx))) (table w0)) w0)
          end
      end
  end.

(** [provider.emit(eventName, payload)] *)
Definition emit (eventName : string) (payload : emitted) (w : state) : state :=
  foldl (fun w e =>
           if String.eqb e.1 eventName
           then let r := listener (wrapped e.2) payload w in floating r.2 r.1
           else w)
        w (table w).

Inductive label :=
| CallOn (trigger : string) (callback : js_value)
| CallRemoveAllListeners
| TxSettles (r : completion tx_record)
| Emit (eventName : string) (payload : emitted)
| Resume (i : nat).

Definition step (l : label) (w : state) : option state :=
  match l with
  | CallOn trigger callback => Some (on trigger callback w).1
  | CallRemoveAllListeners => Some (removeAllListeners w).1
  | TxSettles r =>
      match txPromise w with
      | Pending =>
          Some (set_txPromise
                  (match r with Normal t => Fulfilled t | Abrupt e => Rejected e end) w)
      | _ => None
      end
  | Emit eventName payload => Some (emit eventName payload w)
  | Resume i => resume i w
  end.

Fixpoint run (ls : list label) (w : state) : option state :=
  match ls with
  | [] => Some w
  | l :: ls' => match step l w with
                | Some w' => run ls' w'
                | None => None
                end
  end.

End LegacySubscription.

(** ** Predicates of the further properties *)

(** What [#addFunctionsToContract] stores for an entry. *)
Definition closure_of (f : abi_entry) : method :=
  if isWrite f then WriteFunction f else ReadFunction f.

(** The last function entry of a descriptor with a given name. *)
Definition last_function (abi : list abi_entry) (n : string) : option abi_entry :=
  last (List.filter (fun f => is_function f && String.eqb (name f) n) abi).


(** The characters of the class [[0-9A-Fa-f]]. *)
Definition hex_digits : list ascii := list_ascii_of_string "0123456789ABCDEFabcdef".

(** The hex letters [a]..[f] in upper case. *)
Definition upcase (c : ascii) : ascii :=
  let n := nat_of_ascii c in
  if Nat.leb 97 n && Nat.leb n 102 then ascii_of_nat (n - 32) else c.

Definition upcase_digits (s : string) : string :=
  string_of_list_ascii (map upcase (list_ascii_of_string s)).

(** The worlds a subscription returned by a write call can be in: what a
    run of the event loop leads to from the world it is spawned in, around
    a provider that holds no listener yet and serves this subscription
    alone. *)
Definition reachable (w : world) : Prop :=
  exists txPromise p ledger now ls,
    events p = []
    /\ run ls (spawn (new_TransactionSubscription txPromise) p ledger now) = Some w.

(** The provider's view of an attached listener. *)
Definition entry (l : listener) : string * listener_function :=
  (eventName l, listenerFunction l).

(** The two shapes a listener is pushed in, for the transaction [t]. *)
Definition keyed_on (t : tx_record) (l : listener) : Prop :=
  (eventName l = "block" /\ fn_kind (listenerFunction l) = BlockPoll)
  \/ (eventName l = hash t /\ fn_kind (listenerFunction l) = Emitter).

Definition is_CallbackCalled (o : observation) : Prop :=
  match o with CallbackCalled _ => True | _ => False end.

(** A receipt query under way asks for the transaction [t]. *)
Definition queries (t : tx_record) (tk : task) : Prop :=
  match tk with
  | AwaitReceipt _ h | AwaitPoll _ h => h = hash t
  | _ => True
  end.

Definition no_query (tk : task) : Prop :=
  match tk with
  | AwaitReceipt _ _ | AwaitPoll _ _ => False
  | _ => True
  end.

(** What the class keeps true of a subscription and its provider. *)
Definition consistent (w : world) : Prop :=
  events (transport w) = map entry (listeners (sub w))
  /\ events_wf w
  /\ match tx (sub w) with
     | Some t =>
         txPromise (sub w) = Fulfilled t
         /\ Forall (keyed_on t) (listeners (sub w))
         /\ Forall (queries t) (suspended w)
     | None =>
         listeners (sub w) = [] /\ timers w = []
         /\ Forall no_query (suspended w)
         /\ Forall (fun o => ~ is_CallbackCalled o) (trace w)
     end.

(** A call of [on("failed", f)] with a function. *)
Definition sets_failure_handler (l : label) : Prop :=
  exists f, l = CallOn "failed" (JsFunction f).

(** A descriptor with two overloads of one function and an event. *)
Definition transfer_view_entry : abi_entry :=
  {| type := "function"; name := "transfer"; constant := Some true;
     stateMutability := Some "view" |}.
Definition Transfer_event_entry : abi_entry :=
  {| type := "event"; name := "Transfer"; constant := None; stateMutability := None |}.
Definition transfer_entry : abi_entry :=
  {| type := "function"; name := "transfer"; constant := Some false;
     stateMutability := Some "nonpayable" |}.
Definition overloaded_abi : list abi_entry :=
  [transfer_view_entry; Transfer_event_entry; transfer_entry].

Definition overloaded_contract : Contract :=
  {| provider := getDefaultProvider;
     contract := {| address := "0x88a5C2d9919e46F883EB62F7b8Dd9d0CC45bc290";
                    interface_abi := overloaded_abi; signer := JsNull |};
     methods := addFunctionsToContract overloaded_abi own_fields |}.

(** A descriptor with functions named as two of the class's own fields. *)
Definition getAddress_entry : abi_entry :=
  {| type := "function"; name := "getAddress"; constant := Some true;
     stateMutability := Some "view" |}.
Definition setWallet_entry : abi_entry :=
  {| type := "function"; name := "setWallet"; constant := Some false;
     stateMutability := Some "nonpayable" |}.
Definition shadowing_abi : list abi_entry := [getAddress_entry; setWallet_entry].

Definition shadowing_contract : Contract :=
  {| provider := getDefaultProvider;
     contract := {| address := "0x88a5C2d9919e46F883EB62F7b8Dd9d0CC45bc290";
                    interface_abi := shadowing_abi; signer := JsNull |};
     methods := addFunctionsToContract shadowing_abi own_fields |}.

(** ethers.js on event names, as far as the samples go: an event entry is
    found under its name. *)
Definition events_by_name (abi : list abi_entry) (n : string) : bool :=
  existsb (fun e => String.eqb (type e) "event" && String.eqb (name e) n) abi.

(** A subscription whose write was rejected by the transport. *)
Definition rejected_world : world :=
  spawn (new_TransactionSubscription (Rejected (Error "insufficient funds")))
        getDefaultProvider ∅ 0.

(** A confirmation callback that fails with an error. *)
Definition throwing : callback := fun _ => CbThrew (Error "boom").

(** What becomes of the promise of the earlier generation's listener, by
    the outcome of the callback: the wrapped error is thrown out of the
    [async] listener. *)
Definition legacy_rejection (o : cb_outcome) : list exn :=
  match o with
  | CbReturned => []
  | CbThrew error =>
      [match message_of error with
       | Some m => CallbackFailure m
       | None => TypeError "Cannot read property 'message' of null"
       end]
  end.

(** The confirmation message built from a receipt. *)
Definition message_for (r : receipt) : message :=
  {| data := {| confirmations_of := Some (confirmations r) |} |}.

(** An earlier-generation subscription just returned by a write call whose
    transaction is resolved, and the same after two registrations. *)
Definition legacy_resolved : LegacySubscription.state :=
  LegacySubscription.new_Subscription (Fulfilled sample_tx).

Definition legacy_listening : LegacySubscription.state :=
  {| LegacySubscription.txPromise := Fulfilled sample_tx;
     LegacySubscription.table :=
       [(hash sample_tx, {| LegacySubscription.id := 0;
                            LegacySubscription.wrapped := throwing |});
        (hash sample_tx, {| LegacySubscription.id := 1;
                            LegacySubscription.wrapped := returning |})];
     LegacySubscription.suspended := [];
     LegacySubscription.unhandled := [];
     LegacySubscription.rejections := [];
     LegacySubscription.trace := [];
     LegacySubscription.next_id := 2 |}.

(** One block listener attached: the registration found the transaction
    mined already. *)
Definition block_listening_world : world :=
  finishAddListener returning (Some {| confirmations := 3 |})
    (set_sub (set_tx (Some sample_tx)) mined_world).

(** One listener attached whose callback fails, and a failure handler
    that fails too. *)
Definition failing_world : world :=
  set_sub (set_errorListener (Some throwing))
    (finishAddListener throwing None (set_sub (set_tx (Some sample_tx)) resolved_world)).

(** The worlds a subscription returned by a write call can be in, around
    a provider in any state: other subscriptions of the same container may
    have listeners on it. *)
Definition spawned (w : world) : Prop :=
  exists txPromise p ledger now ls,
    run ls (spawn (new_TransactionSubscription txPromise) p ledger now) = Some w.

(** [#tx] is the transaction the promise resolved to, and the receipt
    queries under way ask for it. *)
Definition tx_known (w : world) : Prop :=
  match tx (sub w) with
  | Some t => txPromise (sub w) = Fulfilled t /\ Forall (queries t) (suspended w)
  | None => Forall no_query (suspended w)
  end.

(** * Proof tools *)

(** From [Some a = Some w'] to [w' := a], without unfolding [a]. *)
Ltac some_inj H :=
  match type of H with
  | Some ?a = Some ?b =>
      let E := fresh "E" in
      assert (E : a = b) by (injection H as E; exact E);
      clear H; subst b
  end.

(** * Properties of the binder *)

Lemma isAddress_string address :
  Utils.isAddress address = true -> exists s, address = JsString s.
Proof. destruct address; simpl; try discriminate. eauto. Qed.

Lemma isABI_array abi : Utils.isABI abi = true -> exists items, abi = JsArray items.
Proof.
  unfold Utils.isABI. destruct abi; simpl; rewrite ?andb_false_r; try discriminate. eauto.
Qed.


(** What [#initializeContract] does, by cases on its three checks. *)
Lemma initializeContract_cases address abi wallet prov this :
  let r := initializeContract address abi wallet prov this in
  (Utils.isAddress address = false \/ Utils.isABI abi = false) /\
    r = ([], Abrupt InvalidAddressOrABI)
  \/ (Utils.isAddress address = true /\ Utils.isABI abi = true /\
      truthy wallet = true /\ Utils.isEthersJsSigner wallet = false) /\
    r = ([], Abrupt InvalidWallet)
  \/ (exists a items,
        address = JsString a /\ abi = JsArray items /\
        Utils.isAddress address = true /\
        (truthy wallet = true -> Utils.isEthersJsSigner wallet = true) /\
        r = ((if truthy wallet then [WalletConnect] else []) ++ [CreateEthersContract],
             Normal {| provider := prov;
                       contract := {| address := a; interface_abi := items;
                                      signer := if truthy wallet then wallet else JsNull |};
                       methods := addFunctionsToContract items this |})).
Proof.
  unfold initializeContract.
  destruct (Utils.isAddress address) eqn:Ha; simpl; [| left; auto].
  destruct (Utils.isABI abi) eqn:Hb; simpl; [| left; auto].
  destruct (truthy wallet) eqn:Ht; simpl.
  - destruct (Utils.isEthersJsSigner wallet) eqn:Hs; simpl.
    + right; right.
      destruct (isAddress_string _ Ha) as [a ->], (isABI_array _ Hb) as [items ->].
      exists a, items. auto.
    + right; left. auto.
  - right; right.
    destruct (isAddress_string _ Ha) as [a ->], (isABI_array _ Hb) as [items ->].
    exists a, items. repeat split; auto. discriminate.
Qed.

(** The last function entry of a descriptor decides what is stored under
    its name. *)
Lemma addFunctionsToContract_last abi f this :
  is_function f = true ->
  addFunctionsToContract (abi ++ [f]) this !! name f
  = Some (if isWrite f then WriteFunction f else ReadFunction f).
Proof.
  intros Hf. unfold addFunctionsToContract.
  rewrite List.filter_app. simpl. rewrite Hf. rewrite foldl_app. simpl.
  unfold attachWriteFunction, attachReadFunction.
  destruct (isWrite f); apply lookup_insert_eq.
Qed.

Lemma Legacy_addFunctionsToContract_last abi f this :
  is_function f = true ->
  Legacy.addFunctionsToContract (abi ++ [f]) this !! name f
  = Some (if Legacy.isWrite f then WriteFunction f else ReadFunction f).
Proof.
  intros Hf. unfold Legacy.addFunctionsToContract.
  rewrite List.filter_app. simpl. rewrite Hf. rewrite foldl_app. simpl.
  unfold attachWriteFunction, attachReadFunction.
  destruct (Legacy.isWrite f); apply lookup_insert_eq.
Qed.

Lemma isWrite_view f : isWrite f = false <-> stateMutability f = Some "view".
Proof.
  unfold isWrite. destruct (stateMutability f) as [m|]; [| split; discriminate].
  rewrite negb_false_iff, String.eqb_eq. split; congruence.
Qed.

Lemma Legacy_isWrite_constant f : Legacy.isWrite f = false <-> constant f = Some true.
Proof.
  unfold Legacy.isWrite. destruct (constant f) as [[]|]; simpl; split; congruence.
Qed.

Lemma bound_read_iff (b : bool) (f : abi_entry) :
  Some (if b then WriteFunction f else ReadFunction f) = Some (ReadFunction f) <-> b = false.
Proof. destruct b; split; congruence. Qed.

Lemma bound_write_iff (b : bool) (f : abi_entry) :
  Some (if b then WriteFunction f else ReadFunction f) = Some (WriteFunction f) <-> b = true.
Proof. destruct b; split; congruence. Qed.

(** C8, as stated, fails: with a well-formed address and descriptor the
    constructor still fails with [InvalidArgument] when the wallet is an
    object that is not a signer. *)
Lemma new_Contract_invalid_wallet_counterexample :
  ~ (fails_with_InvalidArgument sample_address sample_abi plain_object
     <-> (Utils.isAddress sample_address = false \/ Utils.isABI sample_abi = false)).
Proof.
  intros [H _].
  assert (Hf : fails_with_InvalidArgument sample_address sample_abi plain_object).
  { exists InvalidWallet. split; reflexivity. }
  destruct (H Hf) as [Hx | Hx]; vm_compute in Hx; discriminate.
Qed.

(** C8 (amended): constructing a [Contract] fails with [InvalidArgument]
    exactly when the address fails [isAddress], or the descriptor fails
    [isABI], or a truthy wallet fails [isEthersJsSigner]; when it fails, the
    provider object has been created and nothing else was done: no
    interaction with the transport. *)
Theorem new_Contract_InvalidArgument (address abi wallet : js_value) :
  (fails_with_InvalidArgument address abi wallet
   <-> (Utils.isAddress address = false \/ Utils.isABI abi = false
        \/ (truthy wallet = true /\ Utils.isEthersJsSigner wallet = false)))
  /\ (forall e, (new_Contract address abi wallet).2 = Abrupt e ->
        is_InvalidArgument e = true
        /\ (new_Contract address abi wallet).1 = [CreateProvider]
        /\ List.filter is_interaction (new_Contract address abi wallet).1 = []).
Proof.
  unfold fails_with_InvalidArgument, new_Contract. simpl.
  destruct (initializeContract_cases address abi wallet getDefaultProvider own_fields)
    as [[Hc ->] | [[(Ha & Hb & Ht & Hs) ->] | (a & items & -> & -> & Ha & Hs & ->)]]; simpl.
  - split.
    + split; [intros _; tauto | intros _; exists InvalidAddressOrABI; auto].
    + intros e [= <-]. auto.
  - split.
    + split; [intros _; tauto | intros _; exists InvalidWallet; auto].
    + intros e [= <-]. auto.
  - split; [| intros e; discriminate].
    split; [intros (e & He & _); discriminate |].
    intros [Hx | [Hx | [Ht Hx]]].
    + simpl in Ha. congruence.
    + discriminate.
    + rewrite (Hs Ht) in Hx. discriminate.
Qed.

(** The amended C8 at three inputs: a malformed address, a wallet that is
    not a signer, and a well-formed triple. *)
Lemma new_Contract_InvalidArgument_witness :
  fails_with_InvalidArgument (JsString "not-hex") sample_abi JsUndefined
  /\ fails_with_InvalidArgument sample_address sample_abi plain_object
  /\ ~ fails_with_InvalidArgument sample_address sample_abi sample_signer.
Proof.
  split; [| split].
  - apply (new_Contract_InvalidArgument (JsString "not-hex") sample_abi JsUndefined).
    left. reflexivity.
  - apply (new_Contract_InvalidArgument sample_address sample_abi plain_object).
    right; right. split; reflexivity.
  - intros H.
    apply (new_Contract_InvalidArgument sample_address sample_abi sample_signer) in H.
    destruct H as [H | [H | [_ H]]]; vm_compute in H; discriminate.
Defined.

Lemma addFunctionsToContract_single f this :
  is_function f = true ->
  addFunctionsToContract [f] this !! name f
  = Some (if isWrite f then WriteFunction f else ReadFunction f).
Proof. exact (addFunctionsToContract_last [] f this). Qed.

Lemma Legacy_addFunctionsToContract_single f this :
  is_function f = true ->
  Legacy.addFunctionsToContract [f] this !! name f
  = Some (if Legacy.isWrite f then WriteFunction f else ReadFunction f).
Proof. exact (Legacy_addFunctionsToContract_last [] f this). Qed.

Lemma binds_read_later f :
  is_function f = true -> (binds_read addFunctionsToContract f <-> isWrite f = false).
Proof.
  intros Hf. unfold binds_read. split.
  - intros H. specialize (H ∅). rewrite (addFunctionsToContract_single f ∅ Hf) in H.
    apply bound_read_iff in H. exact H.
  - intros H this. rewrite (addFunctionsToContract_single f this Hf).
    apply bound_read_iff. exact H.
Qed.

Lemma binds_write_later f :
  is_function f = true -> (binds_write addFunctionsToContract f <-> isWrite f = true).
Proof.
  intros Hf. unfold binds_write. split.
  - intros H. specialize (H ∅). rewrite (addFunctionsToContract_single f ∅ Hf) in H.
    apply bound_write_iff in H. exact H.
  - intros H this. rewrite (addFunctionsToContract_single f this Hf).
    apply bound_write_iff. exact H.
Qed.

Lemma binds_read_earlier f :
  is_function f = true ->
  (binds_read Legacy.addFunctionsToContract f <-> Legacy.isWrite f = false).
Proof.
  intros Hf. unfold binds_read. split.
  - intros H. specialize (H ∅).
    rewrite (Legacy_addFunctionsToContract_single f ∅ Hf) in H.
    apply bound_read_iff in H. exact H.
  - intros H this. rewrite (Legacy_addFunctionsToContract_single f this Hf).
    apply bound_read_iff. exact H.
Qed.

Lemma binds_write_earlier f :
  is_function f = true ->
  (binds_write Legacy.addFunctionsToContract f <-> Legacy.isWrite f = true).
Proof.
  intros Hf. unfold binds_write. split.
  - intros H. specialize (H ∅).
    rewrite (Legacy_addFunctionsToContract_single f ∅ Hf) in H.
    apply bound_write_iff in H. exact H.
  - intros H this. rewrite (Legacy_addFunctionsToContract_single f this Hf).
    apply bound_write_iff. exact H.
Qed.

(** C9, as stated, fails: a [pure] function carries [constant: true], so
    the earlier generation binds it as a read method and the later one as a
    write method. *)
Lemma generations_differ_on_pure_counterexample :
  is_function pure_entry = true
  /\ ~ (binds_read addFunctionsToContract pure_entry
        <-> binds_read Legacy.addFunctionsToContract pure_entry).
Proof.
  split; [reflexivity |].
  intros [_ H].
  assert (Hl : binds_read Legacy.addFunctionsToContract pure_entry).
  { apply binds_read_earlier; reflexivity. }
  apply H in Hl. apply binds_read_later in Hl; [discriminate | reflexivity].
Qed.

(** C9 (amended): for every entry of kind function, the later generation
    binds it as a read method exactly when [stateMutability] is ["view"] and
    as a write method otherwise; the earlier generation binds it as a read
    method exactly when [constant] is [true] and as a write method
    otherwise; the two agree on the entry exactly when [constant] is [true]
    iff [stateMutability] is ["view"].  On an entry whose [constant] is
    [true] exactly when [stateMutability] is ["view"] or ["pure"], they
    agree exactly when the entry is not ["pure"]. *)
Theorem generations_classification (f : abi_entry) :
  is_function f = true ->
  (binds_read addFunctionsToContract f <-> stateMutability f = Some "view")
  /\ (binds_write addFunctionsToContract f <-> stateMutability f <> Some "view")
  /\ (binds_read Legacy.addFunctionsToContract f <-> constant f = Some true)
  /\ (binds_write Legacy.addFunctionsToContract f <-> constant f <> Some true)
  /\ ((binds_read addFunctionsToContract f <-> binds_read Legacy.addFunctionsToContract f)
      <-> (constant f = Some true <-> stateMutability f = Some "view"))
  /\ ((constant f = Some true
       <-> (stateMutability f = Some "view" \/ stateMutability f = Some "pure")) ->
      ((binds_read addFunctionsToContract f <-> binds_read Legacy.addFunctionsToContract f)
       <-> stateMutability f <> Some "pure")).
Proof.
  intros Hf.
  rewrite (binds_read_later f Hf), (binds_write_later f Hf),
    (binds_read_earlier f Hf), (binds_write_earlier f Hf).
  pose proof (isWrite_view f) as Hn. pose proof (Legacy_isWrite_constant f) as Ho.
  assert (Hvp : stateMutability f = Some "view" -> stateMutability f = Some "pure" -> False)
    by congruence.
  destruct (isWrite f), (Legacy.isWrite f);
    repeat split; try (intuition congruence); intros; intuition congruence.
Qed.

(** The amended C9 on a [view] entry, where the generations agree, and on
    a [payable] entry as the compiler emits it. *)
Lemma generations_classification_witness :
  binds_read addFunctionsToContract value_entry
  /\ binds_read Legacy.addFunctionsToContract value_entry
  /\ (binds_read addFunctionsToContract setValue_entry
      <-> binds_read Legacy.addFunctionsToContract setValue_entry).
Proof.
  destruct (generations_classification value_entry eq_refl) as (Hn & _ & Ho & _).
  destruct (generations_classification setValue_entry eq_refl) as (_ & _ & _ & _ & _ & Hc).
  split; [apply Hn; reflexivity |]. split; [apply Ho; reflexivity |].
  apply Hc; [| discriminate].
  split; [discriminate | intros [H | H]; discriminate H].
Defined.

(** * Properties of bound methods *)

(** Every dynamic property comes from a function entry of the descriptor
    and carries the closure its mutability selects. *)
Lemma addFunctionsToContract_lookup abi this n m :
  addFunctionsToContract abi this !! n = Some m ->
  this !! n = Some m \/ bound_from abi n m.
Proof.
  unfold addFunctionsToContract, bound_from. revert this.
  induction abi as [| e abi IH]; intros this; cbn; [auto |].
  assert (Hstep : forall this',
    foldl (fun this f => if isWrite f then attachWriteFunction f this
                         else attachReadFunction f this) this'
          (List.filter is_function abi) !! n = Some m ->
    this' !! n = Some m
    \/ exists f, (e = f \/ In f abi) /\ is_function f = true /\ name f = n
                 /\ m = (if isWrite f then WriteFunction f else ReadFunction f)).
  { intros this' H. destruct (IH this' H) as [H0 | (f & Hin & Hf & Hn & Hm)]; [auto |].
    right. exists f. auto. }
  destruct (is_function e) eqn:He; [| apply Hstep].
  cbn. intros H. destruct (Hstep _ H) as [H0 | H0]; [| auto].
  assert (Hins : <[name e := if isWrite e then WriteFunction e else ReadFunction e]> this
                 !! n = Some m).
  { unfold attachWriteFunction, attachReadFunction in H0. destruct (isWrite e); exact H0. }
  destruct (decide (name e = n)) as [Heq | Hne].
  - subst n. rewrite lookup_insert_eq in Hins. injection Hins as <-.
    right. exists e. auto.
  - rewrite lookup_insert_ne in Hins by exact Hne. auto.
Qed.

(** The class's fields hold the class's own closures. *)
Lemma own_fields_lookup n m : own_fields !! n = Some m -> exists k, m = OwnField k.
Proof.
  unfold own_fields. intros H.
  repeat (apply lookup_insert_Some in H; destruct H as [[_ <-] | [_ H]]; [eauto |]).
  rewrite lookup_empty in H. discriminate.
Qed.

(** The ethers contract of a built container holds a signer or nothing,
    and its properties are the class's fields and what comes from its
    descriptor. *)
Lemma built_properties c :
  built c ->
  (signer (contract c) = JsNull \/ Utils.isEthersJsSigner (signer (contract c)) = true)
  /\ forall n m, methods c !! n = Some m ->
       own_fields !! n = Some m \/ bound_from (interface_abi (contract c)) n m.
Proof.
  assert (Hinit : forall a items wallet prov this c',
    (forall n m, this !! n = Some m -> own_fields !! n = Some m \/ bound_from items n m) ->
    (initializeContract (JsString a) (JsArray items) wallet prov this).2 = Normal c' ->
    (signer (contract c') = JsNull \/ Utils.isEthersJsSigner (signer (contract c')) = true)
    /\ forall n m, methods c' !! n = Some m ->
         own_fields !! n = Some m \/ bound_from (interface_abi (contract c')) n m).
  { intros a items wallet prov this c' Hthis.
    destruct (initializeContract_cases (JsString a) (JsArray items) wallet prov this)
      as [[_ ->] | [[_ ->] | (a' & items' & [= <-] & [= <-] & _ & Hs & ->)]];
      cbn; try discriminate.
    intros [= <-]. cbn. split.
    - destruct (truthy wallet); [right; auto | left; reflexivity].
    - intros n m H. destruct (addFunctionsToContract_lookup _ _ _ _ H); auto. }
  induction 1 as [address abi wallet c Hc | c wallet c' Hb [IHs IHm] Hc
                  | c c' Hb [IHs IHm] Hc].
  - unfold new_Contract in Hc. cbn in Hc.
    destruct (initializeContract_cases address abi wallet getDefaultProvider own_fields)
      as [[_ Hx] | [[_ Hx] | (a & items & -> & -> & _)]];
      try (cbn zeta in Hx; rewrite Hx in Hc; discriminate).
    apply (Hinit a items wallet getDefaultProvider own_fields c); [| exact Hc].
    intros n m H. left. exact H.
  - unfold setWallet in Hc.
    destruct (negb (Utils.isEthersJsSigner wallet)); [discriminate |].
    destruct (Hinit _ _ _ _ _ _ IHm Hc) as [Hs Hm]. split; [exact Hs |].
    exact Hm.
  - unfold removeWallet in Hc.
    destruct (Hinit _ _ _ _ _ _ IHm Hc) as [Hs Hm]. split; [exact Hs |].
    exact Hm.
Qed.

(** The closures of a built container come from its descriptor. *)
Lemma built_invariant c :
  built c ->
  (signer (contract c) = JsNull \/ Utils.isEthersJsSigner (signer (contract c)) = true)
  /\ (forall n f, methods c !! n = Some (ReadFunction f) ->
        bound_from (interface_abi (contract c)) n (ReadFunction f))
  /\ (forall n f, methods c !! n = Some (WriteFunction f) ->
        bound_from (interface_abi (contract c)) n (WriteFunction f)).
Proof.
  intros Hb. destruct (built_properties c Hb) as [Hs Hm].
  split; [exact Hs |].
  split; intros n f H; (destruct (Hm n _ H) as [Ho | Hbf]; [| exact Hbf]);
    destruct (own_fields_lookup _ _ Ho) as [k Hk]; discriminate.
Qed.

Lemma bound_from_read abi n f :
  bound_from abi n (ReadFunction f) ->
  In f abi /\ is_function f = true /\ name f = n /\ stateMutability f = Some "view".
Proof.
  intros (g & Hin & Hf & Hn & Hm).
  destruct (isWrite g) eqn:Hw; [discriminate |]. injection Hm as ->.
  apply isWrite_view in Hw. auto.
Qed.

Lemma bound_from_write abi n f :
  bound_from abi n (WriteFunction f) ->
  In f abi /\ is_function f = true /\ name f = n /\ stateMutability f <> Some "view".
Proof.
  intros (g & Hin & Hf & Hn & Hm).
  destruct (isWrite g) eqn:Hw; [| discriminate]. injection Hm as ->.
  repeat split; auto. intros Hv. apply isWrite_view in Hv. congruence.
Qed.

(** The signer the ethers contract of a freshly constructed container
    holds. *)
Lemma new_Contract_signer address abi wallet c :
  (new_Contract address abi wallet).2 = Normal c ->
  signer (contract c) = (if truthy wallet then wallet else JsNull)
  /\ (truthy wallet = true -> Utils.isEthersJsSigner wallet = true).
Proof.
  unfold new_Contract. simpl.
  destruct (initializeContract_cases address abi wallet getDefaultProvider own_fields)
    as [[Hc ->] | [[_ ->] | (a & items & -> & -> & Ha & Hs & ->)]]; simpl;
    try discriminate.
  intros [= <-]. simpl. auto.
Qed.

(** Detaching the wallet leaves the container without signer. *)
Lemma removeWallet_signer c c' :
  (removeWallet c).2 = Normal c' -> signer (contract c') = JsNull.
Proof.
  unfold removeWallet.
  destruct (initializeContract_cases (JsString (address (contract c)))
              (JsArray (interface_abi (contract c))) JsUndefined (provider c) (methods c))
    as [[_ ->] | [[_ ->] | (a & items & _ & _ & _ & _ & ->)]]; cbn; try discriminate.
  intros [= <-]. reflexivity.
Qed.

Section BoundMethods.

Variable ethers_call : js_value -> string -> list js_value -> promise js_value.
Variable ethers_send : js_value -> string -> list js_value -> completion (promise tx_record).

(** C3: on every container, a method bound as a read method comes from a
    function entry of the descriptor whose mutability is ["view"]; invoking
    it returns the promise of the decoded value of the ethers call made
    with whatever the ethers contract holds, signer or bare provider; it
    never fails with [MissingSigner] and never produces a subscription. *)
Theorem read_method_returns_value (c : Contract) (n : string) (f : abi_entry)
    (args : list js_value) :
  built c ->
  methods c !! n = Some (ReadFunction f) ->
  (In f (interface_abi (contract c)) /\ is_function f = true /\ name f = n
   /\ stateMutability f = Some "view")
  /\ invoke ethers_call ethers_send c n args
     = Normal (RValue (ethers_call (signer (contract c)) (name f) args))
  /\ invoke ethers_call ethers_send c n args <> Abrupt MissingSigner
  /\ (forall s, invoke ethers_call ethers_send c n args <> Normal (RSubscription s))
  /\ (signer (contract c) = JsNull ->
      invoke ethers_call ethers_send c n args
      = Normal (RValue (ethers_call JsNull (name f) args))).
Proof.
  intros Hb Hm. destruct (built_invariant c Hb) as (_ & Hbound & _).
  split; [apply bound_from_read, Hbound, Hm |].
  unfold invoke, call_property. rewrite Hm. cbn [snd].
  repeat split; try discriminate.
  intros ->. reflexivity.
Qed.

End BoundMethods.

(** * Properties of the subscription *)

(** ** What calling into the caller's functions can change *)

Lemma frame_refl w : frame w w.
Proof.
  unfold frame. repeat split; try reflexivity.
  - exists []. rewrite app_nil_r. auto.
  - exists []. rewrite app_nil_r. auto.
  - exists []. rewrite app_nil_r. auto.
Qed.

Lemma frame_trans w1 w2 w3 : frame w1 w2 -> frame w2 w3 -> frame w1 w3.
Proof.
  unfold frame.
  intros (Hs & Ht & Hl & Hc & Hti & Hu & Hn & Hnt & (p1 & Hp1 & Fp1) & (o1 & Ho1) & (e1 & He1))
         (Hs' & Ht' & Hl' & Hc' & Hti' & Hu' & Hn' & Hnt' & (p2 & Hp2 & Fp2) & (o2 & Ho2)
          & (e2 & He2)).
  repeat split; try congruence.
  - exists (p1 ++ p2). split; [rewrite Hp2, Hp1, app_assoc; reflexivity |].
    apply Forall_app; auto.
  - exists (o1 ++ o2). rewrite Ho2, Ho1, app_assoc. reflexivity.
  - exists (e1 ++ e2). rewrite He2, He1, app_assoc. reflexivity.
Qed.

Lemma frame_set_trace w obs : frame w (set_trace (fun t => t ++ obs) w).
Proof.
  unfold frame. simpl. repeat split; try reflexivity.
  - exists []. rewrite app_nil_r. auto.
  - eauto.
  - exists []. rewrite app_nil_r. auto.
Qed.

Lemma frame_floating {A : Type} (p : promise A) w : frame w (floating p w).
Proof.
  destruct p; simpl; try apply frame_refl.
  unfold frame. simpl. repeat split; try reflexivity.
  - exists []. rewrite app_nil_r. auto.
  - exists []. rewrite app_nil_r. auto.
  - eauto.
Qed.

Lemma frame_suspend_poll callback h w : frame w (suspend (AwaitPoll callback h) w).
Proof.
  unfold frame. simpl. repeat split; try reflexivity.
  - exists [AwaitPoll callback h]. split; [reflexivity |]. repeat constructor.
  - exists []. rewrite app_nil_r. auto.
  - exists []. rewrite app_nil_r. auto.
Qed.

Lemma frame_emitErrorEvent error w : frame w (emitErrorEvent error w).1.
Proof.
  unfold emitErrorEvent. destruct (errorListener (sub w)) as [h|]; [| apply frame_refl].
  destruct (h (Err error)); simpl; apply frame_set_trace.
Qed.

Lemma frame_emitterFunction callback receipt w :
  frame w (emitterFunction callback receipt w).1.
Proof.
  unfold emitterFunction.
  assert (Hgo : forall m,
    frame w
      (match callback (Msg m) with
       | CbReturned => (set_trace (fun t => t ++ [CallbackCalled m]) w, Fulfilled tt)
       | CbThrew error =>
           match message_of error with
           | None => (set_trace (fun t => t ++ [CallbackCalled m]) w,
                      Rejected (TypeError "Cannot read property 'message' of null"))
           | Some m0 =>
               match emitErrorEvent (CallbackFailure m0)
                       (set_trace (fun t => t ++ [CallbackCalled m]) w) with
               | (w2, Normal _) => (w2, Fulfilled tt)
               | (w2, Abrupt e) => (w2, Rejected e)
               end
           end
       end).1).
  { intros m. destruct (callback (Msg m)) as [| error]; simpl; [apply frame_set_trace |].
    destruct (message_of error) as [m0|]; simpl; [| apply frame_set_trace].
    pose proof (frame_emitErrorEvent (CallbackFailure m0)
                  (set_trace (fun t => t ++ [CallbackCalled m]) w)) as Hf.
    destruct (emitErrorEvent _ _) as [w2 [u|e]]; simpl in *;
      (eapply frame_trans; [apply frame_set_trace | exact Hf]). }
  destruct receipt; simpl; [apply frame_refl | apply Hgo | apply Hgo].
Qed.

Lemma frame_invoke_listener fn payload w : frame w (invoke_listener fn payload w).
Proof.
  unfold invoke_listener. destruct (fn_kind fn).
  - destruct (tx (sub w)); [apply frame_suspend_poll | apply frame_floating].
  - eapply frame_trans; [apply frame_emitterFunction | apply frame_floating].
Qed.

Lemma frame_emit eventName payload w : frame w (emit eventName payload w).
Proof.
  unfold emit. generalize (events (transport w)) as l. intros l. revert w.
  induction l as [| e l IH]; intros w; simpl; [apply frame_refl |].
  eapply frame_trans; [| apply IH].
  destruct (String.eqb e.1 eventName); [apply frame_invoke_listener | apply frame_refl].
Qed.

(** ** Removing and adding the listener *)

Lemma pop_snoc {A : Type} (l : list A) (x : A) : pop (l ++ [x]) = Some (l, x).
Proof. induction l as [| a l IH]; simpl; [reflexivity | rewrite IH; reflexivity]. Qed.

Lemma pop_Some {A : Type} (l r : list A) (y : A) : pop l = Some (r, y) -> l = r ++ [y].
Proof.
  revert r. induction l as [| a l IH]; intros r; simpl; [discriminate |].
  destruct (pop l) as [[r' y'] |] eqn:Hp.
  - intros [= <- <-]. rewrite (IH r' eq_refl). reflexivity.
  - intros [= <- <-]. destruct l; [reflexivity |]. simpl in Hp.
    destruct (pop l) as [[? ?] |]; discriminate.
Qed.

Lemma hasListener_false w : hasListener w = false <-> listeners (sub w) = [].
Proof.
  unfold hasListener, Nat.ltb. destruct (listeners (sub w)); simpl; split; congruence.
Qed.

Lemma hasListener_true w : hasListener w = true <-> listeners (sub w) <> [].
Proof.
  unfold hasListener, Nat.ltb. destruct (listeners (sub w)); simpl; split; congruence.
Qed.

(** With no listener attached, removal is a no-op. *)
Lemma removeListener_none w : hasListener w = false -> removeListener w = w.
Proof. intros H. unfold removeListener. rewrite H. reflexivity. Qed.

(** Removal pops the last listener and deregisters it from the provider. *)
Lemma removeListener_snoc w rest l :
  listeners (sub w) = rest ++ [l] ->
  removeListener w
  = provider_removeListener (eventName l) (listenerFunction l)
      (set_sub (set_listeners rest) w).
Proof.
  intros H. unfold removeListener, hasListener. rewrite H, pop_snoc.
  rewrite length_app. simpl. rewrite Nat.add_1_r. reflexivity.
Qed.

(** Removal touches the listener sequence and the provider's table only. *)
Lemma removeListener_frame w :
  let w' := removeListener w in
  txPromise (sub w') = txPromise (sub w) /\ tx (sub w') = tx (sub w)
  /\ timeout (sub w') = timeout (sub w) /\ errorListener (sub w') = errorListener (sub w)
  /\ ledger w' = ledger w /\ clock w' = clock w /\ timers w' = timers w
  /\ suspended w' = suspended w /\ unhandled w' = unhandled w
  /\ uncaught w' = uncaught w /\ trace w' = trace w /\ next_fn w' = next_fn w
  /\ (length (listeners (sub w')) = Nat.pred (length (listeners (sub w))))
  /\ next_timer w' = next_timer w.
Proof.
  unfold removeListener.
  destruct (hasListener w) eqn:Hh; simpl.
  - destruct (pop (listeners (sub w))) as [[rest l] |] eqn:Hp; simpl.
    + apply pop_Some in Hp. rewrite Hp, length_app. simpl.
      rewrite Nat.add_1_r. simpl. repeat split; reflexivity.
    + apply hasListener_true in Hh. destruct (listeners (sub w)) as [| x xs]; [congruence |].
      simpl in Hp. destruct (pop xs) as [[? ?] |]; discriminate.
  - apply hasListener_false in Hh. rewrite Hh. repeat split; reflexivity.
Qed.

(** Removal is idempotent when at most one listener is attached. *)
Lemma removeListener_idempotent w :
  at_most_one w -> removeListener (removeListener w) = removeListener w.
Proof.
  intros H. apply removeListener_none, hasListener_false.
  destruct (removeListener_frame w)
    as (_ & _ & _ & _ & _ & _ & _ & _ & _ & _ & _ & _ & Hl & _).
  unfold at_most_one in H.
  destruct (listeners (sub (removeListener w))); [reflexivity |].
  simpl in Hl. lia.
Qed.

(** Registering a failure handler leaves the listener sequence alone. *)
Lemma on_failed_listeners f w :
  let w' := (on "failed" (JsFunction f) w).1 in
  listeners (sub w') = listeners (sub w)
  /\ errorListener (sub w') = Some f
  /\ suspended w' = suspended w /\ transport w' = transport w /\ timers w' = timers w.
Proof. simpl. repeat split; reflexivity. Qed.

(** The continuation of [#addListener] once the receipt query answered. *)
Lemma finishAddListener_spec callback receipt t w :
  tx (sub w) = Some t ->
  let fn := {| fn_id := next_fn w;
               fn_kind := match receipt with Some _ => BlockPoll | None => Emitter end;
               fn_callback := callback |} in
  let key := match receipt with Some _ => "block" | None => hash t end in
  finishAddListener callback receipt w
  = setTimeout (timeout (sub w))
      (provider_on key fn
        (set_sub (set_listeners
                    (listeners (sub w) ++ [{| eventName := key; listenerFunction := fn |}]))
           (set_next_fn S w))).
Proof.
  intros Ht. unfold finishAddListener.
  destruct receipt as [r |]; simpl.
  - rewrite last_snoc. reflexivity.
  - rewrite Ht. simpl. rewrite last_snoc. reflexivity.
Qed.

(** A successful registration adds exactly one entry. *)
Lemma resume_AwaitReceipt w i callback h t :
  suspended w !! i = Some (AwaitReceipt callback h) ->
  tx (sub w) = Some t ->
  exists w' l,
    resume i w = Some w'
    /\ listeners (sub w') = listeners (sub w) ++ [l]
    /\ events (transport w') = events (transport w) ++ [(eventName l, listenerFunction l)]
    /\ timers w' = timers w ++ [(next_timer w, clock w + timeout (sub w))]
    /\ next_timer w' = S (next_timer w)
    /\ suspended w' = delete i (suspended w)
    /\ fn_callback (listenerFunction l) = callback
    /\ fn_id (listenerFunction l) = next_fn w
    /\ (eventName l, fn_kind (listenerFunction l))
       = match ledger w !! h with
         | Some _ => ("block", BlockPoll)
         | None => (hash t, Emitter)
         end
    /\ trace w' = trace w /\ unhandled w' = unhandled w /\ clock w' = clock w
    /\ errorListener (sub w') = errorListener (sub w) /\ tx (sub w') = tx (sub w)
    /\ txPromise (sub w') = txPromise (sub w) /\ timeout (sub w') = timeout (sub w)
    /\ ledger w' = ledger w.
Proof.
  intros Hi Ht. unfold resume. rewrite Hi.
  rewrite (finishAddListener_spec callback _ t) by exact Ht.
  unfold getTransactionReceipt. simpl.
  destruct (ledger w !! h); eexists; eexists; (split; [reflexivity |]); simpl;
    repeat split; reflexivity.
Qed.

(** [on("confirmation", f)] with no listener attached suspends the
    registration at [await this.#txPromise]. *)
Lemma on_confirmation_idle w f :
  hasListener w = false ->
  on "confirmation" (JsFunction f) w = (suspend (AwaitTx f) w, Normal (Fulfilled tt)).
Proof.
  intros H. unfold on, addListener, async. simpl. rewrite H. reflexivity.
Qed.

Lemma resume_AwaitTx w i callback t :
  suspended w !! i = Some (AwaitTx callback) ->
  txPromise (sub w) = Fulfilled t ->
  resume i w
  = Some (suspend (AwaitReceipt callback (hash t))
            (set_sub (set_tx (Some t)) (set_suspended (delete i) w))).
Proof. intros Hi Ht. unfold resume. rewrite Hi. simpl. rewrite Ht. reflexivity. Qed.

(** A registration on a subscription without listener whose transaction is
    resolved, run through its two suspension points with nothing in
    between. *)
Lemma registration_runs w f t :
  hasListener w = false ->
  txPromise (sub w) = Fulfilled t ->
  let n := length (suspended w) in
  exists w' l,
    run [CallOn "confirmation" (JsFunction f); Resume n; Resume n] w = Some w'
    /\ listeners (sub w') = [l]
    /\ events (transport w') = events (transport w) ++ [(eventName l, listenerFunction l)]
    /\ timers w' = timers w ++ [(next_timer w, clock w + timeout (sub w))]
    /\ next_timer w' = S (next_timer w)
    /\ suspended w' = suspended w
    /\ fn_callback (listenerFunction l) = f
    /\ (eventName l, fn_kind (listenerFunction l))
       = match ledger w !! hash t with
         | Some _ => ("block", BlockPoll)
         | None => (hash t, Emitter)
         end
    /\ trace w' = trace w /\ unhandled w' = unhandled w /\ clock w' = clock w
    /\ errorListener (sub w') = errorListener (sub w) /\ tx (sub w') = Some t
    /\ txPromise (sub w') = Fulfilled t /\ timeout (sub w') = timeout (sub w)
    /\ ledger w' = ledger w.
Proof.
  intros Hh Ht n. cbn [run step].
  rewrite on_confirmation_idle by exact Hh. cbn [fst].
  rewrite (resume_AwaitTx _ n f t);
    [| apply list_lookup_middle; reflexivity | exact Ht].
  cbn [run].
  set (w1 := suspend (AwaitReceipt f (hash t)) _).
  assert (Hs1 : suspended w1 = suspended w ++ [AwaitReceipt f (hash t)]).
  { unfold w1, n. simpl.
    rewrite (delete_middle (suspended w) [] (AwaitTx f)), app_nil_r. reflexivity. }
  destruct (resume_AwaitReceipt w1 n f (hash t) t)
    as (w' & l & Hr & Hl & He & Hti & Hnt & Hsu & Hcb & _ & Hk & Htr & Hun & Hcl & Her & Htx
        & Htp & Hto & Hle).
  { rewrite Hs1. apply list_lookup_middle. reflexivity. }
  { reflexivity. }
  exists w', l. rewrite Hr. split; [reflexivity |].
  apply hasListener_false in Hh.
  rewrite Hl, He, Hti, Hnt, Hsu, Hcb, Hk, Htr, Hun, Hcl, Her, Htx, Htp, Hto, Hle, Hs1.
  unfold n. rewrite (delete_middle (suspended w) [] (AwaitReceipt f (hash t))), app_nil_r.
  unfold w1. simpl. rewrite Hh.
  repeat split; auto.
Qed.

(** ** The timer *)

(** [on] attaches nothing by itself: it stores the failure handler, or
    suspends a registration, or drops a rejection. *)
Lemma on_preserves trigger callback w :
  let w' := (on trigger callback w).1 in
  timers w' = timers w /\ listeners (sub w') = listeners (sub w)
  /\ transport w' = transport w /\ trace w' = trace w /\ clock w' = clock w
  /\ ledger w' = ledger w /\ txPromise (sub w') = txPromise (sub w)
  /\ tx (sub w') = tx (sub w) /\ timeout (sub w') = timeout (sub w)
  /\ next_timer w' = next_timer w /\ next_fn w' = next_fn w.
Proof.
  unfold on, async, addListener. cbn [fst snd].
  destruct (negb (existsb (String.eqb trigger) triggers)); [repeat split; reflexivity |].
  destruct callback; try (repeat split; reflexivity).
  destruct (String.eqb trigger "failed"); [repeat split; reflexivity |].
  destruct (hasListener w); repeat split; reflexivity.
Qed.

(** What the timer callback does: it retires a listener if there is one,
    and calls the failure handler, if there is one, with the timeout error
    in every case. *)
Lemma onTimeout_spec w :
  let w' := onTimeout w in
  sub w' = sub (removeListener w) /\ transport w' = transport (removeListener w)
  /\ timers w' = timers w /\ suspended w' = suspended w /\ clock w' = clock w
  /\ ledger w' = ledger w /\ unhandled w' = unhandled w
  /\ next_timer w' = next_timer w /\ next_fn w' = next_fn w
  /\ trace w' = trace w ++ match errorListener (sub w) with
                           | Some _ => [ErrorListenerCalled Timeout]
                           | None => []
                           end.
Proof.
  unfold onTimeout, emitErrorEvent.
  destruct (removeListener_frame w)
    as (_ & _ & _ & He & Hl & Hc & Hti & Hs & Hu & _ & Htr & Hnf & _ & Hnt).
  cbn zeta in *. rewrite He.
  destruct (errorListener (sub w)) as [h |]; cbn [fst snd].
  - destruct (h (Err Timeout)); cbn; rewrite Htr; repeat split; auto.
  - rewrite app_nil_r. repeat split; auto.
Qed.

(** A resumed function leaves the world framed, whatever it awaited,
    unless it completes a registration. *)
Lemma frame_poll_resumed f receipt w0 :
  frame w0 (floating (emitterFunction f receipt w0).2 (emitterFunction f receipt w0).1).
Proof. eapply frame_trans; [apply frame_emitterFunction | apply frame_floating]. Qed.

Lemma finishAddListener_timers callback receipt w :
  let w' := finishAddListener callback receipt w in
  (timers w' = timers w /\ next_timer w' = next_timer w)
  \/ (timers w' = timers w ++ [(next_timer w, clock w + timeout (sub w))]
      /\ next_timer w' = S (next_timer w)).
Proof.
  unfold finishAddListener. destruct receipt as [r |]; cbn.
  - rewrite last_snoc. cbn. right. auto.
  - destruct (tx (sub w)); cbn.
    + rewrite last_snoc. cbn. right. auto.
    + left. auto.
Qed.

(** What a step does to the pending timers: the firing of a timer removes
    that timer, the completion of a registration adds one, and nothing else
    touches them; the code never calls [clearTimeout]. *)
Lemma step_timers l w w' :
  step l w = Some w' ->
  (exists id, l = FireTimer id
     /\ timers w' = List.filter (fun e => negb (Nat.eqb e.1 id)) (timers w)
     /\ next_timer w' = next_timer w)
  \/ (timers w' = timers w /\ next_timer w' = next_timer w)
  \/ (exists due, timers w' = timers w ++ [(next_timer w, due)]
        /\ next_timer w' = S (next_timer w)).
Proof.
  intros Hs. destruct l; cbn [step] in Hs.
  - some_inj Hs. right; left. split; apply on_preserves.
  - some_inj Hs. right; left. split; apply removeListener_frame.
  - some_inj Hs. right; left. split; apply removeListener_frame.
  - some_inj Hs. right; left. split; apply removeListener_frame.
  - some_inj Hs. right; left. split; apply removeListener_frame.
  - some_inj Hs. right; left. split; reflexivity.
  - destruct (txPromise (sub w)); try discriminate. some_inj Hs. right; left. auto.
  - some_inj Hs. right; left. auto.
  - some_inj Hs. right; left. split; apply frame_emit.
  - unfold resume in Hs.
    destruct (suspended w !! i) as [[f | f h | f h | | h] |]; try discriminate.
    + cbn in Hs. destruct (txPromise (sub w)); try discriminate; some_inj Hs;
        right; left; auto.
    + some_inj Hs.
      destruct (finishAddListener_timers f
                  (getTransactionReceipt h (set_suspended (delete i) w))
                  (set_suspended (delete i) w)) as [H | H].
      * right; left. exact H.
      * right; right. eexists. exact H.
    + some_inj Hs. right; left.
      match goal with
      | |- context [emitterFunction f ?r ?w0] =>
          destruct (frame_poll_resumed f r w0) as (_ & _ & _ & _ & Hti & _ & _ & Hnt & _)
      end.
      split; [exact Hti | exact Hnt].
    + cbn in Hs. destruct (txPromise (sub w)); try discriminate; some_inj Hs;
        right; left; auto.
    + cbn in Hs. destruct (getTransactionReceipt h _); try discriminate. some_inj Hs.
      right; left; auto.
  - destruct (0 <=? dt); try discriminate. some_inj Hs. right; left. auto.
  - destruct (List.find _ (timers w)) as [[id' due] |]; try discriminate.
    destruct (due <=? clock w); try discriminate. some_inj Hs.
    left. exists id. split; [reflexivity |].
    set (wd := set_timers _ w).
    destruct (onTimeout_spec wd) as (_ & _ & Hti & _ & _ & _ & _ & Hnt & _).
    cbn zeta in *. rewrite Hti, Hnt. auto.
Qed.

Lemma NoDup_fst_filter (P : nat * Z -> bool) (l : list (nat * Z)) :
  NoDup (map fst l) -> NoDup (map fst (List.filter P l)).
Proof.
  induction l as [| e l IH]; cbn; [auto |].
  rewrite NoDup_cons. intros [Hn Hd].
  destruct (P e); cbn; [| auto].
  apply NoDup_cons. split; [| auto].
  intros Hin. apply Hn.
  apply list_elem_of_In in Hin. apply list_elem_of_In.
  apply in_map_iff in Hin. destruct Hin as (x & Hx & Hxin).
  apply in_map_iff. exists x. split; [exact Hx |].
  apply filter_In in Hxin. tauto.
Qed.

(** Timer ids stay distinct. *)
Lemma step_timers_wf l w w' : step l w = Some w' -> timers_wf w -> timers_wf w'.
Proof.
  intros Hs [Hnd Hlt]. unfold timers_wf.
  destruct (step_timers _ _ _ Hs)
    as [(id & _ & -> & ->) | [[-> ->] | (due & -> & ->)]].
  - split; [apply NoDup_fst_filter; exact Hnd |].
    apply List.Forall_forall. intros x Hx. apply filter_In in Hx.
    rewrite List.Forall_forall in Hlt. apply Hlt. tauto.
  - auto.
  - split.
    + rewrite map_app. cbn. apply NoDup_app. split; [exact Hnd |].
      split; [| apply NoDup_singleton].
      intros x Hx Hx'. apply list_elem_of_singleton in Hx'. subst x.
      apply list_elem_of_In, in_map_iff in Hx. destruct Hx as (e & He & Hin).
      rewrite List.Forall_forall in Hlt. specialize (Hlt e Hin). lia.
    + apply Forall_app. split.
      * eapply Forall_impl; [exact Hlt |]. cbn. intros; lia.
      * constructor; [cbn; lia | constructor].
Qed.

Lemma run_timers_wf ls w w' : run ls w = Some w' -> timers_wf w -> timers_wf w'.
Proof.
  revert w. induction ls as [| l ls IH]; intros w Hr Hw; cbn [run] in Hr.
  - some_inj Hr. exact Hw.
  - destruct (step l w) as [w1 |] eqn:Hs; [| discriminate].
    exact (IH _ Hr (step_timers_wf _ _ _ Hs Hw)).
Qed.

Lemma spawn_timers_wf s p ledger now : timers_wf (spawn s p ledger now).
Proof. split; cbn; constructor. Qed.

(** No step other than its own firing takes a timer away. *)
Lemma step_keeps_timer l w w' id due :
  step l w = Some w' -> l <> FireTimer id ->
  In (id, due) (timers w) -> In (id, due) (timers w').
Proof.
  intros Hs Hn Hin.
  destruct (step_timers _ _ _ Hs)
    as [(id' & -> & -> & _) | [[-> _] | (due' & -> & _)]].
  - apply filter_In. split; [exact Hin |]. cbn.
    destruct (Nat.eqb_spec id id'); [subst; congruence | reflexivity].
  - exact Hin.
  - apply in_or_app. left. exact Hin.
Qed.

Lemma run_keeps_timer ls w w' id due :
  run ls w = Some w' -> Forall (fun l => l <> FireTimer id) ls ->
  In (id, due) (timers w) -> In (id, due) (timers w').
Proof.
  revert w. induction ls as [| l ls IH]; intros w Hr Hf Hin; cbn [run] in Hr.
  - some_inj Hr. exact Hin.
  - destruct (step l w) as [w1 |] eqn:Hs; [| discriminate].
    inversion Hf as [| ? ? Hl Hls]; subst.
    exact (IH _ Hr Hls (step_keeps_timer _ _ _ _ _ Hs Hl Hin)).
Qed.

Lemma find_timer (ts : list (nat * Z)) id due :
  NoDup (map fst ts) -> In (id, due) ts ->
  List.find (fun e => Nat.eqb e.1 id) ts = Some (id, due).
Proof.
  induction ts as [| e ts IH]; cbn; [tauto |].
  rewrite NoDup_cons. intros [Hn Hd] [-> | Hin].
  - cbn. rewrite Nat.eqb_refl. reflexivity.
  - destruct (Nat.eqb_spec e.1 id) as [He | He]; [| auto].
    exfalso. apply Hn. apply list_elem_of_In, in_map_iff.
    exists (id, due). auto.
Qed.

(** Firing a pending timer: not before it is due, and then it runs the
    timeout callback. *)
Lemma fire_due_timer w id due :
  timers_wf w -> In (id, due) (timers w) ->
  (clock w < due -> step (FireTimer id) w = None)
  /\ (due <= clock w ->
      step (FireTimer id) w
      = Some (onTimeout
                (set_timers (List.filter (fun e => negb (Nat.eqb e.1 id))) w))).
Proof.
  intros [Hnd _] Hin. cbn [step]. rewrite (find_timer _ _ _ Hnd Hin). split; intros H.
  - destruct (Z.leb_spec due (clock w)); [lia | reflexivity].
  - destruct (Z.leb_spec due (clock w)); [reflexivity | lia].
Qed.

Lemma finishAddListener_timeout callback receipt w :
  timeout (sub (finishAddListener callback receipt w)) = timeout (sub w).
Proof.
  unfold finishAddListener. destruct receipt as [r |]; cbn.
  - rewrite last_snoc. reflexivity.
  - destruct (tx (sub w)); cbn; [rewrite last_snoc |]; reflexivity.
Qed.

(** The timeout of a subscription is the constant it was built with. *)
Lemma step_keeps_timeout l w w' :
  step l w = Some w' -> timeout (sub w') = timeout (sub w).
Proof.
  intros Hs. destruct l; cbn [step] in Hs.
  - some_inj Hs. apply on_preserves.
  - some_inj Hs. apply removeListener_frame.
  - some_inj Hs. apply removeListener_frame.
  - some_inj Hs. apply removeListener_frame.
  - some_inj Hs. apply removeListener_frame.
  - some_inj Hs. reflexivity.
  - destruct (txPromise (sub w)); try discriminate. some_inj Hs. reflexivity.
  - some_inj Hs. reflexivity.
  - some_inj Hs. destruct (frame_emit eventName0 payload w) as [-> _]. reflexivity.
  - unfold resume in Hs.
    destruct (suspended w !! i) as [[f | f h | f h | | h] |]; try discriminate.
    + cbn in Hs. destruct (txPromise (sub w)); try discriminate; some_inj Hs;
        reflexivity.
    + some_inj Hs.
      exact (finishAddListener_timeout f _ (set_suspended (delete i) w)).
    + some_inj Hs.
      match goal with
      | |- context [emitterFunction f ?r ?w0] =>
          destruct (frame_poll_resumed f r w0) as [Hsub _]
      end.
      rewrite Hsub. reflexivity.
    + cbn in Hs. destruct (txPromise (sub w)); try discriminate; some_inj Hs;
        reflexivity.
    + cbn in Hs. destruct (getTransactionReceipt h _); try discriminate. some_inj Hs.
      reflexivity.
  - destruct (0 <=? dt); try discriminate. some_inj Hs. reflexivity.
  - destruct (List.find _ (timers w)) as [[id' due] |]; try discriminate.
    destruct (due <=? clock w); try discriminate. some_inj Hs.
    set (wd := set_timers _ w).
    destruct (onTimeout_spec wd) as [-> _].
    apply (removeListener_frame wd).
Qed.

Lemma run_keeps_timeout ls w w' :
  run ls w = Some w' -> timeout (sub w') = timeout (sub w).
Proof.
  revert w. induction ls as [| l ls IH]; intros w Hr; cbn [run] in Hr.
  - some_inj Hr. reflexivity.
  - destruct (step l w) as [w1 |] eqn:Hs; [| discriminate].
    rewrite (IH _ Hr). exact (step_keeps_timeout _ _ _ Hs).
Qed.

(** Removing the one registration of a closure leaves it unregistered. *)
Lemma remove_first_unregistered eventName fn (evs : list (string * listener_function)) :
  NoDup (map (fun e => fn_id e.2) evs) ->
  existsb (same_listener eventName fn) (remove_first eventName fn evs) = false.
Proof.
  induction evs as [| e evs IH]; cbn; [reflexivity |].
  rewrite NoDup_cons. intros [Hn Hd].
  destruct (same_listener eventName fn e) eqn:He.
  - apply not_true_is_false. intros Hex.
    apply existsb_exists in Hex. destruct Hex as (x & Hx & Hsame).
    apply Hn. apply list_elem_of_In, in_map_iff. exists x. split; [| exact Hx].
    unfold same_listener in He, Hsame.
    apply andb_true_iff in He, Hsame.
    destruct He as [_ He], Hsame as [_ Hsame].
    apply Nat.eqb_eq in He, Hsame. congruence.
  - cbn. rewrite He. cbn. auto.
Qed.

Lemma remove_first_In eventName fn (evs : list (string * listener_function)) x :
  In x (remove_first eventName fn evs) -> In x evs.
Proof.
  induction evs as [| e evs IH]; cbn; [tauto |].
  destruct (same_listener eventName fn e); cbn; tauto.
Qed.

Lemma remove_first_NoDup eventName fn (evs : list (string * listener_function)) :
  NoDup (map (fun e => fn_id e.2) evs) ->
  NoDup (map (fun e => fn_id e.2) (remove_first eventName fn evs)).
Proof.
  induction evs as [| e evs IH]; cbn; [auto |].
  rewrite NoDup_cons. intros [Hn Hd].
  destruct (same_listener eventName fn e); cbn; [exact Hd |].
  apply NoDup_cons. split; [| auto].
  intros Hin. apply Hn.
  apply list_elem_of_In, in_map_iff in Hin. destruct Hin as (x & Hx & Hxin).
  apply list_elem_of_In, in_map_iff. exists x. split; [exact Hx |].
  eapply remove_first_In. exact Hxin.
Qed.

(** What removal and the completion of a registration do to the provider's
    table. *)
Lemma removeListener_events w :
  events (transport (removeListener w)) = events (transport w)
  \/ exists eventName fn,
       events (transport (removeListener w))
       = remove_first eventName fn (events (transport w)).
Proof.
  unfold removeListener. destruct (hasListener w); [| auto].
  destruct (pop (listeners (sub w))) as [[rest l] |]; [| auto].
  right. exists (eventName l), (listenerFunction l). reflexivity.
Qed.

Lemma finishAddListener_events callback receipt w :
  let w' := finishAddListener callback receipt w in
  next_fn w' = S (next_fn w)
  /\ (events (transport w') = events (transport w)
      \/ exists eventName fn,
           fn_id fn = next_fn w
           /\ events (transport w') = events (transport w) ++ [(eventName, fn)]).
Proof.
  unfold finishAddListener. destruct receipt as [r |]; cbn.
  - rewrite last_snoc. cbn. split; [reflexivity |]. right.
    eexists. eexists. split; [| reflexivity]. reflexivity.
  - destruct (tx (sub w)); cbn.
    + rewrite last_snoc. cbn. split; [reflexivity |]. right.
      eexists. eexists. split; [| reflexivity]. reflexivity.
    + auto.
Qed.

Lemma events_wf_removed eventName fn (evs : list (string * listener_function)) n :
  NoDup (map (fun e => fn_id e.2) evs) /\ Forall (fun e => (fn_id e.2 < n)%nat) evs ->
  NoDup (map (fun e => fn_id e.2) (remove_first eventName fn evs))
  /\ Forall (fun e => (fn_id e.2 < n)%nat) (remove_first eventName fn evs).
Proof.
  intros [Hnd Hlt]. split; [apply remove_first_NoDup; exact Hnd |].
  apply List.Forall_forall. intros x Hx. rewrite List.Forall_forall in Hlt.
  apply Hlt. eapply remove_first_In. exact Hx.
Qed.

(** Closures stay registered once at most. *)
Lemma step_events_wf l w w' : step l w = Some w' -> events_wf w -> events_wf w'.
Proof.
  intros Hs Hw. unfold events_wf in *.
  assert (Hnf : forall w0, next_fn (removeListener w0) = next_fn w0).
  { intros w0. apply (removeListener_frame w0). }
  assert (Hrm : forall w0, events (transport w0) = events (transport w) ->
                NoDup (map (fun e => fn_id e.2) (events (transport (removeListener w0))))
                /\ Forall (fun e => (fn_id e.2 < next_fn w)%nat)
                     (events (transport (removeListener w0)))).
  { intros w0 He.
    destruct (removeListener_events w0) as [-> | (n & fn & ->)]; rewrite He;
      [exact Hw | apply events_wf_removed; exact Hw]. }
  destruct l; cbn [step] in Hs.
  - some_inj Hs.
    destruct (on_preserves trigger callback0 w)
      as (_ & _ & -> & _ & _ & _ & _ & _ & _ & _ & ->). exact Hw.
  - some_inj Hs. rewrite Hnf. apply Hrm; reflexivity.
  - some_inj Hs. rewrite Hnf. apply Hrm; reflexivity.
  - some_inj Hs. rewrite Hnf. apply Hrm; reflexivity.
  - some_inj Hs. rewrite Hnf. apply Hrm; reflexivity.
  - some_inj Hs. exact Hw.
  - destruct (txPromise (sub w)); try discriminate. some_inj Hs. exact Hw.
  - some_inj Hs. exact Hw.
  - some_inj Hs.
    destruct (frame_emit eventName0 payload w) as (_ & -> & _ & _ & _ & _ & -> & _).
    exact Hw.
  - unfold resume in Hs.
    destruct (suspended w !! i) as [[f | f h | f h | | h] |]; try discriminate.
    + cbn in Hs. destruct (txPromise (sub w)); try discriminate; some_inj Hs; exact Hw.
    + some_inj Hs.
      destruct (finishAddListener_events f
                  (getTransactionReceipt h (set_suspended (delete i) w))
                  (set_suspended (delete i) w)) as [Hn [He | (n & fn & Hid & He)]];
        cbn zeta in *; rewrite Hn, He; cbn; destruct Hw as [Hnd Hlt].
      * split; [exact Hnd |]. eapply Forall_impl; [exact Hlt |]. cbn. intros; lia.
      * split.
        -- rewrite map_app. cbn. apply NoDup_app. split; [exact Hnd |].
           split; [| apply NoDup_singleton].
           intros x Hx Hx'. apply list_elem_of_singleton in Hx'. subst x.
           apply list_elem_of_In, in_map_iff in Hx. destruct Hx as (e & He' & Hin).
           rewrite List.Forall_forall in Hlt. specialize (Hlt e Hin).
           cbn in Hid. lia.
        -- apply Forall_app. split.
           ++ eapply Forall_impl; [exact Hlt |]. cbn. intros; lia.
           ++ constructor; [cbn in *; lia | constructor].
    + some_inj Hs.
      match goal with
      | |- context [emitterFunction f ?r ?w0] =>
          destruct (frame_poll_resumed f r w0) as (_ & -> & _ & _ & _ & _ & -> & _)
      end.
      exact Hw.
    + cbn in Hs. destruct (txPromise (sub w)); try discriminate; some_inj Hs; exact Hw.
    + cbn in Hs. destruct (getTransactionReceipt h _); try discriminate. some_inj Hs.
      exact Hw.
  - destruct (0 <=? dt); try discriminate. some_inj Hs. exact Hw.
  - destruct (List.find _ (timers w)) as [[id' due] |]; try discriminate.
    destruct (due <=? clock w); try discriminate. some_inj Hs.
    set (wd := set_timers _ w).
    destruct (onTimeout_spec wd) as (_ & -> & _ & _ & _ & _ & _ & _ & -> & _).
    change (next_fn wd) with (next_fn w). apply Hrm; reflexivity.
Qed.

(** The subscription a write call returns keeps the constructor's timeout
    in every world it reaches. *)
Lemma reachable_timeout txPromise p ledger now ls w :
  run ls (spawn (new_TransactionSubscription txPromise) p ledger now) = Some w ->
  timeout (sub w) = 2000.
Proof. intros Hr. rewrite (run_keeps_timeout _ _ _ Hr). reflexivity. Qed.

(** Every world a subscription can be in: what a run from the world it was
    spawned in, around a provider without listeners, leads to. *)
Lemma reachable_wf s p ledger now ls w :
  events p = [] ->
  run ls (spawn s p ledger now) = Some w ->
  timers_wf w /\ events_wf w.
Proof.
  intros Hp Hr. split; [exact (run_timers_wf _ _ _ Hr (spawn_timers_wf _ _ _ _)) |].
  assert (H0 : events_wf (spawn s p ledger now)).
  { unfold events_wf. cbn. rewrite Hp. split; constructor. }
  revert Hr H0. generalize (spawn s p ledger now) as w0. revert w.
  induction ls as [| l ls IH]; intros w w0 Hr H0; cbn [run] in Hr.
  - some_inj Hr. exact H0.
  - destruct (step l w0) as [w1 |] eqn:Hs; [| discriminate].
    exact (IH _ _ Hr (step_events_wf _ _ _ Hs H0)).
Qed.

(** ** C5: expiry of the timeout with a listener attached *)

(** C5: a registration that completes at clock [c] on a subscription with
    the constructor's timeout starts a timer due at [c + 2000].  In every
    world where that timer is pending and one confirmation listener [l] is
    attached, the timer cannot fire before [c + 2000]; from then on firing
    it pops [l], deregisters it from the provider, leaves [hasListener]
    false and calls the failure handler, if one is registered, with the
    timeout error. *)
Theorem timeout_retires_listener (w0 : world) (j : nat) (f : callback) (h : string)
    (t : tx_record) :
  suspended w0 !! j = Some (AwaitReceipt f h) ->
  tx (sub w0) = Some t ->
  timeout (sub w0) = 2000 ->
  exists w1,
    resume j w0 = Some w1
    /\ timers w1 = timers w0 ++ [(next_timer w0, clock w0 + 2000)]
    /\ forall (w : world) (l : listener),
         timers_wf w ->
         In (next_timer w0, clock w0 + 2000) (timers w) ->
         listeners (sub w) = [l] ->
         (clock w < clock w0 + 2000 -> step (FireTimer (next_timer w0)) w = None)
         /\ (clock w0 + 2000 <= clock w ->
             exists w',
               step (FireTimer (next_timer w0)) w = Some w'
               /\ hasListener w' = false
               /\ listeners (sub w') = []
               /\ events (transport w')
                  = remove_first (eventName l) (listenerFunction l) (events (transport w))
               /\ (events_wf w ->
                   registered (eventName l) (listenerFunction l) w' = false)
               /\ ~ In (next_timer w0, clock w0 + 2000) (timers w')
               /\ trace w' = trace w ++ match errorListener (sub w) with
                                        | Some _ => [ErrorListenerCalled Timeout]
                                        | None => []
                                        end).
Proof.
  intros Hj Ht Hto.
  destruct (resume_AwaitReceipt w0 j f h t Hj Ht) as (w1 & l1 & Hr & _ & _ & Hti & _).
  exists w1. split; [exact Hr |]. split; [rewrite Hti, Hto; reflexivity |].
  intros w l Hwf Hin Hl.
  destruct (fire_due_timer w _ _ Hwf Hin) as [Hearly Hdue].
  split; [exact Hearly |].
  intros Hc. rewrite (Hdue Hc). eexists. split; [reflexivity |].
  set (wd := set_timers _ w).
  destruct (onTimeout_spec wd) as (Hs & Htr & Htm & _ & _ & _ & _ & _ & _ & Hobs).
  assert (Hrm : removeListener wd
                = provider_removeListener (eventName l) (listenerFunction l)
                    (set_sub (set_listeners []) wd)).
  { apply (removeListener_snoc wd [] l). exact Hl. }
  cbn zeta in *. rewrite Hrm in Hs, Htr.
  assert (Hls : listeners (sub (onTimeout wd)) = []) by (rewrite Hs; reflexivity).
  assert (Hev : events (transport (onTimeout wd))
                = remove_first (eventName l) (listenerFunction l) (events (transport w))).
  { rewrite Htr. reflexivity. }
  split; [apply hasListener_false; exact Hls |].
  split; [exact Hls |]. split; [exact Hev |].
  split; [| split].
  - intros [Hew _]. unfold registered. rewrite Hev.
    apply remove_first_unregistered. exact Hew.
  - rewrite Htm. unfold wd. cbn. intros Hx. apply filter_In in Hx.
    destruct Hx as [_ Hx]. cbn in Hx. rewrite Nat.eqb_refl in Hx. discriminate.
  - rewrite Hobs. reflexivity.
Qed.

(** ** C10: the timer is never cancelled *)

(** C10: the timer started by a registration that completes at clock [c]
    stays pending through every sequence of steps other than its own
    firing, whatever they do (deliveries, [removeListener], further calls
    of [on], other timers firing); once [c] plus the timeout is reached it
    can fire, and firing it calls the failure handler, if one is registered,
    with the timeout error, whether or not a listener is still attached. *)
Theorem timer_never_cancelled (w0 : world) (j : nat) (f : callback) (h : string)
    (t : tx_record) :
  suspended w0 !! j = Some (AwaitReceipt f h) ->
  tx (sub w0) = Some t ->
  timers_wf w0 ->
  exists w1,
    resume j w0 = Some w1
    /\ forall (ls : list label) (w : world),
         run ls w1 = Some w ->
         Forall (fun l => l <> FireTimer (next_timer w0)) ls ->
         In (next_timer w0, clock w0 + timeout (sub w0)) (timers w)
         /\ (clock w0 + timeout (sub w0) <= clock w ->
             exists w',
               step (FireTimer (next_timer w0)) w = Some w'
               /\ trace w' = trace w ++ match errorListener (sub w) with
                                        | Some _ => [ErrorListenerCalled Timeout]
                                        | None => []
                                        end).
Proof.
  intros Hj Ht Hwf.
  destruct (resume_AwaitReceipt w0 j f h t Hj Ht) as (w1 & l1 & Hr & _ & _ & Hti & _).
  exists w1. split; [exact Hr |].
  intros ls w Hrun Hnf.
  assert (Hwf1 : timers_wf w1).
  { apply (step_timers_wf (Resume j) w0 w1); [exact Hr | exact Hwf]. }
  assert (Hin1 : In (next_timer w0, clock w0 + timeout (sub w0)) (timers w1)).
  { rewrite Hti. apply in_or_app. right. left. reflexivity. }
  pose proof (run_keeps_timer _ _ _ _ _ Hrun Hnf Hin1) as Hin.
  pose proof (run_timers_wf _ _ _ Hrun Hwf1) as Hwfw.
  split; [exact Hin |].
  intros Hc. destruct (fire_due_timer w _ _ Hwfw Hin) as [_ Hdue].
  rewrite (Hdue Hc). eexists. split; [reflexivity |].
  set (wd := set_timers _ w).
  destruct (onTimeout_spec wd) as (_ & _ & _ & _ & _ & _ & _ & _ & _ & Hobs).
  exact Hobs.
Qed.

(** ** A subscription nobody registered a confirmation listener on *)

Lemma on_other_trigger trigger callback w :
  trigger <> "confirmation" ->
  listeners (sub (on trigger callback w).1) = listeners (sub w)
  /\ suspended (on trigger callback w).1 = suspended w.
Proof.
  intros Hne. unfold on, async, addListener. cbn [fst snd].
  destruct (negb (existsb (String.eqb trigger) triggers)) eqn:Hin; [split; reflexivity |].
  destruct callback; try (split; reflexivity).
  destruct (String.eqb trigger "failed") eqn:Hf; [split; reflexivity |].
  exfalso. apply Hne. cbn in Hin. rewrite Hf in Hin. cbn in Hin.
  rewrite orb_false_r in Hin. apply negb_false_iff in Hin.
  apply String.eqb_eq. exact Hin.
Qed.

Lemma step_idle l w w' :
  step l w = Some w' -> not_confirmation l -> idle w -> idle w'.
Proof.
  intros Hs Hn [Hl Hq]. unfold idle.
  assert (Hh : hasListener w = false) by (apply hasListener_false; exact Hl).
  assert (Hpolls : forall polls, Forall is_poll polls -> Forall not_registering polls).
  { intros polls Hp. eapply Forall_impl; [exact Hp |]. intros [] ?; cbn in *; tauto. }
  destruct l; cbn [step] in Hs.
  - some_inj Hs.
    assert (Hne : trigger <> "confirmation").
    { intros ->. exact (Hn callback0 eq_refl). }
    destruct (on_other_trigger trigger callback0 w Hne) as [-> ->]. auto.
  - some_inj Hs. rewrite removeListener_none by exact Hh. auto.
  - some_inj Hs. unfold removeAllListeners.
    rewrite removeListener_none by exact Hh. auto.
  - some_inj Hs. unfold off. rewrite removeListener_none by exact Hh. auto.
  - some_inj Hs. unfold unsubscribe. rewrite removeListener_none by exact Hh. auto.
  - some_inj Hs. split; [exact Hl |]. cbn. apply Forall_app. split; [exact Hq |].
    repeat constructor.
  - destruct (txPromise (sub w)); try discriminate. some_inj Hs. auto.
  - some_inj Hs. auto.
  - some_inj Hs.
    destruct (frame_emit eventName0 payload w)
      as (-> & _ & _ & _ & _ & _ & _ & _ & (polls & -> & Hp) & _).
    split; [exact Hl | apply Forall_app; auto].
  - unfold resume in Hs. destruct (suspended w !! i) as [tk |] eqn:Hi; [| discriminate].
    pose proof (proj1 (Forall_lookup not_registering (suspended w)) Hq i tk Hi) as Hpoll.
    assert (Hdel : Forall not_registering (delete i (suspended w))).
    { apply Forall_delete. exact Hq. }
    destruct tk as [f | f h | f h | | h]; try contradiction.
    + some_inj Hs.
      match goal with
      | |- context [emitterFunction f ?r ?w0] =>
          destruct (frame_poll_resumed f r w0)
            as (-> & _ & _ & _ & _ & _ & _ & _ & (polls & -> & Hp) & _)
      end.
      split; [exact Hl |]. apply Forall_app. split; [exact Hdel | auto].
    + cbn in Hs. destruct (txPromise (sub w)); try discriminate; some_inj Hs.
      * split; [exact Hl |]. cbn. apply Forall_app. split; [exact Hdel |].
        repeat constructor.
      * split; [exact Hl | exact Hdel].
    + cbn in Hs. destruct (getTransactionReceipt h _); try discriminate. some_inj Hs.
      split; [exact Hl | exact Hdel].
  - destruct (0 <=? dt); try discriminate. some_inj Hs. auto.
  - destruct (List.find _ (timers w)) as [[id' due] |]; try discriminate.
    destruct (due <=? clock w); try discriminate. some_inj Hs.
    set (wd := set_timers _ w).
    destruct (onTimeout_spec wd) as (-> & _ & _ & -> & _).
    rewrite (removeListener_none wd) by exact Hh. auto.
Qed.

Lemma run_idle ls w w' :
  run ls w = Some w' -> Forall not_confirmation ls -> idle w -> idle w'.
Proof.
  revert w. induction ls as [| l ls IH]; intros w Hr Hf Hi; cbn [run] in Hr.
  - injection Hr as <-. exact Hi.
  - destruct (step l w) as [w1 |] eqn:Hs; [| discriminate].
    inversion Hf as [| ? ? Hl Hls]; subst.
    exact (IH _ Hr Hls (step_idle _ _ _ Hs Hl Hi)).
Qed.

(** ** C2: write methods *)

(** C2, as stated, fails: with a signer bound, a write method does not
    always return a subscription.  The closure is not [async], so what
    ethers.js throws while it builds the call, here for [setValue] called
    without its argument, is thrown to the caller. *)
Lemma write_method_ethers_throw_counterexample :
  methods (sample_contract sample_signer) !! "setValue" = Some (WriteFunction setValue_entry)
  /\ Utils.isEthersJsSigner (signer (contract (sample_contract sample_signer))) = true
  /\ ~ (exists s,
          invoke pending_call checking_send (sample_contract sample_signer) "setValue" []
          = Normal (RSubscription s)).
Proof.
  split; [vm_compute; reflexivity |]. split; [reflexivity |].
  intros [s Hs]. vm_compute in Hs. discriminate.
Qed.

Section WriteMethods.

Variable ethers_call : js_value -> string -> list js_value -> promise js_value.
Variable ethers_send : js_value -> string -> list js_value -> completion (promise tx_record).

(** C2 (amended): on every container, a method bound as a write method
    comes from a function entry of the descriptor whose mutability is not
    ["view"].  With no signer bound to the container, invoking it throws
    [MissingSigner] before ethers.js is reached.  With a signer bound, the
    call is handed to ethers.js: what ethers.js throws is thrown to the
    caller and there is no subscription; otherwise the method returns,
    synchronously, a new subscription around the promise of the sent
    transaction, and in the world of that subscription [hasListener] is
    false after every sequence of steps that contains no call of
    [on("confirmation", ...)].  In every case the container is as it
    was. *)
Theorem write_method_requires_signer (c : Contract) (n : string) (f : abi_entry)
    (args : list js_value) :
  built c ->
  methods c !! n = Some (WriteFunction f) ->
  (In f (interface_abi (contract c)) /\ is_function f = true /\ name f = n
   /\ stateMutability f <> Some "view")
  /\ (signer (contract c) = JsNull ->
      invoke ethers_call ethers_send c n args = Abrupt MissingSigner)
  /\ (signer (contract c) <> JsNull ->
      match ethers_send (signer (contract c)) (name f) args with
      | Abrupt e => invoke ethers_call ethers_send c n args = Abrupt e
      | Normal tx =>
          invoke ethers_call ethers_send c n args
          = Normal (RSubscription (new_TransactionSubscription tx))
          /\ forall (ledger : gmap string receipt) (now : Z) (ls : list label) (w : world),
               Forall not_confirmation ls ->
               run ls (spawn (new_TransactionSubscription tx) (provider c) ledger now)
               = Some w ->
               hasListener w = false
      end)
  /\ (call_property ethers_call ethers_send c n args).1 = c.
Proof.
  intros Hb Hm. destruct (built_invariant c Hb) as (Hsig & _ & Hbound).
  split; [apply bound_from_write, Hbound, Hm |].
  unfold invoke, call_property. rewrite Hm. split; [| split].
  - intros ->. reflexivity.
  - intros Hne. destruct Hsig as [Hs | Hs]; [contradiction |]. rewrite Hs. cbn [negb].
    destruct (ethers_send (signer (contract c)) (name f) args) as [tx | e];
      [| reflexivity].
    split; [reflexivity |].
    intros ledger now ls w Hf Hr.
    apply hasListener_false.
    apply (run_idle ls _ w Hr Hf).
    split; [reflexivity | constructor].
  - destruct (negb (Utils.isEthersJsSigner (signer (contract c)))); [reflexivity |].
    destruct (ethers_send (signer (contract c)) (name f) args); reflexivity.
Qed.

End WriteMethods.

(** ** C1: a second confirmation registration *)

Lemma on_confirmation_listening w f :
  hasListener w = true ->
  on "confirmation" (JsFunction f) w
  = (set_unhandled (fun u => u ++ [AlreadyListening]) w, Normal (Fulfilled tt)).
Proof.
  intros H. unfold on, addListener, async. simpl. rewrite H. reflexivity.
Qed.

(** C1, as stated, fails: with a listener attached, [on] does not throw
    [AlreadyListening] to its caller. *)
Lemma on_while_listening_counterexample :
  hasListener listening_world = true
  /\ (on "confirmation" (JsFunction returning) listening_world).2 <> Abrupt AlreadyListening.
Proof.
  split; [reflexivity |].
  rewrite on_confirmation_listening by reflexivity. discriminate.
Qed.

(** C1 (amended): with a confirmation listener [l] attached, a call of
    [on("confirmation", f)] never throws to its caller: [on] is
    asynchronous and hands back a promise.  The registration it starts is
    refused with [AlreadyListening], a rejection of the asynchronous
    [#addListener]; the listener sequence, the provider, the timers and the
    suspended registrations are left as they were.  After the listener is
    removed, a new [on("confirmation", g)] registration succeeds: it
    attaches one listener that calls [g]. *)
Theorem on_confirmation_while_listening (w : world) (f g : callback) (l : listener)
    (t : tx_record) :
  listeners (sub w) = [l] ->
  txPromise (sub w) = Fulfilled t ->
  let r := on "confirmation" (JsFunction f) w in
  (exists p, r.2 = Normal p)
  /\ (addListener "confirmation" f w).2 = Rejected AlreadyListening
  /\ listeners (sub r.1) = [l]
  /\ transport r.1 = transport w /\ timers r.1 = timers w /\ suspended r.1 = suspended w
  /\ exists w' l',
       run [CallRemoveListener; CallOn "confirmation" (JsFunction g);
            Resume (length (suspended w)); Resume (length (suspended w))] r.1 = Some w'
       /\ listeners (sub w') = [l']
       /\ fn_callback (listenerFunction l') = g
       /\ hasListener w' = true
       /\ unhandled w' = unhandled r.1.
Proof.
  intros Hl Ht r.
  assert (Hh : hasListener w = true) by (apply hasListener_true; rewrite Hl; discriminate).
  assert (Hr : r = (set_unhandled (fun u => u ++ [AlreadyListening]) w, Normal (Fulfilled tt))).
  { apply on_confirmation_listening. exact Hh. }
  rewrite Hr. cbn [fst snd].
  split; [eauto |].
  split; [unfold addListener; rewrite Hh; reflexivity |].
  split; [exact Hl |]. repeat (split; [reflexivity |]).
  set (w1 := set_unhandled _ w).
  change (run (CallRemoveListener :: ?ls) w1) with (run ls (removeListener w1)).
  assert (Hrm : removeListener w1
                = provider_removeListener (eventName l) (listenerFunction l)
                    (set_sub (set_listeners []) w1)).
  { apply (removeListener_snoc w1 [] l). exact Hl. }
  rewrite Hrm. set (w2 := provider_removeListener _ _ _).
  destruct (registration_runs w2 g t)
    as (w' & l' & Hrun & Hl' & _ & _ & _ & _ & Hcb & _ & _ & Hun & _).
  { reflexivity. }
  { exact Ht. }
  exists w', l'. split; [exact Hrun |]. split; [exact Hl' |]. split; [exact Hcb |].
  split; [apply hasListener_true; rewrite Hl'; discriminate | exact Hun].
Qed.

(** ** C6: a confirmation callback that fails *)

(** A callback failing with a value that carries a message: the error
    reaches the failure handler, wrapped, and the emitter's promise is
    fulfilled; without a failure handler the error is dropped. *)
Lemma callback_failure_funnelled (w : world) (f : callback) (r : receipt) (error : exn)
    (m : string) :
  let msg := {| data := {| confirmations_of := Some (confirmations r) |} |} in
  f (Msg msg) = CbThrew error ->
  message_of error = Some m ->
  match errorListener (sub w) with
  | Some h =>
      h (Err (CallbackFailure m)) = CbReturned ->
      emitterFunction f (EReceipt r) w
      = (set_trace (fun t => t ++ [ErrorListenerCalled (CallbackFailure m)])
           (set_trace (fun t => t ++ [CallbackCalled msg]) w), Fulfilled tt)
  | None =>
      emitterFunction f (EReceipt r) w
      = (set_trace (fun t => t ++ [CallbackCalled msg]) w, Fulfilled tt)
  end.
Proof.
  intros msg Hf Hm. unfold emitterFunction. fold msg. rewrite Hf, Hm.
  unfold emitErrorEvent. cbn [sub set_trace errorListener].
  destruct (errorListener (sub w)) as [h |]; [| reflexivity].
  intros Hh. rewrite Hh. reflexivity.
Qed.

(** C6 at its failing input: the failure handler is registered, the
    confirmation callback rejects with [undefined]; reading [error.message]
    in the [catch] clause throws, the failure handler is never called and
    the [TypeError] is left as an unhandled rejection. *)
Theorem callback_throwing_nullish_escapes :
  exists w,
    run [CallOn "failed" (JsFunction returning);
         CallOn "confirmation" (JsFunction throwing_nullish);
         Resume 0; Resume 0;
         Emit (hash sample_tx) (EReceipt {| confirmations := 1 |})] resolved_world = Some w
    /\ errorListener (sub w) <> None
    /\ trace w = [CallbackCalled {| data := {| confirmations_of := Some 1 |} |}]
    /\ unhandled w = [TypeError "Cannot read property 'message' of null"].
Proof.
  eexists. split; [vm_compute; reflexivity |]. cbn. repeat split. discriminate.
Qed.

(** ** C7: the multiplicity of the listener sequence *)

(** Every step keeps the sequence at one entry at most, except the one that
    completes a registration. *)
Lemma step_at_most_one l w w' :
  step l w = Some w' ->
  (forall i f h, l = Resume i -> suspended w !! i <> Some (AwaitReceipt f h)) ->
  at_most_one w -> at_most_one w'.
Proof.
  intros Hs Hn Hw. unfold at_most_one in *.
  assert (Hrm : forall w0, listeners (sub w0) = listeners (sub w) ->
                           (length (listeners (sub (removeListener w0))) <= 1)%nat).
  { intros w0 H0.
    destruct (removeListener_frame w0)
      as (_ & _ & _ & _ & _ & _ & _ & _ & _ & _ & _ & _ & Hlen & _).
    cbn zeta in Hlen. rewrite Hlen, H0. lia. }
  destruct l; cbn [step] in Hs.
  - some_inj Hs. destruct (on_preserves trigger callback0 w) as (_ & -> & _). exact Hw.
  - some_inj Hs. apply Hrm. reflexivity.
  - some_inj Hs. apply Hrm. reflexivity.
  - some_inj Hs. apply Hrm. reflexivity.
  - some_inj Hs. apply Hrm. reflexivity.
  - some_inj Hs. exact Hw.
  - destruct (txPromise (sub w)); try discriminate. some_inj Hs. exact Hw.
  - some_inj Hs. exact Hw.
  - some_inj Hs. destruct (frame_emit eventName0 payload w) as [-> _]. exact Hw.
  - unfold resume in Hs.
    destruct (suspended w !! i) as [[f | f h | f h | | h] |] eqn:Hi; try discriminate.
    + cbn in Hs. destruct (txPromise (sub w)); try discriminate; some_inj Hs; exact Hw.
    + exfalso. exact (Hn i f h eq_refl Hi).
    + some_inj Hs.
      match goal with
      | |- context [emitterFunction f ?r ?w0] =>
          destruct (frame_poll_resumed f r w0) as [-> _]
      end.
      exact Hw.
    + cbn in Hs. destruct (txPromise (sub w)); try discriminate; some_inj Hs; exact Hw.
    + cbn in Hs. destruct (getTransactionReceipt h _); try discriminate. some_inj Hs.
      exact Hw.
  - destruct (0 <=? dt); try discriminate. some_inj Hs. exact Hw.
  - destruct (List.find _ (timers w)) as [[id' due] |]; try discriminate.
    destruct (due <=? clock w); try discriminate. some_inj Hs.
    set (wd := set_timers _ w).
    destruct (onTimeout_spec wd) as [-> _].
    apply Hrm. reflexivity.
Qed.

(** C7 at its failing input: two calls of [on("confirmation", ...)] in a
    row on a fresh subscription.  Both pass the [hasListener] check before
    either has pushed its listener; once both registrations have run, the
    listener sequence holds two entries, both registered with the provider,
    and nothing was rejected. *)
Theorem two_registrations_in_a_row :
  exists w,
    run [CallOn "confirmation" (JsFunction returning);
         CallOn "confirmation" (JsFunction returning);
         TxSettles (Normal sample_tx);
         Resume 0; Resume 0; Resume 0; Resume 0] pending_world = Some w
    /\ length (listeners (sub w)) = 2%nat
    /\ length (events (transport w)) = 2%nat
    /\ unhandled w = []
    /\ ~ at_most_one w.
Proof.
  eexists. split; [vm_compute; reflexivity |]. cbn. repeat split.
  unfold at_most_one. cbn. lia.
Qed.

(** * The theorems at concrete inputs *)

(** The sample worlds are worlds a subscription reaches. *)
Lemma awaiting_receipt_world_reached :
  run [CallOn "confirmation" (JsFunction returning); Resume 0] resolved_world
  = Some awaiting_receipt_world.
Proof. reflexivity. Qed.

Lemma listening_world_reached :
  run [CallOn "confirmation" (JsFunction returning); Resume 0; Resume 0] resolved_world
  = Some listening_world.
Proof. reflexivity. Qed.

(** C1 at [listening_world]: the second registration changes nothing, and
    after removal a registration attaches its listener. *)
Lemma on_confirmation_while_listening_witness :
  exists w',
    run [CallRemoveListener; CallOn "confirmation" (JsFunction returning);
         Resume (length (suspended listening_world));
         Resume (length (suspended listening_world))]
        (on "confirmation" (JsFunction returning) listening_world).1 = Some w'
    /\ hasListener w' = true.
Proof.
  destruct (on_confirmation_while_listening listening_world returning returning
              {| eventName := hash sample_tx;
                 listenerFunction := {| fn_id := 0; fn_kind := Emitter;
                                        fn_callback := returning |} |}
              sample_tx eq_refl eq_refl)
    as (_ & _ & _ & _ & _ & _ & w' & l' & Hrun & _ & _ & Hh & _).
  exists w'. split; [exact Hrun | exact Hh].
Defined.

(** The amended C2 on the sample descriptor: [setValue] without a wallet,
    with a wallet, and with a wallet but without its argument. *)
Lemma write_method_requires_signer_witness :
  invoke pending_call checking_send (sample_contract JsUndefined) "setValue" [JsString "x"]
  = Abrupt MissingSigner
  /\ invoke pending_call checking_send (sample_contract sample_signer) "setValue"
       [JsString "x"]
     = Normal (RSubscription (new_TransactionSubscription Pending))
  /\ invoke pending_call checking_send (sample_contract sample_signer) "setValue" []
     = Abrupt (Error "incorrect number of arguments").
Proof.
  split; [| split].
  - apply (write_method_requires_signer pending_call checking_send
             (sample_contract JsUndefined) "setValue" setValue_entry [JsString "x"]).
    + apply (built_new sample_address sample_abi JsUndefined). reflexivity.
    + vm_compute. reflexivity.
    + reflexivity.
  - destruct (write_method_requires_signer pending_call checking_send
                (sample_contract sample_signer) "setValue" setValue_entry [JsString "x"])
      as (_ & _ & H & _).
    + apply (built_new sample_address sample_abi sample_signer). reflexivity.
    + vm_compute. reflexivity.
    + apply H. discriminate.
  - destruct (write_method_requires_signer pending_call checking_send
                (sample_contract sample_signer) "setValue" setValue_entry [])
      as (_ & _ & H & _).
    + apply (built_new sample_address sample_abi sample_signer). reflexivity.
    + vm_compute. reflexivity.
    + apply H. discriminate.
Defined.

(** C3 on the sample descriptor: [value] without a wallet. *)
Lemma read_method_returns_value_witness :
  invoke pending_call pending_send (sample_contract JsUndefined) "value" []
  = Normal (RValue (pending_call JsNull (name value_entry) [])).
Proof.
  apply (read_method_returns_value pending_call pending_send
           (sample_contract JsUndefined) "value" value_entry []).
  - apply (built_new sample_address sample_abi JsUndefined). reflexivity.
  - vm_compute. reflexivity.
  - reflexivity.
Defined.

(** At [mined_world] the block listener asks for the receipt again on each
    firing: after the receipt changed, the callback gets the new count. *)
Lemma block_listener_polls_again :
  exists w,
    run [CallOn "confirmation" (JsFunction returning); Resume 0; Resume 0;
         Mined (hash sample_tx) {| confirmations := 7 |};
         Emit "block" (EBlockNumber 12); Resume 0] mined_world = Some w
    /\ trace w = [CallbackCalled {| data := {| confirmations_of := Some 7 |} |}].
Proof. eexists. split; vm_compute; reflexivity. Qed.

(** C5 at [awaiting_receipt_world]: the timer is due at 2000; it cannot
    fire at once, and 2000 ms later it fires and retires the listener. *)
Lemma timeout_retires_listener_witness :
  exists w1 w w',
    resume 0 awaiting_receipt_world = Some w1
    /\ timers w1 = [(0%nat, 2000)]
    /\ step (FireTimer 0) w1 = None
    /\ run [Tick 2000] w1 = Some w
    /\ step (FireTimer 0) w = Some w'
    /\ hasListener w' = false.
Proof.
  destruct (timeout_retires_listener awaiting_receipt_world 0 returning (hash sample_tx)
              sample_tx eq_refl eq_refl eq_refl)
    as (w1 & Hr & Ht & Hall).
  unfold resume in Hr. cbn in Hr. some_inj Hr.
  eexists. eexists.
  edestruct (Hall listening_world) as [Hearly _].
  - split; cbn; [apply NoDup_singleton | repeat constructor].
  - left. reflexivity.
  - reflexivity.
  - edestruct (Hall (set_clock (fun c => c + 2000) listening_world)) as [_ Hfire].
    + split; cbn; [apply NoDup_singleton | repeat constructor].
    + left. reflexivity.
    + reflexivity.
    + destruct Hfire as (w' & Hs & Hh & _); [vm_compute; discriminate |].
      exists w'. split; [reflexivity |]. split; [reflexivity |].
      split; [apply Hearly; reflexivity |].
      split; [reflexivity |]. split; [exact Hs | exact Hh].
Defined.

(** C10 at [awaiting_receipt_world]: the listener is removed by hand before
    the timeout, then the clock reaches it and the timer still fires. *)
Lemma timer_never_cancelled_witness :
  exists w1 w w',
    resume 0 awaiting_receipt_world = Some w1
    /\ run [CallOn "failed" (JsFunction returning); CallRemoveListener; Tick 2000] w1
       = Some w
    /\ hasListener w = false
    /\ step (FireTimer 0) w = Some w'
    /\ trace w' = trace w ++ [ErrorListenerCalled Timeout].
Proof.
  destruct (timer_never_cancelled awaiting_receipt_world 0 returning (hash sample_tx)
              sample_tx eq_refl eq_refl (spawn_timers_wf _ _ _ _))
    as (w1 & Hr & Hall).
  unfold resume in Hr. cbn in Hr. some_inj Hr.
  eexists. eexists.
  edestruct (Hall [CallOn "failed" (JsFunction returning); CallRemoveListener; Tick 2000])
    as [_ Hfire].
  - vm_compute. reflexivity.
  - repeat constructor; discriminate.
  - destruct Hfire as (w' & Hs & Htr); [vm_compute; discriminate |].
    exists w'. split; [reflexivity |]. split; [vm_compute; reflexivity |].
    split; [reflexivity |]. split; [exact Hs | exact Htr].
Defined.

(** * Further properties *)

(** ** Utils *)

Lemma is_hex_digit_upcase c : Utils.is_hex_digit (upcase c) = Utils.is_hex_digit c.
Proof. destruct c as [[] [] [] [] [] [] [] []]; reflexivity. Qed.

Lemma is_hex_digit_spec c : Utils.is_hex_digit c = true <-> In c hex_digits.
Proof.
  assert (H : Utils.is_hex_digit c = existsb (Ascii.eqb c) hex_digits).
  { destruct c as [[] [] [] [] [] [] [] []]; reflexivity. }
  rewrite H, existsb_exists. split.
  - intros (x & Hx & He). apply Ascii.eqb_eq in He. subst x. exact Hx.
  - intros Hc. exists c. split; [exact Hc | apply Ascii.eqb_refl].
Qed.

Lemma length_list_ascii_of_string s :
  length (list_ascii_of_string s) = String.length s.
Proof. induction s as [| c s IH]; cbn; [reflexivity | rewrite IH; reflexivity]. Qed.

Lemma length_upcase_digits s : String.length (upcase_digits s) = String.length s.
Proof.
  unfold upcase_digits. rewrite <- !length_list_ascii_of_string.
  rewrite list_ascii_of_string_of_list_ascii. apply length_map.
Qed.

Lemma forallb_hex_upcase l :
  forallb Utils.is_hex_digit (map upcase l) = forallb Utils.is_hex_digit l.
Proof.
  induction l as [| c l IH]; cbn; [reflexivity |].
  rewrite is_hex_digit_upcase, IH. reflexivity.
Qed.

Lemma matches_address_spec s :
  Utils.matches_address s = true <->
  exists digits, s = String "0" (String "x" digits)
                 /\ String.length digits = 40%nat
                 /\ Forall (fun ch => In ch hex_digits) (list_ascii_of_string digits).
Proof.
  assert (Hbody : forall digits,
    Nat.eqb (String.length digits) 40
    && forallb Utils.is_hex_digit (list_ascii_of_string digits) = true
    <-> String.length digits = 40%nat
        /\ Forall (fun ch => In ch hex_digits) (list_ascii_of_string digits)).
  { intros digits. rewrite andb_true_iff, Nat.eqb_eq, forallb_forall, List.Forall_forall.
    split; intros [Hl Hd]; (split; [exact Hl |]); intros ch Hch;
      apply is_hex_digit_spec, Hd, Hch. }
  split.
  - intros H. destruct s as [| c0 [| c1 digits]]; cbn in H; try discriminate;
      try (destruct c0 as [[] [] [] [] [] [] [] []]; discriminate).
    destruct c0 as [[] [] [] [] [] [] [] []]; try discriminate.
    destruct c1 as [[] [] [] [] [] [] [] []]; try discriminate.
    exists digits. split; [reflexivity |]. apply Hbody. exact H.
  - intros (digits & -> & Hd). cbn. apply Hbody. exact Hd.
Qed.

(** X1: [isAddress] accepts exactly the strings made of ["0x"] followed by
    40 characters of [[0-9A-Fa-f]]; an accepted value has 42 characters;
    and acceptance does not depend on the case of the hex letters (no
    checksum is looked at). *)
Theorem isAddress_length_and_case :
  (forall v, Utils.isAddress v = true <->
     exists digits, v = JsString (String "0" (String "x" digits))
                    /\ String.length digits = 40%nat
                    /\ Forall (fun ch => In ch hex_digits) (list_ascii_of_string digits))
  /\ (forall v, Utils.isAddress v = true ->
        exists s, v = JsString s /\ String.length s = 42%nat)
  /\ (forall digits,
        Utils.isAddress (JsString (String "0" (String "x" (upcase_digits digits))))
        = Utils.isAddress (JsString (String "0" (String "x" digits)))).
Proof.
  assert (Hiff : forall v, Utils.isAddress v = true <->
     exists digits, v = JsString (String "0" (String "x" digits))
                    /\ String.length digits = 40%nat
                    /\ Forall (fun ch => In ch hex_digits) (list_ascii_of_string digits)).
  { intros v. split.
    - intros Hv. destruct v as [| | | | s | | |]; cbn in Hv; try discriminate.
      apply matches_address_spec in Hv. destruct Hv as (digits & -> & Hd).
      exists digits. split; [reflexivity | exact Hd].
    - intros (digits & -> & Hd). cbn [Utils.isAddress]. apply matches_address_spec.
      exists digits. split; [reflexivity | exact Hd]. }
  split; [exact Hiff |]. split.
  - intros v Hv. apply Hiff in Hv. destruct Hv as (digits & -> & Hl & _).
    eexists. split; [reflexivity |]. cbn. rewrite Hl. reflexivity.
  - intros digits. cbn. rewrite length_upcase_digits.
    unfold upcase_digits. rewrite list_ascii_of_string_of_list_ascii.
    rewrite forallb_hex_upcase. reflexivity.
Qed.

(** X1 at the sample address and its upper-case spelling. *)
Lemma isAddress_length_and_case_witness :
  (exists digits, sample_address = JsString (String "0" (String "x" digits))
                  /\ String.length digits = 40%nat
                  /\ Forall (fun ch => In ch hex_digits) (list_ascii_of_string digits))
  /\ Utils.isAddress (JsString "0x88A5C2D9919E46F883EB62F7B8DD9D0CC45BC290") = true.
Proof.
  destruct isAddress_length_and_case as (Hshape & _ & Hcase). split.
  - apply (Hshape sample_address). reflexivity.
  - exact (Hcase "88a5C2d9919e46F883EB62F7b8Dd9d0CC45bc290").
Defined.

(** ** The properties of an instance *)

(** The table after binding a descriptor over an existing table. *)
Lemma addFunctionsToContract_lookup_last abi this n :
  addFunctionsToContract abi this !! n
  = match last_function abi n with
    | Some f => Some (closure_of f)
    | None => this !! n
    end.
Proof.
  unfold addFunctionsToContract, last_function. revert this.
  induction abi as [| e abi IH]; intros this; cbn; [reflexivity |].
  assert (Hins : forall this',
            (if isWrite e then attachWriteFunction e this' else attachReadFunction e this')
            = <[name e := closure_of e]> this').
  { intros this'. unfold closure_of, attachWriteFunction, attachReadFunction.
    destruct (isWrite e); reflexivity. }
  destruct (is_function e) eqn:He; cbn.
  - rewrite IH, Hins.
    destruct (String.eqb_spec (name e) n) as [Hn | Hn]; cbn.
    + rewrite last_cons.
      destruct (last (List.filter _ abi)); [reflexivity |].
      subst n. apply lookup_insert_eq.
    + destruct (last (List.filter _ abi)); [reflexivity |].
      apply lookup_insert_ne. exact Hn.
  - apply IH.
Qed.

Lemma last_function_Some abi n f :
  last_function abi n = Some f -> In f abi /\ is_function f = true /\ name f = n.
Proof.
  unfold last_function. intros H.
  assert (Hin : In f (List.filter (fun f => is_function f && String.eqb (name f) n) abi)).
  { apply list_elem_of_In. apply last_Some_elem_of. exact H. }
  apply filter_In in Hin. destruct Hin as [Hin Hp].
  apply andb_true_iff in Hp. destruct Hp as [Hf Hn]. apply String.eqb_eq in Hn. auto.
Qed.

Lemma last_function_None abi n :
  last_function abi n = None <->
  (forall f, In f abi -> is_function f = true -> name f <> n).
Proof.
  unfold last_function. rewrite last_None. split.
  - intros H f Hin Hf Hn.
    assert (Hx : In f (List.filter (fun f => is_function f && String.eqb (name f) n) abi)).
    { apply filter_In. split; [exact Hin |]. rewrite Hf. cbn. apply String.eqb_eq, Hn. }
    rewrite H in Hx. exact Hx.
  - intros H. destruct (List.filter _ abi) as [| f l] eqn:Hl; [reflexivity |].
    assert (Hx : In f (List.filter (fun f => is_function f && String.eqb (name f) n) abi)).
    { rewrite Hl. left. reflexivity. }
    apply filter_In in Hx. destruct Hx as [Hin Hp].
    apply andb_true_iff in Hp. destruct Hp as [Hf Hn]. apply String.eqb_eq in Hn.
    exfalso. exact (H f Hin Hf Hn).
Qed.

(** What holds of every built container: its address is well-formed and
    its properties are the binding of its descriptor over the class's
    fields. *)
Lemma built_table c :
  built c ->
  Utils.isAddress (JsString (address (contract c))) = true
  /\ forall n, methods c !! n
               = match last_function (interface_abi (contract c)) n with
                 | Some f => Some (closure_of f)
                 | None => own_fields !! n
                 end.
Proof.
  assert (Hinit : forall a items wallet prov this c',
    (forall n, last_function items n = None -> this !! n = own_fields !! n) ->
    Utils.isAddress (JsString a) = true ->
    (initializeContract (JsString a) (JsArray items) wallet prov this).2 = Normal c' ->
    Utils.isAddress (JsString (address (contract c'))) = true
    /\ forall n, methods c' !! n
                 = match last_function (interface_abi (contract c')) n with
                   | Some f => Some (closure_of f)
                   | None => own_fields !! n
                   end).
  { intros a items wallet prov this c' Hthis Ha.
    destruct (initializeContract_cases (JsString a) (JsArray items) wallet prov this)
      as [[_ ->] | [[_ ->] | (a' & items' & [= <-] & [= <-] & _ & Hs & ->)]];
      cbn; try discriminate.
    intros [= <-]. cbn. split; [exact Ha |].
    intros n. rewrite addFunctionsToContract_lookup_last.
    change (last (List.filter (fun f => is_function f && String.eqb (name f) n) items))
      with (last_function items n).
    destruct (last_function items n) eqn:Hl; [reflexivity |].
    apply Hthis. exact Hl. }
  induction 1 as [address abi wallet c Hc | c wallet c' Hb [IHa IHm] Hc
                  | c c' Hb [IHa IHm] Hc].
  - unfold new_Contract in Hc. cbn in Hc.
    destruct (initializeContract_cases address abi wallet getDefaultProvider own_fields)
      as [[_ Hx] | [[_ Hx] | (a & items & -> & -> & Ha & _)]];
      try (cbn zeta in Hx; rewrite Hx in Hc; discriminate).
    apply (Hinit a items wallet getDefaultProvider own_fields c); [| exact Ha | exact Hc].
    intros n _. reflexivity.
  - unfold setWallet in Hc.
    destruct (negb (Utils.isEthersJsSigner wallet)); [discriminate |].
    apply (Hinit _ _ _ _ _ _) in Hc; [exact Hc | | exact IHa].
    intros n Hl. rewrite IHm, Hl. reflexivity.
  - unfold removeWallet in Hc.
    apply (Hinit _ _ _ _ _ _) in Hc; [exact Hc | | exact IHa].
    intros n Hl. rewrite IHm, Hl. reflexivity.
Qed.

(** X2: on every built container, what the class has stored under a name
    is the closure of the last function entry of the descriptor with that
    name (read when its [stateMutability] is ["view"], write otherwise),
    also when the name is that of one of the class's own fields, which is
    then shadowed; without such an entry it is the class's field of that
    name, if there is one, and otherwise the class has stored nothing under
    it.  A later overload replaces an earlier one and entries that are not
    functions are never bound. *)
Theorem built_methods_last_entry (c : Contract) (n : string) :
  built c ->
  methods c !! n
  = match last_function (interface_abi (contract c)) n with
    | Some f => Some (closure_of f)
    | None => own_fields !! n
    end
  /\ (forall f, methods c !! n = Some (ReadFunction f) \/ methods c !! n = Some (WriteFunction f) ->
        last_function (interface_abi (contract c)) n = Some f
        /\ In f (interface_abi (contract c)) /\ is_function f = true /\ name f = n
        /\ methods c !! n = Some (closure_of f))
  /\ (forall k, methods c !! n = Some (OwnField k) <->
        own_fields !! n = Some (OwnField k)
        /\ forall f, In f (interface_abi (contract c)) -> is_function f = true -> name f <> n)
  /\ (methods c !! n = None <->
      own_fields !! n = None
      /\ forall f, In f (interface_abi (contract c)) -> is_function f = true -> name f <> n).
Proof.
  intros Hb. destruct (built_table c Hb) as [_ Hm]. rewrite Hm.
  split; [reflexivity |].
  pose proof (last_function_None (interface_abi (contract c)) n) as Hnone.
  destruct (last_function (interface_abi (contract c)) n) as [g |] eqn:Hl.
  - assert (Hne : ~ (forall f, In f (interface_abi (contract c)) ->
                       is_function f = true -> name f <> n)).
    { intros H. apply Hnone in H. discriminate H. }
    split; [| split].
    + intros f Hf.
      assert (Hg : f = g).
      { unfold closure_of in Hf. destruct (isWrite g), Hf as [Hf | Hf]; congruence. }
      subst g. destruct (last_function_Some _ _ _ Hl) as (Hin & Hfun & Hn). auto.
    + intros k. unfold closure_of. destruct (isWrite g); split;
        [intros H; discriminate H | intros [_ H]; contradiction
        | intros H; discriminate H | intros [_ H]; contradiction].
    + unfold closure_of. destruct (isWrite g); split;
        [intros H; discriminate H | intros [_ H]; contradiction
        | intros H; discriminate H | intros [_ H]; contradiction].
  - assert (Hall : forall f, In f (interface_abi (contract c)) ->
                     is_function f = true -> name f <> n).
    { apply Hnone. reflexivity. }
    split; [| split].
    + intros f [Hf | Hf]; destruct (own_fields_lookup _ _ Hf) as [k Hk]; discriminate.
    + intros k. split; [auto | tauto].
    + split; [auto | tauto].
Qed.






(** X2 on a descriptor with two overloads of [transfer] and an event
    [Transfer]: the later overload, a write, is what is bound, the event is
    not, and [getAddress] is the class's; and on a descriptor with a
    function [getAddress]: that function is what [getAddress] holds. *)
Lemma built_methods_last_entry_witness :
  methods overloaded_contract !! "transfer" = Some (WriteFunction transfer_entry)
  /\ methods overloaded_contract !! "Transfer" = None
  /\ methods overloaded_contract !! "getAddress" = Some (OwnField GetAddress)
  /\ methods shadowing_contract !! "getAddress" = Some (ReadFunction getAddress_entry).
Proof.
  assert (Hb : built overloaded_contract).
  { apply (built_new sample_address (JsArray overloaded_abi) JsUndefined). reflexivity. }
  assert (Hs : built shadowing_contract).
  { apply (built_new sample_address (JsArray shadowing_abi) JsUndefined). reflexivity. }
  split; [| split; [| split]].
  - destruct (built_methods_last_entry overloaded_contract "transfer" Hb) as [H _].
    rewrite H. reflexivity.
  - destruct (built_methods_last_entry overloaded_contract "Transfer" Hb) as [H _].
    rewrite H. reflexivity.
  - destruct (built_methods_last_entry overloaded_contract "getAddress" Hb) as [H _].
    rewrite H. reflexivity.
  - destruct (built_methods_last_entry shadowing_contract "getAddress" Hs) as [H _].
    rewrite H. reflexivity.
Defined.

Section Rebinding.

Variable ethers_call : js_value -> string -> list js_value -> promise js_value.
Variable ethers_send : js_value -> string -> list js_value -> completion (promise tx_record).



End Rebinding.



(** ** Event subscriptions *)

Section SubscribeFacts.

Variable interface_events : list abi_entry -> string -> bool.

Lemma find_first {A : Type} (P : A -> bool) (l : list A) :
  match List.find P l with
  | Some x => exists before after,
      l = before ++ x :: after /\ Forall (fun y => P y = false) before /\ P x = true
  | None => Forall (fun y => P y = false) l
  end.
Proof.
  induction l as [| a l IH]; cbn; [constructor |].
  destruct (P a) eqn:Ha.
  - exists [], l. repeat split; [constructor | exact Ha].
  - destruct (List.find P l) as [x |].
    + destruct IH as (before & after & -> & Hb & Hx).
      exists (a :: before), after. repeat split; [constructor; auto | exact Hx].
    + constructor; auto.
Qed.

(** X5: [subscribe] succeeds exactly when every requested name has an
    event on the ethers contract, and then the subscription holds the
    requested names as they were given (the empty request succeeds); when
    it fails, the error names the first requested name without an event. *)
Theorem subscribe_first_unknown (eventNames : list string) (c : Contract) :
  let known := interface_events (interface_abi (contract c)) in
  (Forall (fun n => known n = true) eventNames <->
   subscribe interface_events eventNames c = Normal {| eventNames := eventNames |})
  /\ (forall e, subscribe interface_events eventNames c = Abrupt e ->
        exists before n after,
          eventNames = before ++ n :: after
          /\ Forall (fun m => known m = true) before
          /\ known n = false
          /\ e = EventNotFound n).
Proof.
  intros known. unfold subscribe. fold known.
  pose proof (find_first (fun n => negb (known n)) eventNames) as Hf.
  destruct (List.find (fun n => negb (known n)) eventNames) as [x |].
  - destruct Hf as (before & after & -> & Hb & Hx). apply negb_true_iff in Hx.
    split.
    + split; [| discriminate]. intros Hall.
      apply Forall_app in Hall. destruct Hall as [_ Hall].
      inversion Hall as [| ? ? Hk _]; subst. congruence.
    + intros e [= <-]. exists before, x, after. repeat split; auto.
      eapply Forall_impl; [exact Hb |]. cbn. intros y Hy.
      apply negb_false_iff in Hy. exact Hy.
  - split; [| discriminate].
    split; [reflexivity |]. intros _.
    eapply Forall_impl; [exact Hf |]. cbn. intros y Hy.
    apply negb_false_iff in Hy. exact Hy.
Qed.

Lemma subscribe_known (eventNames : list string) (c : Contract) (s : EventSubscription) :
  subscribe interface_events eventNames c = Normal s ->
  s = {| eventNames := eventNames |}
  /\ Forall (fun n => interface_events (interface_abi (contract c)) n = true) eventNames.
Proof.
  unfold subscribe.
  pose proof (find_first
                (fun n => negb (interface_events (interface_abi (contract c)) n))
                eventNames) as Hf.
  destruct (List.find _ eventNames) as [x |]; [discriminate |].
  intros [= <-]. split; [reflexivity |].
  eapply Forall_impl; [exact Hf |]. cbn. intros y Hy.
  apply negb_false_iff in Hy. exact Hy.
Qed.

(** X6: on the subscription [subscribe] returns, [on(eventName, callback)]
    returns exactly for the requested names, each of which has an event on
    the ethers contract, and throws [NotSubscribed] for every other name;
    the callback is not looked at: anything is accepted in its place. *)
Theorem subscribed_names_only (eventNames : list string) (c : Contract)
    (s : EventSubscription) (eventName : string) (callback : js_value) :
  subscribe interface_events eventNames c = Normal s ->
  (In eventName eventNames ->
     EventSubscription_on eventName callback s = Normal tt
     /\ interface_events (interface_abi (contract c)) eventName = true)
  /\ (~ In eventName eventNames ->
        EventSubscription_on eventName callback s = Abrupt (NotSubscribed eventName)).
Proof.
  intros Hs.
  destruct (subscribe_known eventNames c s Hs) as [-> Hall].
  unfold EventSubscription_on. cbn.
  destruct (existsb (String.eqb eventName) eventNames) eqn:He.
  - apply existsb_exists in He. destruct He as (x & Hin & Hx).
    apply String.eqb_eq in Hx. subst x.
    split; [| intros Hn; contradiction].
    intros _. split; [reflexivity |].
    rewrite List.Forall_forall in Hall. exact (Hall _ Hin).
  - split; [| reflexivity].
    intros Hin. exfalso.
    assert (Hex : existsb (String.eqb eventName) eventNames = true).
    { apply existsb_exists. exists eventName. split; [exact Hin | apply String.eqb_refl]. }
    congruence.
Qed.

End SubscribeFacts.

(** X5 on the overloaded descriptor: the first name without an event is the
    one reported. *)
Lemma subscribe_first_unknown_witness :
  subscribe events_by_name ["Transfer"; "Approval"; "Burn"] overloaded_contract
  = Abrupt (EventNotFound "Approval")
  /\ subscribe events_by_name [] overloaded_contract = Normal {| eventNames := [] |}.
Proof.
  split.
  - destruct (subscribe_first_unknown events_by_name ["Transfer"; "Approval"; "Burn"]
                overloaded_contract) as [_ H].
    reflexivity.
  - apply (subscribe_first_unknown events_by_name [] overloaded_contract). constructor.
Defined.

(** X6 on the overloaded descriptor, with [undefined] for a callback. *)
Lemma subscribed_names_only_witness :
  EventSubscription_on "Transfer" JsUndefined {| eventNames := ["Transfer"] |} = Normal tt
  /\ EventSubscription_on "Approval" JsUndefined {| eventNames := ["Transfer"] |}
     = Abrupt (NotSubscribed "Approval").
Proof.
  split.
  - apply (subscribed_names_only events_by_name ["Transfer"] overloaded_contract
             {| eventNames := ["Transfer"] |} "Transfer" JsUndefined eq_refl).
    left. reflexivity.
  - apply (subscribed_names_only events_by_name ["Transfer"] overloaded_contract
             {| eventNames := ["Transfer"] |} "Approval" JsUndefined eq_refl).
    intros [H | []]. discriminate.
Defined.

(** ** The promise [on] returns *)

(** X7: the promise [on] returns is rejected only by its two validations,
    the trigger first; in both cases nothing is changed.  With a valid
    trigger and a function it is fulfilled at once, whether the
    registration was refused or is still waiting for the transaction, and
    nothing is attached yet when it is. *)
Theorem on_returned_promise (trigger : string) (callback : js_value) (w : world) :
  let valid := existsb (String.eqb trigger) triggers in
  let callable := match callback with JsFunction _ => true | _ => false end in
  (valid = false -> on trigger callback w = (w, Normal (Rejected InvalidTrigger)))
  /\ (valid = true -> callable = false ->
      on trigger callback w = (w, Normal (Rejected NotAFunction)))
  /\ (valid = true -> callable = true ->
      (on trigger callback w).2 = Normal (Fulfilled tt)
      /\ listeners (sub (on trigger callback w).1) = listeners (sub w)
      /\ transport (on trigger callback w).1 = transport w
      /\ timers (on trigger callback w).1 = timers w).
Proof.
  intros valid callable. unfold on, async. fold valid.
  destruct valid; cbn [negb fst snd]; split; try discriminate; try (intros _; reflexivity);
    split; try discriminate.
  - intros _ Hc. destruct callback; try discriminate Hc; reflexivity.
  - intros _ Hc. destruct callback; try discriminate Hc.
    destruct (String.eqb trigger "failed"); cbn [fst snd].
    + repeat split; reflexivity.
    + unfold addListener. destruct (hasListener w); repeat split; reflexivity.
Qed.

(** X7 at [listening_world]: a refused second registration, a bad trigger
    and a missing callback. *)
Lemma on_returned_promise_witness :
  (on "confirmation" (JsFunction returning) listening_world).2 = Normal (Fulfilled tt)
  /\ on "mined" JsUndefined listening_world
     = (listening_world, Normal (Rejected InvalidTrigger))
  /\ on "failed" JsUndefined listening_world
     = (listening_world, Normal (Rejected NotAFunction)).
Proof.
  split; [| split].
  - apply (on_returned_promise "confirmation" (JsFunction returning) listening_world);
      reflexivity.
  - apply (on_returned_promise "mined" JsUndefined listening_world). reflexivity.
  - apply (on_returned_promise "failed" JsUndefined listening_world); reflexivity.
Defined.

(** ** A transaction that fails *)

(** X8: when the write's promise is rejected, a confirmation registration
    ends at [await this.#txPromise]: nothing is attached, no timer is
    started, the failure handler is not called, and the rejection is left
    unhandled. *)
Theorem rejected_transaction_registration (w : world) (f : callback) (e : exn) :
  hasListener w = false ->
  txPromise (sub w) = Rejected e ->
  exists w',
    run [CallOn "confirmation" (JsFunction f); Resume (length (suspended w))] w = Some w'
    /\ sub w' = sub w /\ transport w' = transport w /\ timers w' = timers w
    /\ suspended w' = suspended w /\ trace w' = trace w
    /\ unhandled w' = unhandled w ++ [e].
Proof.
  intros Hh Ht. cbn [run step].
  rewrite on_confirmation_idle by exact Hh. cbn [fst].
  unfold resume. cbn [suspended suspend set_suspended].
  rewrite (list_lookup_middle (suspended w) [] (AwaitTx f) _ eq_refl).
  cbn. rewrite Ht. eexists. split; [reflexivity |]. cbn.
  rewrite (delete_middle (suspended w) [] (AwaitTx f)), app_nil_r.
  repeat split; reflexivity.
Qed.

(** X8 at [rejected_world], with a failure handler registered first. *)
Lemma rejected_transaction_registration_witness :
  exists w',
    run [CallOn "confirmation" (JsFunction returning);
         Resume (length (suspended (on "failed" (JsFunction returning) rejected_world).1))]
        (on "failed" (JsFunction returning) rejected_world).1 = Some w'
    /\ trace w' = []
    /\ unhandled w' = [Error "insufficient funds"].
Proof.
  destruct (rejected_transaction_registration
              (on "failed" (JsFunction returning) rejected_world).1 returning
              (Error "insufficient funds") eq_refl eq_refl)
    as (w' & Hr & _ & _ & _ & _ & Htr & Hun).
  exists w'. split; [exact Hr |]. split; [exact Htr | exact Hun].
Defined.

(** ** The failure handler *)

Lemma finishAddListener_errorListener callback receipt w :
  errorListener (sub (finishAddListener callback receipt w)) = errorListener (sub w).
Proof.
  unfold finishAddListener. destruct receipt as [r |]; cbn.
  - rewrite last_snoc. reflexivity.
  - destruct (tx (sub w)); cbn; [rewrite last_snoc |]; reflexivity.
Qed.

Lemma on_errorListener trigger callback w :
  ~ sets_failure_handler (CallOn trigger callback) ->
  errorListener (sub (on trigger callback w).1) = errorListener (sub w).
Proof.
  intros Hn. unfold on, async, addListener. cbn [fst snd].
  destruct (negb (existsb (String.eqb trigger) triggers)); [reflexivity |].
  destruct callback; try reflexivity.
  destruct (String.eqb_spec trigger "failed") as [-> | Hne].
  - exfalso. apply Hn. eexists. reflexivity.
  - destruct (hasListener w); reflexivity.
Qed.

Lemma step_keeps_errorListener l w w' :
  step l w = Some w' -> ~ sets_failure_handler l ->
  errorListener (sub w') = errorListener (sub w).
Proof.
  intros Hs Hn. destruct l; cbn [step] in Hs.
  - some_inj Hs. apply on_errorListener. exact Hn.
  - some_inj Hs. apply removeListener_frame.
  - some_inj Hs. apply removeListener_frame.
  - some_inj Hs. apply removeListener_frame.
  - some_inj Hs. apply removeListener_frame.
  - some_inj Hs. reflexivity.
  - destruct (txPromise (sub w)); try discriminate. some_inj Hs. reflexivity.
  - some_inj Hs. reflexivity.
  - some_inj Hs. destruct (frame_emit eventName0 payload w) as [-> _]. reflexivity.
  - unfold resume in Hs.
    destruct (suspended w !! i) as [[f | f h | f h | | h] |]; try discriminate.
    + cbn in Hs. destruct (txPromise (sub w)); try discriminate; some_inj Hs;
        reflexivity.
    + some_inj Hs.
      exact (finishAddListener_errorListener f _ (set_suspended (delete i) w)).
    + some_inj Hs.
      match goal with
      | |- context [emitterFunction f ?r ?w0] =>
          destruct (frame_poll_resumed f r w0) as [Hsub _]
      end.
      rewrite Hsub. reflexivity.
    + cbn in Hs. destruct (txPromise (sub w)); try discriminate; some_inj Hs;
        reflexivity.
    + cbn in Hs. destruct (getTransactionReceipt h _); try discriminate. some_inj Hs.
      reflexivity.
  - destruct (0 <=? dt); try discriminate. some_inj Hs. reflexivity.
  - destruct (List.find _ (timers w)) as [[id' due] |]; try discriminate.
    destruct (due <=? clock w); try discriminate. some_inj Hs.
    set (wd := set_timers _ w).
    destruct (onTimeout_spec wd) as [-> _].
    apply (removeListener_frame wd).
Qed.

(** X9: the failure handler is a single slot that nothing empties: every
    [on("failed", g)] with a function replaces it by [g], and every other
    step of the subscription's life (removals, deliveries, timeouts,
    registrations) leaves the registered handler in place. *)
Theorem failure_handler_stays (ls : list label) (w w' : world) :
  run ls w = Some w' ->
  (forall g, errorListener (sub (on "failed" (JsFunction g) w').1) = Some g)
  /\ (Forall (fun l => ~ sets_failure_handler l) ls ->
      errorListener (sub w') = errorListener (sub w)).
Proof.
  intros Hr. split; [intros g; reflexivity |].
  revert w Hr. induction ls as [| l ls IH]; intros w Hr Hf; cbn [run] in Hr.
  - some_inj Hr. reflexivity.
  - destruct (step l w) as [w1 |] eqn:Hs; [| discriminate].
    inversion Hf as [| ? ? Hl Hls]; subst.
    rewrite (IH _ Hr Hls). exact (step_keeps_errorListener _ _ _ Hs Hl).
Qed.

(** X9 at [listening_world]: the handler survives removal and timeout. *)
Lemma failure_handler_stays_witness :
  exists w',
    run [CallRemoveListener; Tick 2000; FireTimer 0; CallUnsubscribe]
        (on "failed" (JsFunction returning) listening_world).1 = Some w'
    /\ errorListener (sub w') = Some returning.
Proof.
  eexists. split; [vm_compute; reflexivity |].
  apply (failure_handler_stays
           [CallRemoveListener; Tick 2000; FireTimer 0; CallUnsubscribe]
           (on "failed" (JsFunction returning) listening_world).1).
  - vm_compute. reflexivity.
  - repeat constructor; intros [g Hg]; discriminate.
Defined.

(** ** Deliveries *)

(** A callback failing with a value that carries a message, whatever the
    failure handler does. *)
Lemma callback_failure_handled (w : world) (f : callback) (r : receipt) (error : exn)
    (m : string) :
  f (Msg (message_for r)) = CbThrew error ->
  message_of error = Some m ->
  let called := set_trace (fun tr => tr ++ [CallbackCalled (message_for r)]) w in
  let told := set_trace (fun tr => tr ++ [ErrorListenerCalled (CallbackFailure m)]) called in
  floating (emitterFunction f (EReceipt r) w).2 (emitterFunction f (EReceipt r) w).1
  = match errorListener (sub w) with
    | Some h =>
        match h (Err (CallbackFailure m)) with
        | CbReturned => told
        | CbThrew v => set_unhandled (fun u => u ++ [v]) told
        end
    | None => called
    end.
Proof.
  intros Hf Hm. cbv zeta. unfold emitterFunction. fold (message_for r). rewrite Hf, Hm.
  unfold emitErrorEvent. cbn [sub set_trace errorListener].
  destruct (errorListener (sub w)) as [h |]; [| reflexivity].
  destruct (h (Err (CallbackFailure m))); reflexivity.
Qed.

(** X12: on a subscription whose one listener is keyed on the transaction
    hash, the receipt the provider delivers reaches the callback as
    [message.data.confirmations].  When the callback fails with an error
    that carries a message, the failure handler, if one is registered, is
    called with the wrapped error: when the handler returns nothing is left
    unhandled, and when the handler itself throws, what it threw is left as
    an unhandled rejection; without a failure handler the error is
    dropped. *)
Theorem confirmation_delivery (w : world) (l : listener) (t : tx_record) (r : receipt) :
  events (transport w) = [entry l] ->
  eventName l = hash t ->
  fn_kind (listenerFunction l) = Emitter ->
  let f := fn_callback (listenerFunction l) in
  let called := set_trace (fun tr => tr ++ [CallbackCalled (message_for r)]) w in
  (f (Msg (message_for r)) = CbReturned -> emit (hash t) (EReceipt r) w = called)
  /\ (forall error m,
        f (Msg (message_for r)) = CbThrew error -> message_of error = Some m ->
        let told :=
          set_trace (fun tr => tr ++ [ErrorListenerCalled (CallbackFailure m)]) called in
        emit (hash t) (EReceipt r) w
        = match errorListener (sub w) with
          | Some h =>
              match h (Err (CallbackFailure m)) with
              | CbReturned => told
              | CbThrew v => set_unhandled (fun u => u ++ [v]) told
              end
          | None => called
          end).
Proof.
  intros He Hn Hk f called.
  assert (Hemit : emit (hash t) (EReceipt r) w
                  = floating (emitterFunction f (EReceipt r) w).2
                             (emitterFunction f (EReceipt r) w).1).
  { unfold emit. rewrite He. cbn. rewrite Hn, String.eqb_refl.
    unfold invoke_listener. rewrite Hk. reflexivity. }
  rewrite Hemit. split.
  - intros Hf. unfold emitterFunction. fold (message_for r). rewrite Hf. reflexivity.
  - intros error m Hf Hm. exact (callback_failure_handled w f r error m Hf Hm).
Qed.

(** X12 at [listening_world], and at [listening_world] with a failing
    callback's world: a failure handler that throws leaves what it threw
    unhandled. *)
Lemma confirmation_delivery_witness :
  emit (hash sample_tx) (EReceipt {| confirmations := 1 |}) listening_world
  = set_trace (fun tr => tr ++ [CallbackCalled (message_for {| confirmations := 1 |})])
      listening_world
  /\ unhandled (emit (hash sample_tx) (EReceipt {| confirmations := 1 |})
                  failing_world)
     = [Error "boom"].
Proof.
  split.
  - apply (confirmation_delivery listening_world
             {| eventName := hash sample_tx;
                listenerFunction := {| fn_id := 0; fn_kind := Emitter;
                                       fn_callback := returning |} |}
             sample_tx {| confirmations := 1 |} eq_refl eq_refl eq_refl).
    reflexivity.
  - destruct (confirmation_delivery failing_world
                {| eventName := hash sample_tx;
                   listenerFunction := {| fn_id := 0; fn_kind := Emitter;
                                          fn_callback := throwing |} |}
                sample_tx {| confirmations := 1 |} eq_refl eq_refl eq_refl) as [_ H].
    rewrite (H (Error "boom") "boom" eq_refl eq_refl). reflexivity.
Defined.

(** ** After the timeout *)

(** X13: after the timeout retired the listener, a new confirmation
    registration on the same subscription is accepted: it attaches its
    listener and starts a timer of its own, and the timer that fired is
    gone. *)
Theorem resubscription_after_timeout (w : world) (id : nat) (due : Z) (l : listener)
    (g : callback) (t : tx_record) :
  timers_wf w ->
  In (id, due) (timers w) ->
  due <= clock w ->
  listeners (sub w) = [l] ->
  txPromise (sub w) = Fulfilled t ->
  exists w' l',
    run [FireTimer id; CallOn "confirmation" (JsFunction g);
         Resume (length (suspended w)); Resume (length (suspended w))] w = Some w'
    /\ listeners (sub w') = [l']
    /\ fn_callback (listenerFunction l') = g
    /\ hasListener w' = true
    /\ In (next_timer w, clock w + timeout (sub w)) (timers w')
    /\ ~ In (id, due) (timers w').
Proof.
  intros Hwf Hin Hdue Hl Ht.
  destruct (fire_due_timer w id due Hwf Hin) as [_ Hfire].
  cbn [run]. rewrite (Hfire Hdue).
  set (wd := set_timers _ w). set (w1 := onTimeout wd).
  destruct (onTimeout_spec wd) as (Hs & Htr & Hti & Hsu & Hcl & _ & _ & Hnt & _).
  fold w1 in Hs, Htr, Hti, Hsu, Hcl, Hnt.
  assert (Hrm : removeListener wd
                = provider_removeListener (eventName l) (listenerFunction l)
                    (set_sub (set_listeners []) wd)).
  { apply (removeListener_snoc wd [] l). exact Hl. }
  rewrite Hrm in Hs.
  assert (Hh1 : hasListener w1 = false).
  { apply hasListener_false. rewrite Hs. reflexivity. }
  assert (Ht1 : txPromise (sub w1) = Fulfilled t) by (rewrite Hs; exact Ht).
  destruct (registration_runs w1 g t Hh1 Ht1)
    as (w' & l' & Hrun & Hl' & _ & Hti' & _ & _ & Hcb & _).
  rewrite Hsu in Hrun. change (suspended wd) with (suspended w) in Hrun.
  exists w', l'. split; [exact Hrun |]. split; [exact Hl' |]. split; [exact Hcb |].
  split; [apply hasListener_true; rewrite Hl'; discriminate |].
  rewrite Hti', Hti, Hnt, Hcl, Hs. cbn.
  assert (Hlt : (id < next_timer w)%nat).
  { destruct Hwf as [_ Hlt]. rewrite List.Forall_forall in Hlt. exact (Hlt _ Hin). }
  split.
  - apply in_or_app. right. left. reflexivity.
  - intros Hx. apply in_app_or in Hx. destruct Hx as [Hx | [Hx | []]].
    + apply filter_In in Hx. destruct Hx as [_ Hx]. cbn in Hx.
      rewrite Nat.eqb_refl in Hx. discriminate.
    + injection Hx as Hx _. lia.
Qed.

(** X13 at [listening_world], 2000 ms later. *)
Lemma resubscription_after_timeout_witness :
  exists w',
    run [FireTimer 0; CallOn "confirmation" (JsFunction returning); Resume 0; Resume 0]
        (set_clock (fun c => c + 2000) listening_world) = Some w'
    /\ hasListener w' = true
    /\ In (1%nat, 4000) (timers w').
Proof.
  destruct (resubscription_after_timeout
              (set_clock (fun c => c + 2000) listening_world) 0 2000
              {| eventName := hash sample_tx;
                 listenerFunction := {| fn_id := 0; fn_kind := Emitter;
                                        fn_callback := returning |} |}
              returning sample_tx)
    as (w' & l' & Hr & _ & _ & Hh & Hin & _).
  - split; cbn; [apply NoDup_singleton | repeat constructor].
  - left. reflexivity.
  - vm_compute. discriminate.
  - reflexivity.
  - reflexivity.
  - exists w'. split; [exact Hr |]. split; [exact Hh | exact Hin].
Defined.

(** X14: a timer fires once: after its firing no later step of the
    subscription can fire it again, so one registration reports one
    timeout at most. *)
Theorem timer_fires_once (w w1 w2 : world) (id : nat) (ls : list label) :
  timers_wf w ->
  step (FireTimer id) w = Some w1 ->
  run ls w1 = Some w2 ->
  step (FireTimer id) w2 = None.
Proof.
  intros Hwf Hs Hr.
  assert (Hinv : (id < next_timer w1)%nat /\ ~ In id (map fst (timers w1))).
  { cbn [step] in Hs.
    destruct (List.find (fun e => Nat.eqb e.1 id) (timers w)) as [[i d] |] eqn:Hf;
      [| discriminate].
    destruct (d <=? clock w); [| discriminate]. some_inj Hs.
    set (wd := set_timers _ w).
    destruct (onTimeout_spec wd) as (_ & _ & Hti & _ & _ & _ & _ & Hnt & _).
    cbn zeta in Hti, Hnt. rewrite Hti, Hnt. unfold wd. cbn.
    apply find_some in Hf. destruct Hf as [Hin Heq]. cbn in Heq.
    apply Nat.eqb_eq in Heq. subst i. split.
    - destruct Hwf as [_ Hlt]. rewrite List.Forall_forall in Hlt. exact (Hlt _ Hin).
    - intros Hx. apply in_map_iff in Hx. destruct Hx as ([i d'] & Hi & Hx).
      cbn in Hi. subst i. apply filter_In in Hx. destruct Hx as [_ Hx].
      cbn in Hx. rewrite Nat.eqb_refl in Hx. discriminate. }
  clear Hs Hwf.
  revert w1 Hinv Hr. induction ls as [| l ls IH]; intros w1 [Hlt Hnin] Hr; cbn [run] in Hr.
  - some_inj Hr. cbn [step].
    destruct (List.find (fun e => Nat.eqb e.1 id) (timers w1)) as [[i d] |] eqn:Hf;
      [| reflexivity].
    exfalso. apply find_some in Hf. destruct Hf as [Hin Heq]. cbn in Heq.
    apply Nat.eqb_eq in Heq. subst i. apply Hnin.
    apply in_map_iff. exists (id, d). auto.
  - destruct (step l w1) as [w' |] eqn:Hs; [| discriminate].
    apply (IH w'); [| exact Hr].
    destruct (step_timers _ _ _ Hs)
      as [(id' & _ & -> & ->) | [[-> ->] | (due & -> & ->)]].
    + split; [exact Hlt |]. intros Hx. apply Hnin.
      apply in_map_iff in Hx. destruct Hx as (e & He & Hx).
      apply in_map_iff. exists e. split; [exact He |].
      apply filter_In in Hx. tauto.
    + auto.
    + split; [lia |]. rewrite map_app. cbn. intros Hx.
      apply in_app_or in Hx. destruct Hx as [Hx | [Hx | []]]; [auto | lia].
Qed.

(** X14 at [listening_world]: once fired, the timer cannot fire again,
    whatever comes after. *)
Lemma timer_fires_once_witness :
  exists w1 w2,
    step (FireTimer 0) (set_clock (fun c => c + 2000) listening_world) = Some w1
    /\ run [Tick 5000; CallOn "confirmation" (JsFunction returning)] w1 = Some w2
    /\ step (FireTimer 0) w2 = None.
Proof.
  eexists. eexists.
  split; [vm_compute; reflexivity |]. split; [vm_compute; reflexivity |].
  eapply (timer_fires_once (set_clock (fun c => c + 2000) listening_world) _ _ 0
            [Tick 5000; CallOn "confirmation" (JsFunction returning)]).
  - split; cbn; [apply NoDup_singleton | repeat constructor].
  - vm_compute. reflexivity.
  - vm_compute. reflexivity.
Defined.

(** ** The provider's table and the listener sequence *)

(** The registration made last is the one [removeListener] takes off. *)
Lemma remove_first_last eventName fn (evs : list (string * listener_function)) :
  NoDup (map (fun e => fn_id e.2) (evs ++ [(eventName, fn)])) ->
  remove_first eventName fn (evs ++ [(eventName, fn)]) = evs.
Proof.
  induction evs as [| e evs IH]; cbn [app map remove_first].
  - intros _. unfold same_listener. cbn [fst snd].
    rewrite String.eqb_refl, Nat.eqb_refl. reflexivity.
  - rewrite NoDup_cons. intros [Hn Hd].
    destruct (same_listener eventName fn e) eqn:He.
    + exfalso. apply Hn. unfold same_listener in He. apply andb_true_iff in He.
      destruct He as [_ He]. apply Nat.eqb_eq in He. rewrite He.
      rewrite map_app. apply elem_of_app. right. cbn. apply list_elem_of_singleton.
      reflexivity.
    + rewrite (IH Hd). reflexivity.
Qed.

Lemma removeListener_mirror w :
  events (transport w) = map entry (listeners (sub w)) ->
  NoDup (map (fun e => fn_id e.2) (events (transport w))) ->
  events (transport (removeListener w)) = map entry (listeners (sub (removeListener w)))
  /\ exists tail, listeners (sub w) = listeners (sub (removeListener w)) ++ tail.
Proof.
  intros He Hnd. unfold removeListener.
  destruct (hasListener w);
    [| split; [exact He | exists []; rewrite app_nil_r; reflexivity]].
  destruct (pop (listeners (sub w))) as [[rest l] |] eqn:Hp;
    [| split; [exact He | exists []; rewrite app_nil_r; reflexivity]].
  apply pop_Some in Hp.
  unfold provider_removeListener, set_transport, set_events, set_sub, set_listeners.
  cbn [sub transport events listeners].
  split; [| exists [l]; exact Hp].
  rewrite He in Hnd |- *. rewrite Hp in Hnd |- *. rewrite map_app in Hnd |- *.
  exact (remove_first_last (eventName l) (listenerFunction l) (map entry rest) Hnd).
Qed.

Lemma emitErrorEvent_suspended error w :
  suspended (emitErrorEvent error w).1 = suspended w.
Proof.
  unfold emitErrorEvent. destruct (errorListener (sub w)) as [h |]; [| reflexivity].
  destruct (h (Err error)); reflexivity.
Qed.

(** The listener suspends nothing: its one [await] is the callback's. *)
Lemma emitterFunction_suspended callback receipt w :
  suspended (emitterFunction callback receipt w).1 = suspended w.
Proof.
  unfold emitterFunction.
  destruct receipt; [reflexivity | |]; cbv zeta;
    (destruct (callback _) as [| error]; [reflexivity |];
     destruct (message_of error) as [m |]; [| reflexivity];
     match goal with
     | |- context [emitErrorEvent ?e ?w1] =>
         pose proof (emitErrorEvent_suspended e w1) as H;
         destruct (emitErrorEvent e w1) as [w2 [u | e']]
     end; exact H).
Qed.

Lemma floating_suspended {A : Type} (p : promise A) w :
  suspended (floating p w) = suspended w.
Proof. destruct p; reflexivity. Qed.

Lemma invoke_listener_queries fn payload w t :
  tx (sub w) = Some t ->
  exists polls, suspended (invoke_listener fn payload w) = suspended w ++ polls
                /\ Forall (queries t) polls.
Proof.
  intros Ht. unfold invoke_listener. destruct (fn_kind fn).
  - rewrite Ht. exists [AwaitPoll (fn_callback fn) (hash t)].
    split; [reflexivity |]. constructor; [reflexivity | constructor].
  - exists []. rewrite app_nil_r. cbv zeta.
    rewrite floating_suspended, emitterFunction_suspended. split; [reflexivity | constructor].
Qed.

(** An event suspends block listeners only, each at a query for the
    subscription's own transaction. *)
Lemma emit_queries eventName payload w t :
  tx (sub w) = Some t ->
  exists polls, suspended (emit eventName payload w) = suspended w ++ polls
                /\ Forall (queries t) polls.
Proof.
  unfold emit. generalize (events (transport w)) as l. intros l. revert w.
  induction l as [| e l IH]; intros w Ht; cbn [foldl].
  - exists []. rewrite app_nil_r. split; [reflexivity | constructor].
  - set (w1 := if String.eqb e.1 eventName then invoke_listener e.2 payload w else w).
    assert (H1 : sub w1 = sub w
                 /\ exists polls, suspended w1 = suspended w ++ polls
                                  /\ Forall (queries t) polls).
    { unfold w1. destruct (String.eqb e.1 eventName).
      - split; [apply frame_invoke_listener | apply invoke_listener_queries; exact Ht].
      - split; [reflexivity |].
        exists []. rewrite app_nil_r. split; [reflexivity | constructor]. }
    destruct H1 as [Hs (p1 & Hp1 & F1)].
    destruct (IH w1) as (p2 & Hp2 & F2); [rewrite Hs; exact Ht |].
    exists (p1 ++ p2). rewrite Hp2, Hp1, app_assoc.
    split; [reflexivity | apply Forall_app; auto].
Qed.

Lemma on_suspended trigger callback w :
  let w' := (on trigger callback w).1 in
  suspended w' = suspended w \/ exists f, suspended w' = suspended w ++ [AwaitTx f].
Proof.
  unfold on, async, addListener. cbn [fst snd].
  destruct (negb (existsb (String.eqb trigger) triggers)); [left; reflexivity |].
  destruct callback; try (left; reflexivity).
  destruct (String.eqb trigger "failed"); [left; reflexivity |].
  destruct (hasListener w); [left; reflexivity |]. right. eexists. reflexivity.
Qed.

Lemma no_query_queries t tk : no_query tk -> queries t tk.
Proof. destruct tk; cbn; tauto. Qed.

(** A step that leaves the listeners and the provider's table alone keeps
    the subscription consistent. *)
Lemma consistent_frame w w' :
  consistent w -> events_wf w' ->
  tx (sub w') = tx (sub w) ->
  (tx (sub w) <> None -> txPromise (sub w') = txPromise (sub w)) ->
  listeners (sub w') = listeners (sub w) ->
  events (transport w') = events (transport w) ->
  (tx (sub w) = None -> timers w' = timers w) ->
  (forall t, tx (sub w) = Some t ->
     Forall (queries t) (suspended w) -> Forall (queries t) (suspended w')) ->
  (tx (sub w) = None -> Forall no_query (suspended w) -> Forall no_query (suspended w')) ->
  (tx (sub w) = None -> Forall (fun o => ~ is_CallbackCalled o) (trace w) ->
   Forall (fun o => ~ is_CallbackCalled o) (trace w')) ->
  consistent w'.
Proof.
  unfold consistent. intros (He & _ & Hm) Hwf Htx Hp Hl Hev Hti Hq Hn Htr.
  rewrite Htx, Hl, Hev. split; [exact He |]. split; [exact Hwf |].
  destruct (tx (sub w)) as [t |].
  - destruct Hm as (Hf & Hk & Hs). rewrite Hp by discriminate. auto.
  - destruct Hm as (Hl0 & Ht0 & Hs & Hc). rewrite Hti by reflexivity. auto.
Qed.

Lemma removeListener_consistent w : consistent w -> consistent (removeListener w).
Proof.
  intros Hc. pose proof Hc as (He & Hwf & Hm).
  destruct (removeListener_mirror w He (proj1 Hwf)) as (He' & tail & Htail).
  destruct (removeListener_frame w)
    as (Hp & Htx & _ & _ & _ & _ & Hti & Hs & _ & _ & Htr & Hnf & _ & _).
  cbn zeta in *.
  unfold consistent. split; [exact He' |]. split.
  { unfold events_wf. rewrite Hnf.
    destruct (removeListener_events w) as [-> | (n & fn & ->)];
      [exact Hwf | apply events_wf_removed; exact Hwf]. }
  rewrite Htx, Hp, Hti, Hs, Htr.
  destruct (tx (sub w)) as [t |].
  - destruct Hm as (Hf & Hk & Hq). split; [exact Hf |]. split; [| exact Hq].
    rewrite Htail in Hk. apply Forall_app in Hk. apply Hk.
  - destruct Hm as (Hl0 & Ht0 & Hq & Hcc). rewrite Hl0 in Htail.
    split; [| auto]. symmetry in Htail. apply app_eq_nil in Htail. apply Htail.
Qed.

(** Every step of the event loop keeps the subscription consistent. *)
Lemma step_consistent l w w' : step l w = Some w' -> consistent w -> consistent w'.
Proof.
  intros Hs Hc.
  assert (Hwf' : events_wf w') by (apply (step_events_wf l w w' Hs), Hc).
  assert (Hnone : tx (sub w) = None -> events (transport w) = []).
  { intros Ht. destruct Hc as (He & _ & Hm). rewrite Ht in Hm.
    destruct Hm as (Hl & _). rewrite He, Hl. reflexivity. }
  assert (Hsnoc : forall (P : task -> Prop) q x, P x -> Forall P q -> Forall P (q ++ [x])).
  { intros P q x Hx Hq. apply Forall_app.
    split; [exact Hq | constructor; [exact Hx | constructor]]. }
  assert (Hquery : forall i f h, suspended w !! i = Some (AwaitReceipt f h)
                                 \/ suspended w !! i = Some (AwaitPoll f h) ->
                   exists t, tx (sub w) = Some t).
  { intros i f h Hi. destruct Hc as (_ & _ & Hm).
    destruct (tx (sub w)) as [t |]; [eauto |]. exfalso.
    destruct Hm as (_ & _ & Hq & _).
    destruct Hi as [Hi | Hi]; exact (Forall_lookup_1 _ _ _ _ Hq Hi). }
  destruct l; cbn [step] in Hs.
  - some_inj Hs.
    destruct (on_preserves trigger callback0 w)
      as (Hti & Hl & Htr & Htc & _ & _ & Hp & Htx & _).
    cbn zeta in *.
    apply (consistent_frame w); auto.
    + rewrite Htr. reflexivity.
    + intros t _ Hq. destruct (on_suspended trigger callback0 w) as [-> | [f ->]];
        [exact Hq | apply Hsnoc; [exact I | exact Hq]].
    + intros _ Hq. destruct (on_suspended trigger callback0 w) as [-> | [f ->]];
        [exact Hq | apply Hsnoc; [exact I | exact Hq]].
    + intros _ H. rewrite Htc. exact H.
  - some_inj Hs. exact (removeListener_consistent w Hc).
  - some_inj Hs. exact (removeListener_consistent w Hc).
  - some_inj Hs. exact (removeListener_consistent w Hc).
  - some_inj Hs. exact (removeListener_consistent w Hc).
  - some_inj Hs. apply (consistent_frame w); auto.
    + intros t _ Hq. exact (Hsnoc _ _ WaitTx I Hq).
    + intros _ Hq. exact (Hsnoc _ _ WaitTx I Hq).
  - destruct (txPromise (sub w)) eqn:Hp; try discriminate. some_inj Hs.
    apply (consistent_frame w); auto.
    intros Hne. exfalso. destruct Hc as (_ & _ & Hm).
    destruct (tx (sub w)); [destruct Hm as [Hf _]; congruence | congruence].
  - some_inj Hs. apply (consistent_frame w); auto.
  - some_inj Hs. destruct (tx (sub w)) as [t |] eqn:Ht.
    + destruct (frame_emit eventName0 payload w) as (Hsub & Htr & _).
      apply (consistent_frame w); rewrite ?Hsub, ?Htr, ?Ht; auto; try discriminate.
      intros t' Ht' Hq. some_inj Ht'.
      destruct (emit_queries eventName0 payload w t Ht) as (polls & Hpolls & F).
      rewrite Hpolls. apply Forall_app. split; [exact Hq | exact F].
    + unfold emit. rewrite (Hnone eq_refl). exact Hc.
  - pose proof Hs as Hs0. unfold resume in Hs.
    destruct (suspended w !! i) as [[f | f h | f h | | h] |] eqn:Hi; try discriminate.
    + cbn in Hs. destruct (txPromise (sub w)) as [| t | e] eqn:Hp; try discriminate;
        some_inj Hs.
      * destruct Hc as (He & _ & Hm).
        split; [exact He |]. split; [exact Hwf' |].
        change (txPromise (sub w) = Fulfilled t
                /\ Forall (keyed_on t) (listeners (sub w))
                /\ Forall (queries t)
                     (delete i (suspended w) ++ [AwaitReceipt f (hash t)])).
        split; [exact Hp |].
        destruct (tx (sub w)) as [t' |].
        -- destruct Hm as (Hf & Hk & Hq).
           assert (t' = t) by congruence. subst t'.
           split; [exact Hk |]. apply Hsnoc; [reflexivity | apply Forall_delete; exact Hq].
        -- destruct Hm as (Hl & _ & Hq & _). rewrite Hl. split; [constructor |].
           apply Hsnoc; [reflexivity |]. apply Forall_delete.
           eapply Forall_impl; [exact Hq |]. intros tk. apply no_query_queries.
      * apply (consistent_frame w); auto.
        -- intros t _ Hq. apply Forall_delete. exact Hq.
        -- intros _ Hq. apply Forall_delete. exact Hq.
    + destruct (Hquery i f h (or_introl Hi)) as [t Ht].
      destruct (resume_AwaitReceipt w i f h t Hi Ht)
        as (w'' & l & Hr & Hl & Hev & _ & _ & Hsus & _ & _ & Hkey & _ & _ & _ & _ & Htx
            & Hp & _ & _).
      rewrite Hr in Hs0. some_inj Hs0. clear Hs.
      destruct Hc as (He & _ & Hm). rewrite Ht in Hm. destruct Hm as (Hf & Hk & Hq).
      unfold consistent. rewrite Hl, Hev, Htx, Ht, Hp, Hsus.
      split; [rewrite map_app, He; reflexivity |]. split; [exact Hwf' |].
      split; [exact Hf |]. split; [| apply Forall_delete; exact Hq].
      apply Forall_app. split; [exact Hk |]. constructor; [| constructor].
      unfold keyed_on. destruct (ledger w !! h); injection Hkey as -> ->; auto.
    + destruct (Hquery i f h (or_intror Hi)) as [t Ht].
      some_inj Hs.
      match goal with
      | |- context [emitterFunction f ?r ?w0] =>
          pose proof (frame_poll_resumed f r w0) as (Hsub & Htr & _);
          pose proof (emitterFunction_suspended f r w0) as Hsu;
          pose proof (floating_suspended (emitterFunction f r w0).2
                        (emitterFunction f r w0).1) as Hfl
      end.
      rewrite Hsu in Hfl.
      apply (consistent_frame w); rewrite ?Hsub, ?Htr, ?Hfl, ?Ht; auto; try discriminate.
      intros t' _ Hq. apply Forall_delete. exact Hq.
    + cbn in Hs. destruct (txPromise (sub w)) as [| t | e]; try discriminate; some_inj Hs;
        apply (consistent_frame w); auto.
      * intros t' _ Hq. apply Hsnoc; [exact I | apply Forall_delete; exact Hq].
      * intros _ Hq. apply Hsnoc; [exact I | apply Forall_delete; exact Hq].
      * intros t' _ Hq. apply Forall_delete. exact Hq.
      * intros _ Hq. apply Forall_delete. exact Hq.
    + cbn in Hs. destruct (getTransactionReceipt h _); try discriminate. some_inj Hs.
      apply (consistent_frame w); auto.
      * intros t' _ Hq. apply Forall_delete. exact Hq.
      * intros _ Hq. apply Forall_delete. exact Hq.
  - destruct (0 <=? dt); try discriminate. some_inj Hs. apply (consistent_frame w); auto.
  - destruct (List.find _ (timers w)) as [[id' due] |]; try discriminate.
    destruct (due <=? clock w); try discriminate. some_inj Hs.
    set (wd := set_timers (List.filter (fun e => negb (Nat.eqb e.1 id))) w) in *.
    assert (Hd : consistent wd).
    { apply (consistent_frame w); auto.
      - exact (proj1 (proj2 Hc)).
      - intros Ht. destruct Hc as (_ & _ & Hm). rewrite Ht in Hm.
        destruct Hm as (_ & Hti & _). unfold wd. cbn. rewrite Hti. reflexivity. }
    pose proof (removeListener_consistent wd Hd) as Hrm.
    destruct (removeListener_frame wd)
      as (_ & _ & _ & _ & _ & _ & Hti & Hsu & _ & _ & Htr & _).
    destruct (onTimeout_spec wd) as (Hsub & Htp & Hti' & Hsu' & _ & _ & _ & _ & _ & Htr').
    cbn zeta in *.
    apply (consistent_frame (removeListener wd)); rewrite ?Hsub, ?Htp; auto.
    + intros _. congruence.
    + intros t _ Hq. rewrite Hsu', <- Hsu. exact Hq.
    + intros _ Hq. rewrite Hsu', <- Hsu. exact Hq.
    + intros _ Hq. rewrite Htr', <- Htr. apply Forall_app. split; [exact Hq |].
      destruct (errorListener (sub wd)); [| constructor].
      constructor; [| constructor]. intros H. exact H.
Qed.

Lemma run_consistent ls w w' : run ls w = Some w' -> consistent w -> consistent w'.
Proof.
  revert w. induction ls as [| l ls IH]; intros w Hr Hc; cbn [run] in Hr.
  - some_inj Hr. exact Hc.
  - destruct (step l w) as [w1 |] eqn:Hs; [| discriminate].
    exact (IH _ Hr (step_consistent _ _ _ Hs Hc)).
Qed.

Lemma reachable_consistent w : reachable w -> consistent w.
Proof.
  intros (txPromise & p & ledger & now & ls & Hp & Hr).
  apply (run_consistent _ _ _ Hr).
  unfold consistent, events_wf. cbn. rewrite Hp.
  repeat split; constructor.
Qed.

Lemma listening_world_reachable : reachable listening_world.
Proof.
  exists (Fulfilled sample_tx), getDefaultProvider, ∅, 0,
    [CallOn "confirmation" (JsFunction returning); Resume 0; Resume 0].
  split; [reflexivity | exact listening_world_reached].
Qed.

Lemma pending_world_reachable : reachable pending_world.
Proof.
  exists Pending, getDefaultProvider, ∅, 0, []. split; reflexivity.
Qed.

(** X17: as long as the transaction of the write has not resolved, a
    subscription has attached nothing, whatever was called on it: no
    listener, nothing on the provider, no timer started, and no
    confirmation callback called. *)
Theorem nothing_before_resolution (w : world) :
  reachable w ->
  (forall t, txPromise (sub w) <> Fulfilled t) ->
  listeners (sub w) = [] /\ events (transport w) = [] /\ timers w = []
  /\ Forall (fun o => ~ is_CallbackCalled o) (trace w).
Proof.
  intros Hr Hp. destruct (reachable_consistent w Hr) as (He & _ & Hm).
  destruct (tx (sub w)) as [t |].
  - destruct Hm as (Hf & _). destruct (Hp t Hf).
  - destruct Hm as (Hl & Hti & _ & Htr). rewrite He, Hl. auto.
Qed.

(** X18: every listener a subscription has attached is in one of the two
    shapes of [#addListener], for the transaction its promise resolved to:
    a block listener under ["block"], or the emitter function under the
    transaction's hash. *)
Theorem listeners_keyed_on_transaction (w : world) (l : listener) :
  reachable w ->
  In l (listeners (sub w)) ->
  exists t, txPromise (sub w) = Fulfilled t /\ keyed_on t l.
Proof.
  intros Hr Hin. destruct (reachable_consistent w Hr) as (_ & _ & Hm).
  destruct (tx (sub w)) as [t |].
  - destruct Hm as (Hf & Hk & _). exists t. split; [exact Hf |].
    rewrite List.Forall_forall in Hk. exact (Hk l Hin).
  - destruct Hm as (Hl & _). rewrite Hl in Hin. destruct Hin.
Qed.

(** X17 at [pending_world]. *)
Lemma nothing_before_resolution_witness :
  listeners (sub pending_world) = [] /\ events (transport pending_world) = []
  /\ timers pending_world = []
  /\ Forall (fun o => ~ is_CallbackCalled o) (trace pending_world).
Proof.
  apply (nothing_before_resolution pending_world pending_world_reachable).
  intros t H. discriminate H.
Defined.

(** X18 at the listener of [listening_world]. *)
Lemma listeners_keyed_on_transaction_witness :
  exists t, txPromise (sub listening_world) = Fulfilled t
            /\ keyed_on t {| eventName := hash sample_tx;
                             listenerFunction := {| fn_id := 0; fn_kind := Emitter;
                                                    fn_callback := returning |} |}.
Proof.
  apply (listeners_keyed_on_transaction listening_world _ listening_world_reachable).
  left. reflexivity.
Defined.

(** * The earlier generation of the subscription *)

Section LegacySubscriptionFacts.

Import LegacySubscription.

Lemma legacy_listening_reached :
  run [CallOn "confirmation" (JsFunction throwing); Resume 0;
       CallOn "confirmation" (JsFunction returning); Resume 0] legacy_resolved
  = Some legacy_listening.
Proof. reflexivity. Qed.

(** X19: in the earlier generation a registration for ["confirmation"] on
    a resolved transaction always ends with one more listener on the
    provider under the transaction's hash, whatever is registered already:
    there is no guard against a second listener, and nothing else is
    started or changed. *)
Theorem legacy_on_attaches_every_time (w : state) (f : callback) (t : tx_record) :
  txPromise w = Fulfilled t ->
  exists w',
    run [CallOn "confirmation" (JsFunction f); Resume (length (suspended w))] w = Some w'
    /\ table w' = table w ++ [(hash t, {| id := next_id w; wrapped := f |})]
    /\ suspended w' = suspended w /\ unhandled w' = unhandled w
    /\ rejections w' = rejections w /\ trace w' = trace w.
Proof.
  intros Ht. cbn [run step]. unfold on. cbn [String.eqb Ascii.eqb Bool.eqb fst].
  unfold resume. cbn [suspended set_suspended].
  rewrite (list_lookup_middle (suspended w) [] (OnAwaitTx f) _ eq_refl).
  cbn [txPromise set_suspended]. rewrite Ht.
  eexists. split; [reflexivity |]. cbn.
  rewrite (delete_middle (suspended w) [] (OnAwaitTx f)), app_nil_r.
  repeat split; reflexivity.
Qed.

Lemma legacy_emit_unkeyed eventName payload (w : state) :
  Forall (fun e => String.eqb e.1 eventName = false) (table w) ->
  emit eventName payload w = w.
Proof.
  unfold emit. generalize (table w) as l. intros l. revert w.
  induction l as [| e l IH]; intros w H; cbn [foldl]; [reflexivity |].
  inversion H as [| ? ? He Hl]; subst. rewrite He. exact (IH w Hl).
Qed.

(** X20: in the earlier generation [removeAllListeners], once the
    transaction is resolved, takes every listener under the transaction's
    hash off the provider and leaves those under other keys in place, in
    order; an event for the transaction then reaches no callback and changes
    nothing. *)
Theorem legacy_removeAllListeners_clears (w : state) (t : tx_record) (payload : emitted) :
  txPromise w = Fulfilled t ->
  exists w',
    run [CallRemoveAllListeners; Resume (length (suspended w))] w = Some w'
    /\ table w' = List.filter (fun e => negb (String.eqb e.1 (hash t))) (table w)
    /\ (forall e, In e (table w') <-> In e (table w) /\ e.1 <> hash t)
    /\ suspended w' = suspended w /\ trace w' = trace w
    /\ emit (hash t) payload w' = w'.
Proof.
  intros Ht. cbn [run step]. unfold removeAllListeners. cbn [fst].
  unfold resume. cbn [suspended set_suspended].
  rewrite (list_lookup_middle (suspended w) [] RemoveAwaitTx _ eq_refl).
  cbn [txPromise set_suspended]. rewrite Ht.
  eexists. split; [reflexivity |]. cbn [table set_table suspended set_suspended trace].
  rewrite (delete_middle (suspended w) [] RemoveAwaitTx), app_nil_r.
  split; [reflexivity |]. split.
  { intros e. rewrite filter_In, negb_true_iff, String.eqb_neq. reflexivity. }
  split; [reflexivity |]. split; [reflexivity |].
  apply legacy_emit_unkeyed. cbn [table set_table].
  apply List.Forall_forall. intros e He. apply filter_In in He.
  destruct He as [_ He]. apply negb_true_iff in He. exact He.
Qed.

Lemma legacy_emit_fold eventName r (l : list (string * listener_fn)) (w : state) :
  let w' := foldl (fun w e =>
                     if String.eqb e.1 eventName
                     then let o := listener (wrapped e.2) (EReceipt r) w in floating o.2 o.1
                     else w) w l in
  let called := List.filter (fun e => String.eqb e.1 eventName) l in
  trace w' = trace w ++ map (fun _ => CallbackCalled (message_for r)) called
  /\ unhandled w'
     = unhandled w
       ++ flat_map (fun e => legacy_rejection (wrapped e.2 (Msg (message_for r)))) called
  /\ table w' = table w /\ suspended w' = suspended w /\ rejections w' = rejections w
  /\ txPromise w' = txPromise w.
Proof.
  revert w. induction l as [| e l IH]; intros w; cbn [foldl List.filter].
  - cbn. rewrite !app_nil_r. repeat split; reflexivity.
  - destruct (String.eqb e.1 eventName).
    + match goal with
      | |- context [foldl ?f ?w1 l] => specialize (IH w1); set (w2 := w1) in *
      end.
      cbv zeta in IH. destruct IH as (Htr & Hun & Hta & Hsu & Hre & Htp).
      cbv zeta. rewrite Htr, Hun, Hta, Hsu, Hre, Htp. clear Htr Hun Hta Hsu Hre Htp.
      unfold w2, listener, message_for, legacy_rejection. cbn [map flat_map].
      destruct (wrapped e.2 _) as [| error]; cbn.
      * rewrite <- app_assoc. repeat split; reflexivity.
      * destruct (message_of error); cbn; rewrite <- !app_assoc; repeat split; reflexivity.
    + exact (IH w).
Qed.

(** X21: an event of the earlier generation calls every callback
    registered under its key once with the receipt's confirmations; each
    callback that fails leaves one rejection that nobody handles, the
    wrapped error, in registration order; the listeners stay registered. *)
Theorem legacy_delivery (eventName : string) (r : receipt) (w : state) :
  let w' := emit eventName (EReceipt r) w in
  let called := List.filter (fun e => String.eqb e.1 eventName) (table w) in
  trace w' = trace w ++ map (fun _ => CallbackCalled (message_for r)) called
  /\ unhandled w'
     = unhandled w
       ++ flat_map (fun e => legacy_rejection (wrapped e.2 (Msg (message_for r)))) called
  /\ table w' = table w /\ rejections w' = rejections w.
Proof.
  destruct (legacy_emit_fold eventName r (table w) w) as (Htr & Hun & Hta & _ & Hre & _).
  cbv zeta in *. unfold emit. auto.
Qed.

(** X19 at [legacy_listening], where two listeners are registered
    already. *)
Lemma legacy_on_attaches_every_time_witness :
  exists w',
    run [CallOn "confirmation" (JsFunction returning);
         Resume (length (suspended legacy_listening))] legacy_listening = Some w'
    /\ length (table w') = 3%nat.
Proof.
  destruct (legacy_on_attaches_every_time legacy_listening returning sample_tx eq_refl)
    as (w' & Hr & Ht & _).
  exists w'. split; [exact Hr |]. rewrite Ht. reflexivity.
Defined.

(** X20 at [legacy_listening]. *)
Lemma legacy_removeAllListeners_clears_witness :
  exists w',
    run [CallRemoveAllListeners; Resume (length (suspended legacy_listening))]
        legacy_listening = Some w'
    /\ table w' = []
    /\ emit (hash sample_tx) (EReceipt {| confirmations := 1 |}) w' = w'.
Proof.
  destruct (legacy_removeAllListeners_clears legacy_listening sample_tx
              (EReceipt {| confirmations := 1 |}) eq_refl)
    as (w' & Hr & Ht & _ & _ & _ & He).
  exists w'. split; [exact Hr |]. split; [rewrite Ht; reflexivity | exact He].
Defined.

End LegacySubscriptionFacts.

(** * The block listener *)

Lemma block_listening_world_reachable : reachable block_listening_world.
Proof.
  exists (Fulfilled sample_tx), getDefaultProvider,
    {[ hash sample_tx := {| confirmations := 3 |} ]}, 0,
    [CallOn "confirmation" (JsFunction returning); Resume 0; Resume 0].
  split; [reflexivity | vm_compute; reflexivity].
Qed.

(** X22: with a block listener attached (the transaction was mined when the
    registration completed), a block event delivers nothing by itself: the
    listener ignores the block number and asks the provider for the receipt
    of the subscription's transaction, and once that query answers the
    callback is called with the confirmations the ledger holds at that
    moment; the listener, the provider's table and the timers are as
    before. *)
Theorem block_listener_delivery (w : world) (l : listener) (t : tx_record) (r : receipt)
    (n : Z) :
  reachable w ->
  listeners (sub w) = [l] ->
  fn_kind (listenerFunction l) = BlockPoll ->
  txPromise (sub w) = Fulfilled t ->
  ledger w !! hash t = Some r ->
  fn_callback (listenerFunction l) (Msg (message_for r)) = CbReturned ->
  emit "block" (EBlockNumber n) w
  = suspend (AwaitPoll (fn_callback (listenerFunction l)) (hash t)) w
  /\ exists w',
       run [Emit "block" (EBlockNumber n); Resume (length (suspended w))] w = Some w'
       /\ trace w' = trace w ++ [CallbackCalled (message_for r)]
       /\ suspended w' = suspended w /\ sub w' = sub w /\ transport w' = transport w
       /\ timers w' = timers w /\ unhandled w' = unhandled w.
Proof.
  intros Hreach Hl Hk Hp Hr Hcb.
  destruct (reachable_consistent w Hreach) as (He & _ & Hm).
  assert (Htx : tx (sub w) = Some t /\ eventName l = "block").
  { destruct (tx (sub w)) as [t' |].
    - destruct Hm as (Hf & Hkey & _). assert (t' = t) by congruence. subst t'.
      split; [reflexivity |]. rewrite Hl in Hkey. inversion Hkey as [| ? ? Hk1 _]; subst.
      destruct Hk1 as [[Hn _] | [_ Hk']]; [exact Hn | congruence].
    - destruct Hm as (Hl0 & _). congruence. }
  destruct Htx as [Htx Hn].
  assert (Hemit : emit "block" (EBlockNumber n) w
                  = suspend (AwaitPoll (fn_callback (listenerFunction l)) (hash t)) w).
  { unfold emit. rewrite He, Hl. cbn [map foldl entry fst snd]. rewrite Hn.
    cbn [String.eqb Ascii.eqb Bool.eqb]. unfold invoke_listener. rewrite Hk, Htx.
    reflexivity. }
  split; [exact Hemit |].
  cbn [run step]. rewrite Hemit. unfold resume. unfold suspend at 1.
  cbn [suspended set_suspended].
  rewrite (list_lookup_middle (suspended w) [] _ _ eq_refl).
  cbv zeta. unfold getTransactionReceipt.
  match goal with
  | |- context [ledger ?w0 !! hash t] => change (ledger w0) with (ledger w)
  end.
  rewrite Hr. unfold emitterFunction. fold (message_for r). rewrite Hcb.
  eexists. split; [reflexivity |].
  unfold floating, suspend, set_trace, set_suspended.
  cbn [fst snd sub transport ledger clock timers next_timer suspended unhandled uncaught
       next_fn trace].
  rewrite (delete_middle (suspended w) [] _), app_nil_r.
  repeat split; reflexivity.
Qed.

(** X22 at [block_listening_world], whose ledger holds three
    confirmations. *)
Lemma block_listener_delivery_witness :
  exists w',
    run [Emit "block" (EBlockNumber 12);
         Resume (length (suspended block_listening_world))] block_listening_world
    = Some w'
    /\ trace w' = trace block_listening_world
                  ++ [CallbackCalled (message_for {| confirmations := 3 |})].
Proof.
  destruct (block_listener_delivery block_listening_world
              {| eventName := "block";
                 listenerFunction := {| fn_id := 0; fn_kind := BlockPoll;
                                        fn_callback := returning |} |}
              sample_tx {| confirmations := 3 |} 12
              block_listening_world_reachable eq_refl eq_refl eq_refl)
    as (_ & w' & Hr & Ht & _).
  - vm_compute. reflexivity.
  - reflexivity.
  - exists w'. split; [exact Hr | exact Ht].
Defined.

(** * C4: the key the confirmation listener is attached under *)

Lemma finishAddListener_suspended callback receipt w :
  suspended (finishAddListener callback receipt w) = suspended w.
Proof.
  unfold finishAddListener. destruct receipt as [r |]; cbn.
  - rewrite last_snoc. reflexivity.
  - destruct (tx (sub w)); cbn; [rewrite last_snoc |]; reflexivity.
Qed.

(** A resumed function leaves the queue; its continuation may suspend
    again, at the end of the queue. *)
Lemma resume_suspended i w w' :
  resume i w = Some w' ->
  exists more, suspended w' = delete i (suspended w) ++ more.
Proof.
  unfold resume. destruct (suspended w !! i) as [[f | f h | f h | | h] |]; try discriminate.
  - cbn. destruct (txPromise (sub w)) as [| t | e]; try discriminate; intros Hs; some_inj Hs.
    + eexists. reflexivity.
    + exists []. rewrite app_nil_r. reflexivity.
  - intros Hs. some_inj Hs. exists []. rewrite app_nil_r.
    apply finishAddListener_suspended.
  - intros Hs. some_inj Hs. exists []. rewrite app_nil_r.
    rewrite floating_suspended, emitterFunction_suspended. reflexivity.
  - cbn. destruct (txPromise (sub w)) as [| t | e]; try discriminate; intros Hs; some_inj Hs.
    + eexists. reflexivity.
    + exists []. rewrite app_nil_r. reflexivity.
  - cbn. destruct (getTransactionReceipt h _); try discriminate. intros Hs. some_inj Hs.
    exists []. rewrite app_nil_r. reflexivity.
Qed.

Lemma step_suspended l w w' :
  step l w = Some w' ->
  (exists more, suspended w' = suspended w ++ more)
  \/ (exists i more, l = Resume i /\ suspended w' = delete i (suspended w) ++ more).
Proof.
  assert (Hsame : forall q : list task, exists more, q = q ++ more).
  { intros q. exists []. rewrite app_nil_r. reflexivity. }
  assert (Hrm : forall w0, suspended (removeListener w0) = suspended w0).
  { intros w0. apply (removeListener_frame w0). }
  intros Hs. destruct l; cbn [step] in Hs.
  - some_inj Hs. left.
    destruct (on_suspended trigger callback0 w) as [-> | [f ->]]; [apply Hsame | eauto].
  - some_inj Hs. left. rewrite Hrm. apply Hsame.
  - some_inj Hs. left. unfold removeAllListeners. rewrite Hrm. apply Hsame.
  - some_inj Hs. left. unfold off. rewrite Hrm. apply Hsame.
  - some_inj Hs. left. unfold unsubscribe. rewrite Hrm. apply Hsame.
  - some_inj Hs. left. exists [WaitTx]. reflexivity.
  - destruct (txPromise (sub w)); try discriminate. some_inj Hs. left. apply Hsame.
  - some_inj Hs. left. apply Hsame.
  - some_inj Hs. left.
    destruct (frame_emit eventName0 payload w)
      as (_ & _ & _ & _ & _ & _ & _ & _ & (polls & -> & _) & _). eauto.
  - right. destruct (resume_suspended i w w' Hs) as [more Hm]. eauto.
  - destruct (0 <=? dt); try discriminate. some_inj Hs. left. apply Hsame.
  - destruct (List.find _ (timers w)) as [[id' due] |]; try discriminate.
    destruct (due <=? clock w); try discriminate. some_inj Hs. left.
    set (wd := set_timers _ w).
    destruct (onTimeout_spec wd) as (_ & _ & _ & -> & _). apply Hsame.
Qed.

(** A suspended function stays suspended until it is itself resumed. *)
Lemma step_keeps_task l w w' i tk :
  step l w = Some w' ->
  suspended w !! i = Some tk ->
  l <> Resume i ->
  exists i', suspended w' !! i' = Some tk.
Proof.
  intros Hs Hi Hne.
  destruct (step_suspended l w w' Hs) as [[more ->] | (j & more & -> & ->)].
  - exists i. apply lookup_app_l_Some. exact Hi.
  - assert (Hij : i <> j) by congruence.
    destruct (Nat.lt_ge_cases i j) as [Hlt | Hge].
    + exists i. apply lookup_app_l_Some. rewrite list_lookup_delete_lt by exact Hlt. exact Hi.
    + destruct i as [| i']; [lia |]. exists i'. apply lookup_app_l_Some.
      rewrite list_lookup_delete_ge by lia. exact Hi.
Qed.

Lemma invoke_listener_no_tx fn payload w :
  tx (sub w) = None -> suspended (invoke_listener fn payload w) = suspended w.
Proof.
  intros Ht. unfold invoke_listener. destruct (fn_kind fn).
  - rewrite Ht. reflexivity.
  - cbv zeta. rewrite floating_suspended, emitterFunction_suspended. reflexivity.
Qed.

(** Before [#tx] is set an event suspends nothing. *)
Lemma emit_no_tx eventName payload w :
  tx (sub w) = None -> suspended (emit eventName payload w) = suspended w.
Proof.
  unfold emit. generalize (events (transport w)) as l. intros l. revert w.
  induction l as [| e l IH]; intros w Ht; cbn [foldl]; [reflexivity |].
  destruct (String.eqb e.1 eventName); [| exact (IH w Ht)].
  rewrite IH.
  - apply invoke_listener_no_tx. exact Ht.
  - destruct (frame_invoke_listener e.2 payload w) as (-> & _). exact Ht.
Qed.

Lemma finishAddListener_tx callback receipt w :
  tx (sub (finishAddListener callback receipt w)) = tx (sub w)
  /\ txPromise (sub (finishAddListener callback receipt w)) = txPromise (sub w).
Proof.
  unfold finishAddListener. destruct receipt as [r |]; cbn.
  - rewrite last_snoc. cbn. auto.
  - destruct (tx (sub w)) eqn:Ht; cbn; [rewrite last_snoc; cbn |]; rewrite ?Ht; auto.
Qed.

Lemma tx_known_frame w w' :
  tx_known w ->
  tx (sub w') = tx (sub w) ->
  (tx (sub w) <> None -> txPromise (sub w') = txPromise (sub w)) ->
  (forall t, tx (sub w) = Some t ->
     Forall (queries t) (suspended w) -> Forall (queries t) (suspended w')) ->
  (tx (sub w) = None -> Forall no_query (suspended w) -> Forall no_query (suspended w')) ->
  tx_known w'.
Proof.
  unfold tx_known. intros Hk Htx Hp Hq Hn. rewrite Htx.
  destruct (tx (sub w)) as [t |].
  - destruct Hk as [Hf Hs]. rewrite Hp by discriminate. auto.
  - auto.
Qed.

(** Every step keeps [#tx] the transaction of the promise, and the receipt
    queries for it. *)
Lemma step_tx_known l w w' : step l w = Some w' -> tx_known w -> tx_known w'.
Proof.
  intros Hs Hk.
  assert (Hsnoc : forall (P : task -> Prop) q x, P x -> Forall P q -> Forall P (q ++ [x])).
  { intros P q x Hx Hq. apply Forall_app.
    split; [exact Hq | constructor; [exact Hx | constructor]]. }
  assert (Hquery : forall i f h, suspended w !! i = Some (AwaitReceipt f h)
                                 \/ suspended w !! i = Some (AwaitPoll f h) ->
                   exists t, tx (sub w) = Some t).
  { intros i f h Hi. unfold tx_known in Hk.
    destruct (tx (sub w)) as [t |]; [eauto |]. exfalso.
    destruct Hi as [Hi | Hi]; exact (Forall_lookup_1 _ _ _ _ Hk Hi). }
  assert (Hrm : forall w0, tx_known w0 -> tx_known (removeListener w0)).
  { intros w0 H0.
    destruct (removeListener_frame w0) as (Hp & Ht & _ & _ & _ & _ & _ & Hsu & _).
    cbn zeta in *. apply (tx_known_frame w0); auto; rewrite Hsu; auto. }
  destruct l; cbn [step] in Hs.
  - some_inj Hs.
    destruct (on_preserves trigger callback0 w) as (_ & _ & _ & _ & _ & _ & Hp & Htx & _).
    cbn zeta in *.
    apply (tx_known_frame w); auto.
    + intros t _ Hq. destruct (on_suspended trigger callback0 w) as [-> | [f ->]];
        [exact Hq | apply Hsnoc; [exact I | exact Hq]].
    + intros _ Hq. destruct (on_suspended trigger callback0 w) as [-> | [f ->]];
        [exact Hq | apply Hsnoc; [exact I | exact Hq]].
  - some_inj Hs. exact (Hrm w Hk).
  - some_inj Hs. exact (Hrm w Hk).
  - some_inj Hs. exact (Hrm w Hk).
  - some_inj Hs. exact (Hrm w Hk).
  - some_inj Hs. apply (tx_known_frame w); auto.
    + intros t _ Hq. exact (Hsnoc _ _ WaitTx I Hq).
    + intros _ Hq. exact (Hsnoc _ _ WaitTx I Hq).
  - destruct (txPromise (sub w)) eqn:Hp; try discriminate. some_inj Hs.
    apply (tx_known_frame w); auto.
    intros Hne. exfalso. unfold tx_known in Hk.
    destruct (tx (sub w)); [destruct Hk as [Hf _]; congruence | congruence].
  - some_inj Hs. apply (tx_known_frame w); auto.
  - some_inj Hs. destruct (frame_emit eventName0 payload w) as (Hsub & _).
    apply (tx_known_frame w); rewrite ?Hsub; auto.
    + intros t Ht Hq.
      destruct (emit_queries eventName0 payload w t Ht) as (polls & -> & F).
      apply Forall_app. auto.
    + intros Ht Hq. rewrite (emit_no_tx eventName0 payload w Ht). exact Hq.
  - unfold resume in Hs.
    destruct (suspended w !! i) as [[f | f h | f h | | h] |] eqn:Hi; try discriminate.
    + cbn in Hs. destruct (txPromise (sub w)) as [| t | e] eqn:Hp; try discriminate;
        some_inj Hs.
      * unfold tx_known in *.
        change (txPromise (sub w) = Fulfilled t
                /\ Forall (queries t)
                     (delete i (suspended w) ++ [AwaitReceipt f (hash t)])).
        split; [exact Hp |]. apply Hsnoc; [reflexivity |]. apply Forall_delete.
        destruct (tx (sub w)) as [t' |].
        -- destruct Hk as [Hf Hq]. assert (t' = t) by congruence. subst t'. exact Hq.
        -- eapply Forall_impl; [exact Hk |]. intros tk. apply no_query_queries.
      * apply (tx_known_frame w); auto.
        -- intros t _ Hq. apply Forall_delete. exact Hq.
        -- intros _ Hq. apply Forall_delete. exact Hq.
    + some_inj Hs.
      destruct (finishAddListener_tx f
                  (getTransactionReceipt h (set_suspended (delete i) w))
                  (set_suspended (delete i) w)) as [Htx Hp].
      apply (tx_known_frame w); rewrite ?Htx, ?Hp, ?finishAddListener_suspended; auto.
      * intros t _ Hq. apply Forall_delete. exact Hq.
      * intros _ Hq. apply Forall_delete. exact Hq.
    + some_inj Hs.
      match goal with
      | |- context [emitterFunction f ?r ?w0] =>
          pose proof (frame_poll_resumed f r w0) as (Hsub & _);
          pose proof (emitterFunction_suspended f r w0) as Hsu;
          pose proof (floating_suspended (emitterFunction f r w0).2
                        (emitterFunction f r w0).1) as Hfl
      end.
      rewrite Hsu in Hfl.
      apply (tx_known_frame w); rewrite ?Hsub, ?Hfl; auto.
      * intros t _ Hq. apply Forall_delete. exact Hq.
      * intros _ Hq. apply Forall_delete. exact Hq.
    + cbn in Hs. destruct (txPromise (sub w)) as [| t | e]; try discriminate; some_inj Hs;
        apply (tx_known_frame w); auto.
      * intros t' _ Hq. apply Hsnoc; [exact I | apply Forall_delete; exact Hq].
      * intros _ Hq. apply Hsnoc; [exact I | apply Forall_delete; exact Hq].
      * intros t' _ Hq. apply Forall_delete. exact Hq.
      * intros _ Hq. apply Forall_delete. exact Hq.
    + cbn in Hs. destruct (getTransactionReceipt h _); try discriminate. some_inj Hs.
      apply (tx_known_frame w); auto.
      * intros t' _ Hq. apply Forall_delete. exact Hq.
      * intros _ Hq. apply Forall_delete. exact Hq.
  - destruct (0 <=? dt); try discriminate. some_inj Hs. apply (tx_known_frame w); auto.
  - destruct (List.find _ (timers w)) as [[id' due] |]; try discriminate.
    destruct (due <=? clock w); try discriminate. some_inj Hs.
    set (wd := set_timers (List.filter (fun e => negb (Nat.eqb e.1 id))) w) in *.
    assert (Hd : tx_known wd) by exact Hk.
    pose proof (Hrm wd Hd) as Hr.
    destruct (removeListener_frame wd) as (_ & _ & _ & _ & _ & _ & _ & Hsu & _).
    destruct (onTimeout_spec wd) as (Hsub & _ & _ & Hsu' & _).
    cbn zeta in *.
    apply (tx_known_frame (removeListener wd)); rewrite ?Hsub; auto.
    + intros t _ Hq. rewrite Hsu', <- Hsu. exact Hq.
    + intros _ Hq. rewrite Hsu', <- Hsu. exact Hq.
Qed.

Lemma spawned_tx_known w : spawned w -> tx_known w.
Proof.
  intros (txPromise & p & ledger & now & ls & Hr).
  assert (H0 : tx_known (spawn (new_TransactionSubscription txPromise) p ledger now)).
  { unfold tx_known. cbn. constructor. }
  revert Hr H0. generalize (spawn (new_TransactionSubscription txPromise) p ledger now).
  induction ls as [| l ls IH]; intros w0 Hr H0; cbn [run] in Hr.
  - some_inj Hr. exact H0.
  - destruct (step l w0) as [w1 |] eqn:Hs; [| discriminate].
    exact (IH _ Hr (step_tx_known _ _ _ Hs H0)).
Qed.

(** The same registration on a subscription whose transaction is still
    pending: the promise is fulfilled while the registration waits. *)
Lemma registration_runs_pending w f t :
  hasListener w = false ->
  txPromise (sub w) = Pending ->
  exists w' l,
    run [CallOn "confirmation" (JsFunction f); TxSettles (Normal t);
         Resume (length (suspended w)); Resume (length (suspended w))] w = Some w'
    /\ listeners (sub w') = [l]
    /\ events (transport w') = events (transport w) ++ [(eventName l, listenerFunction l)]
    /\ fn_callback (listenerFunction l) = f
    /\ (eventName l, fn_kind (listenerFunction l))
       = match ledger w !! hash t with
         | Some _ => ("block", BlockPoll)
         | None => (hash t, Emitter)
         end.
Proof.
  intros Hh Hp.
  set (w2 := set_sub (set_txPromise (Fulfilled t)) w).
  destruct (registration_runs w2 f t Hh eq_refl)
    as (w' & l & Hr & Hl & He & _ & _ & _ & Hcb & Hk & _).
  exists w', l. split; [| auto].
  rewrite <- Hr. cbn [run step].
  rewrite (on_confirmation_idle w f Hh), (on_confirmation_idle w2 f Hh). cbn [fst].
  change (txPromise (sub (suspend (AwaitTx f) w))) with (txPromise (sub w)).
  rewrite Hp. reflexivity.
Qed.

(** C4: a confirmation registration, whatever the state of the write's
    promise when [on] is called and whatever else happens while it is
    under way.  The call suspends the registration at
    [await this.#txPromise].  There it waits while the promise is pending
    and attaches nothing; it is abandoned when the promise is rejected; when
    the promise is fulfilled with [t] it goes on to the receipt query for
    [hash t].  When that query answers, one listener is attached and
    registered with the provider: keyed on ["block"], with the polling
    closure, when the ledger holds a receipt for [hash t] at that moment,
    and keyed on [hash t], with the emitter function itself, when it holds
    none.  No other step removes the suspended registration.  Every firing
    of the block listener suspends at a new receipt query whose answer,
    read when the query resumes, is what the callback is called with.  Run
    without anything in between, from a subscription without listener, the
    registration attaches exactly that listener, both when the promise is
    still pending at the call and when it is fulfilled already. *)
Theorem confirmation_listener_key (f : callback) :
  (forall w, hasListener w = false ->
     on "confirmation" (JsFunction f) w = (suspend (AwaitTx f) w, Normal (Fulfilled tt)))
  /\ (forall w i, suspended w !! i = Some (AwaitTx f) ->
        match txPromise (sub w) with
        | Pending => resume i w = None
        | Rejected e =>
            exists w', resume i w = Some w'
              /\ sub w' = sub w /\ transport w' = transport w /\ timers w' = timers w
              /\ suspended w' = delete i (suspended w)
        | Fulfilled t =>
            exists w', resume i w = Some w'
              /\ listeners (sub w') = listeners (sub w) /\ transport w' = transport w
              /\ timers w' = timers w /\ ledger w' = ledger w
              /\ suspended w' = delete i (suspended w) ++ [AwaitReceipt f (hash t)]
        end)
  /\ (forall w i h, spawned w -> suspended w !! i = Some (AwaitReceipt f h) ->
        exists t w' l,
          txPromise (sub w) = Fulfilled t /\ h = hash t
          /\ resume i w = Some w'
          /\ listeners (sub w') = listeners (sub w) ++ [l]
          /\ events (transport w') = events (transport w) ++ [(eventName l, listenerFunction l)]
          /\ fn_callback (listenerFunction l) = f
          /\ suspended w' = delete i (suspended w)
          /\ match ledger w !! hash t with
             | Some _ => eventName l = "block" /\ fn_kind (listenerFunction l) = BlockPoll
             | None => eventName l = hash t /\ fn_kind (listenerFunction l) = Emitter
             end)
  /\ (forall l w w' i tk,
        step l w = Some w' -> suspended w !! i = Some tk -> l <> Resume i ->
        exists i', suspended w' !! i' = Some tk)
  /\ (forall fn w2 t n r,
        fn_kind fn = BlockPoll -> fn_callback fn = f ->
        tx (sub w2) = Some t -> ledger w2 !! hash t = Some r ->
        suspended (invoke_listener fn (EBlockNumber n) w2)
        = suspended w2 ++ [AwaitPoll f (hash t)]
        /\ trace (invoke_listener fn (EBlockNumber n) w2) = trace w2
        /\ exists w4 rest,
             resume (length (suspended w2)) (invoke_listener fn (EBlockNumber n) w2)
             = Some w4
             /\ trace w4 = trace w2 ++ CallbackCalled (message_for r) :: rest)
  /\ (forall w t, hasListener w = false ->
        (txPromise (sub w) = Pending ->
         exists w' l,
           run [CallOn "confirmation" (JsFunction f); TxSettles (Normal t);
                Resume (length (suspended w)); Resume (length (suspended w))] w = Some w'
           /\ listeners (sub w') = [l]
           /\ events (transport w')
              = events (transport w) ++ [(eventName l, listenerFunction l)]
           /\ fn_callback (listenerFunction l) = f
           /\ match ledger w !! hash t with
              | Some _ => eventName l = "block" /\ fn_kind (listenerFunction l) = BlockPoll
              | None => eventName l = hash t /\ fn_kind (listenerFunction l) = Emitter
              end)
        /\ (txPromise (sub w) = Fulfilled t ->
            exists w' l,
              run [CallOn "confirmation" (JsFunction f);
                   Resume (length (suspended w)); Resume (length (suspended w))] w = Some w'
              /\ listeners (sub w') = [l]
              /\ events (transport w')
                 = events (transport w) ++ [(eventName l, listenerFunction l)]
              /\ fn_callback (listenerFunction l) = f
              /\ match ledger w !! hash t with
                 | Some _ => eventName l = "block" /\ fn_kind (listenerFunction l) = BlockPoll
                 | None => eventName l = hash t /\ fn_kind (listenerFunction l) = Emitter
                 end)).
Proof.
  assert (Hkey : forall (l : listener) (t : tx_record) (o : option receipt),
            (eventName l, fn_kind (listenerFunction l))
            = match o with
              | Some _ => ("block", BlockPoll)
              | None => (hash t, Emitter)
              end ->
            match o with
            | Some _ => eventName l = "block" /\ fn_kind (listenerFunction l) = BlockPoll
            | None => eventName l = hash t /\ fn_kind (listenerFunction l) = Emitter
            end).
  { intros l t [r |] H; injection H as -> ->; auto. }
  split; [exact (fun w H => on_confirmation_idle w f H) |].
  split; [| split; [| split; [| split]]].
  - intros w i Hi. unfold resume. rewrite Hi. cbn.
    destruct (txPromise (sub w)) as [| t | e]; [reflexivity | |].
    + eexists. split; [reflexivity |]. repeat split; reflexivity.
    + eexists. split; [reflexivity |]. repeat split; reflexivity.
  - intros w i h Hreach Hi.
    pose proof (spawned_tx_known w Hreach) as Hm. unfold tx_known in Hm.
    destruct (tx (sub w)) as [t |] eqn:Ht.
    + destruct Hm as (Hf & Hq).
      pose proof (Forall_lookup_1 _ _ _ _ Hq Hi) as Hh. cbn in Hh. subst h.
      destruct (resume_AwaitReceipt w i f (hash t) t Hi Ht)
        as (w' & l & Hr & Hl & Hev & _ & _ & Hsus & Hcb & _ & Hk & _).
      exists t, w', l.
      split; [exact Hf |]. split; [reflexivity |]. split; [exact Hr |].
      split; [exact Hl |]. split; [exact Hev |]. split; [exact Hcb |].
      split; [exact Hsus |]. apply Hkey. exact Hk.
    + destruct (Forall_lookup_1 _ _ _ _ Hm Hi).
  - exact step_keeps_task.
  - intros fn w2 t n r Hkind Hcb Htx Hled.
    assert (Hw3 : invoke_listener fn (EBlockNumber n) w2
                  = suspend (AwaitPoll f (hash t)) w2).
    { unfold invoke_listener. rewrite Hkind, Htx, Hcb. reflexivity. }
    rewrite Hw3. split; [reflexivity |]. split; [reflexivity |].
    unfold resume. cbn [suspended suspend set_suspended].
    rewrite (list_lookup_middle (suspended w2) [] (AwaitPoll f (hash t)) _ eq_refl).
    unfold getTransactionReceipt.
    set (w5 := set_suspended _ _).
    change (ledger w5) with (ledger w2). rewrite Hled.
    assert (Hw5 : trace w5 = trace w2) by reflexivity.
    unfold emitterFunction. fold (message_for r).
    destruct (f (Msg (message_for r))) as [| error].
    + eexists. exists []. simpl. split; reflexivity.
    + destruct (message_of error) as [m0 |].
      * pose proof (frame_emitErrorEvent (CallbackFailure m0)
                      (set_trace (fun t => t ++ [CallbackCalled (message_for r)]) w5)) as Hf.
        destruct Hf as (_ & _ & _ & _ & _ & _ & _ & _ & _ & (obs & Ho) & _).
        destruct (emitErrorEvent _ _) as [w6 [u | e]]; simpl in *;
          eexists; exists obs; (split; [reflexivity |]); simpl;
          rewrite Ho, <- app_assoc; reflexivity.
      * eexists. exists []. simpl. split; reflexivity.
  - intros w t Hh. split; intros Hp.
    + destruct (registration_runs_pending w f t Hh Hp) as (w' & l & Hr & Hl & He & Hcb & Hk).
      exists w', l. split; [exact Hr |]. split; [exact Hl |]. split; [exact He |].
      split; [exact Hcb |]. apply Hkey. exact Hk.
    + destruct (registration_runs w f t Hh Hp)
        as (w' & l & Hr & Hl & He & _ & _ & _ & Hcb & Hk & _).
      exists w', l. split; [exact Hr |]. split; [exact Hl |]. split; [exact He |].
      split; [exact Hcb |]. apply Hkey. exact Hk.
Qed.

(** C4 at [pending_world], whose ledger has no receipt: the listener is
    keyed on the transaction hash; and at [mined_world], whose ledger has
    one: the listener is keyed on ["block"]. *)
Lemma confirmation_listener_key_witness :
  (exists w' l,
     run [CallOn "confirmation" (JsFunction returning); TxSettles (Normal sample_tx);
          Resume (length (suspended pending_world));
          Resume (length (suspended pending_world))] pending_world
     = Some w'
     /\ listeners (sub w') = [l]
     /\ eventName l = hash sample_tx)
  /\ (exists w' l,
        run [CallOn "confirmation" (JsFunction returning);
             Resume (length (suspended mined_world));
             Resume (length (suspended mined_world))] mined_world
        = Some w'
        /\ listeners (sub w') = [l]
        /\ eventName l = "block").
Proof.
  destruct (confirmation_listener_key returning) as (_ & _ & _ & _ & _ & Hrun).
  split.
  - destruct (Hrun pending_world sample_tx eq_refl) as [Hpending _].
    destruct (Hpending eq_refl) as (w' & l & Hr & Hl & _ & _ & Hk).
    exists w', l. split; [exact Hr |]. split; [exact Hl | apply Hk].
  - destruct (Hrun mined_world sample_tx eq_refl) as [_ Hresolved].
    destruct (Hresolved eq_refl) as (w' & l & Hr & Hl & _ & _ & Hk).
    assert (E : ledger mined_world !! hash sample_tx = Some {| confirmations := 3 |})
      by (vm_compute; reflexivity).
    rewrite E in Hk. exists w', l. split; [exact Hr |]. split; [exact Hl | apply Hk].
Defined.
